(** * Certificate inventory and cluster token generator: a shallow embedding

    The Go packages [pkg/utils] (cert.go), [internal/k8s] (certificates.go and
    the client constructor), [internal/handlers] (cluster_ca.go) and
    [internal/auth] (aws.go) are embedded as Rocq functions.  Go strings are
    [string], byte slices are [list byte], Go [int] and [time.Duration] are
    [Z], a pair [(value, error)] is the type [result], and maps are stdpp
    [gmap]s.  Calls into the Go standard library, the AWS SDK and the cluster
    API are parameters of the functions that make them. *)

From Stdlib Require Import ZArith QArith Qpower Qround Qabs Lia Lqa.
From Stdlib Require PrimFloat FloatOps SpecFloat.
From Stdlib Require Import Strings.String Strings.Ascii Strings.Byte List Bool DecimalString.
From stdpp Require Import base strings gmap.

Local Open Scope Z_scope.

(** ** Results of fallible calls: Go's [(value, error)] pairs *)

Inductive result (A : Type) : Type :=
| Ok (a : A)
| Err (msg : string).
Arguments Ok {A} a.
Arguments Err {A} msg.

Definition is_ok {A} (r : result A) : bool :=
  match r with Ok _ => true | Err _ => false end.

(** ** [fmt.Sprintf] verbs *)

Module Fmt.

(** The verb [%d] on an [int]. *)
Definition d (n : Z) : string := NilZero.string_of_int (Z.to_int n).

(** Concatenation of the pieces of a format string. *)
Fixpoint cat (l : list string) : string :=
  match l with
  | [] => EmptyString
  | s :: l' => String.append s (cat l')
  end.

(** Decimal with at least [w] digits, as [time.Format] pads numbers. *)
Fixpoint zeros (n : nat) : string :=
  match n with O => EmptyString | S n' => String "0" (zeros n') end.

Definition pad (w : nat) (n : Z) : string :=
  let s := d (Z.abs n) in
  let body := String.append (zeros (w - String.length s)%nat) s in
  if n <? 0 then String "-" body else body.

End Fmt.

(** ** Go's [float64]

    A finite binary64 value is the rational it denotes.  Every operation
    returns the exact result rounded to the nearest value with a 53-bit
    significand, ties to even.  The exponent range is not modelled: the
    magnitudes that occur below are 0 or between 2^-42 and 2^22, far from
    overflow and from subnormal numbers. *)

Module Float64.
Local Open Scope Q_scope.

Definition pow2 (k : Z) : Q := Qpower 2 k.

(** [ilog2 x] is the integer k with 2^k <= x < 2^(k+1), for x > 0. *)
Definition ilog2 (x : Q) : Z :=
  let k := (Z.log2 (Qnum x) - Z.log2 (Zpos (Qden x)))%Z in
  if Qle_bool (pow2 k) x then k else (k - 1)%Z.

(** Round to the nearest integer, ties to even. *)
Definition rne (y : Q) : Z :=
  let f := Qfloor y in
  match Qcompare (y - inject_Z f) (1 # 2) with
  | Lt => f
  | Gt => (f + 1)%Z
  | Eq => if Z.even f then f else (f + 1)%Z
  end.

Definition round_pos (x : Q) : Q :=
  let e := (ilog2 x - 52)%Z in
  inject_Z (rne (x / pow2 e)) * pow2 e.

Definition round (x : Q) : Q :=
  match Qcompare x 0 with
  | Eq => 0
  | Gt => round_pos x
  | Lt => - round_pos (- x)
  end.

(** [float64(n)] for an integer [n]. *)
Definition of_int (n : Z) : Q := round (inject_Z n).

Definition add (x y : Q) : Q := round (x + y).
Definition div (x y : Q) : Q := round (x / y).

(** [int(x)]: the fraction is discarded. *)
Definition to_int (x : Q) : Z := Z.quot (Qnum x) (Zpos (Qden x)).

End Float64.

(** ** Package [time] *)

Module GoTime.

(** [time.Duration] is a count of nanoseconds in an [int64]. *)
Definition Duration := Z.

Definition Second : Duration := 1000000000.
Definition Hour : Duration := 3600 * Second.
Definition minDuration : Duration := - 2 ^ 63.
Definition maxDuration : Duration := 2 ^ 63 - 1.

(** An instant, as nanoseconds since the Unix epoch, in UTC.  Certificate
    validity bounds and wall-clock readings carry no monotonic part. *)
Definition Time := Z.

(** [t.Sub(u)]: the difference, or the nearest bound of [Duration] when
    the difference does not fit. *)
Definition Sub (t u : Time) : Duration :=
  let d := t - u in
  if d <? minDuration then minDuration
  else if maxDuration <? d then maxDuration
  else d.

(** [t.After(u)] *)
Definition After (t u : Time) : bool := u <? t.

(** [d.Hours()]:
    [hour := d / Hour; nsec := d % Hour;
     return float64(hour) + float64(nsec)/(60*60*1e9)] *)
Definition Hours (d : Duration) : Q :=
  let hour := Z.quot d Hour in
  let nsec := Z.rem d Hour in
  Float64.add (Float64.of_int hour)
              (Float64.div (Float64.of_int nsec) (Float64.of_int (60 * 60 * 1000000000))).

(** Civil date of a day number counted from 1970-01-01, in the proleptic
    Gregorian calendar: (year, month, day). *)
Definition civil (days : Z) : Z * Z * Z :=
  let z := days + 719468 in
  let era := z / 146097 in
  let doe := z - era * 146097 in
  let yoe := (doe - doe / 1460 + doe / 36524 - doe / 146096) / 365 in
  let doy := doe - (365 * yoe + yoe / 4 - yoe / 100) in
  let mp := (5 * doy + 2) / 153 in
  let dd := doy - (153 * mp + 2) / 5 + 1 in
  let m := if mp <? 10 then mp + 3 else mp - 9 in
  let y := yoe + era * 400 + (if m <=? 2 then 1 else 0) in
  (y, m, dd).

(** [t.Format("2006-01-02")] *)
Definition FormatDate (t : Time) : string :=
  let '(y, m, dd) := civil (t / (86400 * Second)) in
  Fmt.cat [Fmt.pad 4 y; "-"%string; Fmt.pad 2 m; "-"%string; Fmt.pad 2 dd].

End GoTime.

(** ** Package [unicode/utf8] *)

Module Utf8.

Definition RuneError : Z := 0xFFFD.
Definition RuneSelf : Z := 0x80.

(** The tables [first] and [acceptRanges]: the size of the encoding that
    byte [s0] starts and the range of its second byte; [None] for a byte
    that starts no encoding of two bytes or more. *)
Definition first (s0 : Z) : option (nat * (Z * Z)) :=
  if s0 <? 0xC2 then None
  else if s0 <=? 0xDF then Some (2%nat, (0x80, 0xBF))
  else if s0 =? 0xE0 then Some (3%nat, (0xA0, 0xBF))
  else if s0 <=? 0xEC then Some (3%nat, (0x80, 0xBF))
  else if s0 =? 0xED then Some (3%nat, (0x80, 0x9F))
  else if s0 <=? 0xEF then Some (3%nat, (0x80, 0xBF))
  else if s0 =? 0xF0 then Some (4%nat, (0x90, 0xBF))
  else if s0 <=? 0xF3 then Some (4%nat, (0x80, 0xBF))
  else if s0 =? 0xF4 then Some (4%nat, (0x80, 0x8F))
  else None.

(** A continuation byte: between [locb] and [hicb]. *)
Definition continuation (b : Z) : bool := (0x80 <=? b) && (b <=? 0xBF).

(** [utf8.DecodeRuneInString], on the bytes of the string: the first rune
    and its width in bytes; [(RuneError, 1)] when the bytes start with no
    valid encoding. *)
Definition DecodeRuneInString (s : list Z) : Z * nat :=
  match s with
  | [] => (RuneError, 0%nat)
  | s0 :: t0 =>
      if s0 <? RuneSelf then (s0, 1%nat)
      else
        match first s0 with
        | None => (RuneError, 1%nat)
        | Some (sz, (lo, hi)) =>
            if (length s <? sz)%nat then (RuneError, 1%nat)
            else
              match t0 with
              | [] => (RuneError, 1%nat)
              | s1 :: t1 =>
                  if (s1 <? lo) || (hi <? s1) then (RuneError, 1%nat)
                  else if (sz <=? 2)%nat then
                    (Z.lor (Z.shiftl (Z.land s0 0x1F) 6) (Z.land s1 0x3F), 2%nat)
                  else
                    match t1 with
                    | [] => (RuneError, 1%nat)
                    | s2 :: t2 =>
                        if negb (continuation s2) then (RuneError, 1%nat)
                        else if (sz <=? 3)%nat then
                          (Z.lor (Z.shiftl (Z.land s0 0x0F) 12)
                             (Z.lor (Z.shiftl (Z.land s1 0x3F) 6) (Z.land s2 0x3F)), 3%nat)
                        else
                          match t2 with
                          | [] => (RuneError, 1%nat)
                          | s3 :: _ =>
                              if negb (continuation s3) then (RuneError, 1%nat)
                              else
                                (Z.lor (Z.shiftl (Z.land s0 0x07) 18)
                                   (Z.lor (Z.shiftl (Z.land s1 0x3F) 12)
                                      (Z.lor (Z.shiftl (Z.land s2 0x3F) 6)
                                         (Z.land s3 0x3F))), 4%nat)
                          end
                    end
              end
        end
  end.

(** [utf8.RuneStart] *)
Definition RuneStart (b : Z) : bool := negb (Z.land b 0xC0 =? 0x80).

(** The position of the first byte of [l] that can start a rune. *)
Fixpoint runeStartIndex (l : list Z) : option nat :=
  match l with
  | [] => None
  | b :: l' => if RuneStart b then Some 0%nat else option_map S (runeStartIndex l')
  end.

(** [utf8.DecodeLastRuneInString], on the bytes of the string from the
    last to the first: the start of the last rune is looked for among the
    three bytes before the last one, the bytes from there are decoded, and
    the rune counts only if it ends with the string. *)
Definition DecodeLastRuneInString (rs : list Z) : Z * nat :=
  match rs with
  | [] => (RuneError, 0%nat)
  | b :: before =>
      if b <? RuneSelf then (b, 1%nat)
      else
        let width :=
          match runeStartIndex (firstn 3 before) with
          | Some j => (j + 2)%nat
          | None => 5%nat
          end in
        let slice := rev (firstn width rs) in
        let '(r, size) := DecodeRuneInString slice in
        if (size =? length slice)%nat then (r, size) else (RuneError, 1%nat)
  end.

End Utf8.

(** ** Package [unicode] *)

Module Unicode.

(** [unicode.IsSpace]: the white space of Latin-1 and the rest of the
    Unicode property White_Space. *)
Definition IsSpace (r : Z) : bool :=
  if r <=? 0xFF then
    ((0x09 <=? r) && (r <=? 0x0D)) || (r =? 0x20) || (r =? 0x85) || (r =? 0xA0)
  else
    (r =? 0x1680) || ((0x2000 <=? r) && (r <=? 0x200A)) || (r =? 0x2028) || (r =? 0x2029)
    || (r =? 0x202F) || (r =? 0x205F) || (r =? 0x3000).

End Unicode.

(** ** Package [strings] *)

Module Strings.

(** A Go string is a sequence of bytes; the runes of [strings.TrimSpace]
    are read from it by the UTF-8 decoder. *)
Definition bytesOf (s : string) : list Z :=
  map (fun c => Z.of_nat (nat_of_ascii c)) (list_ascii_of_string s).
Definition stringOf (b : list Z) : string :=
  string_of_list_ascii (map (fun x => ascii_of_nat (Z.to_nat x)) b).

(** [strings.TrimLeftFunc(s, unicode.IsSpace)]: the runes are decoded from
    the start until one is no white space; [skip] counts the bytes of the
    current rune that are still to be dropped. *)
Fixpoint trimLeftFrom (skip : nat) (s : list Z) {struct s} : list Z :=
  match s with
  | [] => []
  | _ :: s' =>
      match skip with
      | S k => trimLeftFrom k s'
      | O =>
          let '(r, size) := Utf8.DecodeRuneInString s in
          if Unicode.IsSpace r then trimLeftFrom (size - 1) s' else s
      end
  end.

Definition TrimLeftFunc (s : list Z) : list Z := trimLeftFrom 0 s.

(** [strings.TrimRightFunc(s, unicode.IsSpace)], on the bytes [rs] of the
    string from the last to the first, with the bytes [tail] already
    passed: the last runes are decoded until one is no white space; the
    result ends with that rune, decoded once more from its first byte. *)
Fixpoint trimRightFrom (skip : nat) (rs tail : list Z) {struct rs} : list Z :=
  match rs with
  | [] => []
  | b :: rs' =>
      match skip with
      | S k => trimRightFrom k rs' (b :: tail)
      | O =>
          let '(r, size) := Utf8.DecodeLastRuneInString rs in
          if Unicode.IsSpace r then trimRightFrom (size - 1) rs' (b :: tail)
          else
            let rest := rev (firstn size rs) ++ tail in
            let wid :=
              if hd 0 rest <? Utf8.RuneSelf then 1%nat
              else snd (Utf8.DecodeRuneInString rest) in
            rev (skipn size rs) ++ firstn wid rest
      end
  end.

Definition TrimRightFunc (s : list Z) : list Z := trimRightFrom 0 (rev s) [].

(** [strings.TrimSpace]: the string without its leading and trailing white
    space, as Unicode defines it.  The library first drops the white
    space of the ASCII range byte by byte and turns to the decoder at the
    first byte outside that range; the result is that of trimming with
    the decoder throughout. *)
Definition TrimSpace (s : string) : string :=
  stringOf (TrimRightFunc (TrimLeftFunc (bytesOf s))).

(** [strings.Contains(s, substr)] *)
Fixpoint Contains (s substr : string) : bool :=
  String.prefix substr s ||
  match s with
  | EmptyString => false
  | String _ s' => Contains s' substr
  end.

End Strings.

(** ** Package [pkg/utils]: cert.go *)

Module Utils.

(** [pem.Block], without its headers, which the program never reads. *)
Record Block := { Type_ : string; Bytes : list byte }.

(** The fields of [x509.Certificate] that the program reads.  Names and
    addresses stand for their [String()] renderings. *)
Record Certificate := {
  cSubject : string;
  cIssuer : string;
  cSerialNumber : Z;
  cNotBefore : GoTime.Time;
  cNotAfter : GoTime.Time;
  cDNSNames : list string;
  cIPAddresses : list string;
  cKeyUsage : Z;
  cIsCA : bool
}.

Definition KeyUsageDigitalSignature : Z := Z.shiftl 1 0.
Definition KeyUsageContentCommitment : Z := Z.shiftl 1 1.
Definition KeyUsageKeyEncipherment : Z := Z.shiftl 1 2.
Definition KeyUsageDataEncipherment : Z := Z.shiftl 1 3.
Definition KeyUsageKeyAgreement : Z := Z.shiftl 1 4.
Definition KeyUsageCertSign : Z := Z.shiftl 1 5.
Definition KeyUsageCRLSign : Z := Z.shiftl 1 6.

Record CertificateInfo := {
  Subject : string;
  Issuer : string;
  SerialNumber : string;
  NotBefore : GoTime.Time;
  NotAfter : GoTime.Time;
  IsExpired : bool;
  DaysUntilExp : Z;
  DNSNames : list string;
  IPAddresses : list string;
  KeyUsage : list string;
  IsCA : bool
}.

Definition setSubject (s : string) (c : CertificateInfo) : CertificateInfo :=
  {| Subject := s; Issuer := Issuer c; SerialNumber := SerialNumber c;
     NotBefore := NotBefore c; NotAfter := NotAfter c; IsExpired := IsExpired c;
     DaysUntilExp := DaysUntilExp c; DNSNames := DNSNames c;
     IPAddresses := IPAddresses c; KeyUsage := KeyUsage c; IsCA := IsCA c |}.

(** [int(cert.NotAfter.Sub(now).Hours() / 24)] *)
Definition daysUntil (now notAfter : GoTime.Time) : Z :=
  Float64.to_int (Float64.div (GoTime.Hours (GoTime.Sub notAfter now)) (Float64.of_int 24)).

Definition usageLabels (ku : Z) : list string :=
  let keyUsage := [] in
  let keyUsage := if Z.land ku KeyUsageDigitalSignature =? 0 then keyUsage
                  else keyUsage ++ ["Digital Signature"%string] in
  let keyUsage := if Z.land ku KeyUsageKeyEncipherment =? 0 then keyUsage
                  else keyUsage ++ ["Key Encipherment"%string] in
  let keyUsage := if Z.land ku KeyUsageDataEncipherment =? 0 then keyUsage
                  else keyUsage ++ ["Data Encipherment"%string] in
  let keyUsage := if Z.land ku KeyUsageKeyAgreement =? 0 then keyUsage
                  else keyUsage ++ ["Key Agreement"%string] in
  let keyUsage := if Z.land ku KeyUsageCertSign =? 0 then keyUsage
                  else keyUsage ++ ["Certificate Sign"%string] in
  let keyUsage := if Z.land ku KeyUsageCRLSign =? 0 then keyUsage
                  else keyUsage ++ ["CRL Sign"%string] in
  keyUsage.

(** The record both parsers build from a decoded certificate, with the
    clock reading [now]. *)
Definition certInfo (now : GoTime.Time) (cert : Certificate) : CertificateInfo :=
  let daysUntilExp := daysUntil now (cNotAfter cert) in
  let isExpired := GoTime.After now (cNotAfter cert) in
  let ipAddresses := fold_left (fun acc ip => acc ++ [ip]) (cIPAddresses cert) [] in
  let keyUsage := usageLabels (cKeyUsage cert) in
  {| Subject := cSubject cert;
     Issuer := cIssuer cert;
     SerialNumber := Fmt.d (cSerialNumber cert);
     NotBefore := cNotBefore cert;
     NotAfter := cNotAfter cert;
     IsExpired := isExpired;
     DaysUntilExp := daysUntilExp;
     DNSNames := cDNSNames cert;
     IPAddresses := ipAddresses;
     KeyUsage := keyUsage;
     IsCA := cIsCA cert |}.

Section Parsers.

(** [pem.Decode]: the first block found and the rest of the input, or no
    block and the input. *)
Variable pemDecode : list byte -> option Block * list byte.
(** [x509.ParseCertificate] *)
Variable x509ParseCertificate : list byte -> result Certificate.
(** The reading of [time.Now()]. *)
Variable now : GoTime.Time.

Definition ParseCertificate (certPEM : string) : result CertificateInfo :=
  let certPEM := Strings.TrimSpace certPEM in
  match pemDecode (list_byte_of_string certPEM) with
  | (None, _) => Err "failed to decode PEM block"
  | (Some block, _) =>
      if negb (String.eqb (Type_ block) "CERTIFICATE") then
        Err (Fmt.cat ["not a certificate, found: "%string; Type_ block])
      else
        match x509ParseCertificate (Bytes block) with
        | Err e => Err (Fmt.cat ["failed to parse certificate: "%string; e])
        | Ok cert => Ok (certInfo now cert)
        end
  end.

(** The loop of [ParseCertificateBundle]; one unit of [fuel] per
    iteration, [None] when it is used up. *)
Fixpoint bundleLoop (fuel : nat) (remaining : string)
    (certificates : list CertificateInfo) : option (list CertificateInfo) :=
  match fuel with
  | O => None
  | S fuel' =>
      match pemDecode (list_byte_of_string remaining) with
      | (None, _) => Some certificates
      | (Some block, rest) =>
          if String.eqb (Type_ block) "CERTIFICATE" then
            match x509ParseCertificate (Bytes block) with
            | Err _ => bundleLoop fuel' (string_of_list_byte rest) certificates
            | Ok cert =>
                let certificates := certificates ++ [certInfo now cert] in
                let remaining := string_of_list_byte rest in
                if (String.length remaining =? 0)%nat then Some certificates
                else bundleLoop fuel' remaining certificates
            end
          else
            let remaining := string_of_list_byte rest in
            if (String.length remaining =? 0)%nat then Some certificates
            else bundleLoop fuel' remaining certificates
      end
  end.

Definition bundleResult (certificates : list CertificateInfo)
  : result (list CertificateInfo) :=
  if (List.length certificates =? 0)%nat
  then Err "no valid certificates found in bundle"
  else Ok certificates.

(** [None]: the loop did not end within [fuel] iterations. *)
Definition ParseCertificateBundleFuel (fuel : nat) (certBundle : string)
  : option (result (list CertificateInfo)) :=
  let certBundle := Strings.TrimSpace certBundle in
  match bundleLoop fuel certBundle [] with
  | None => None
  | Some certificates => Some (bundleResult certificates)
  end.

(** Each iteration that goes on shortens [remaining], so one more
    iteration than its length is enough. *)
Definition ParseCertificateBundle (certBundle : string)
  : option (result (list CertificateInfo)) :=
  ParseCertificateBundleFuel (S (String.length (Strings.TrimSpace certBundle))) certBundle.

End Parsers.

Definition expiryWarning (warningDays : Z) (cert : CertificateInfo) : list string :=
  if IsExpired cert then
    [Fmt.cat ["Certificate '"%string; Subject cert; "' has EXPIRED on "%string;
              GoTime.FormatDate (NotAfter cert)]]
  else if DaysUntilExp cert <=? warningDays then
    [Fmt.cat ["Certificate '"%string; Subject cert; "' expires in "%string;
              Fmt.d (DaysUntilExp cert); " days ("%string;
              GoTime.FormatDate (NotAfter cert); ")"%string]]
  else [].

Definition ValidateCertificateExpiry (certs : list CertificateInfo) (warningDays : Z)
  : list string :=
  fold_left (fun warnings cert => warnings ++ expiryWarning warningDays cert) certs [].

End Utils.

(** ** Package [internal/k8s]: certificates.go *)

Module K8s.
Import Utils.

Record CertificateSource := {
  Type' : string;
  Name : string;
  Namespace : string;
  Key : string;
  Certificates : list CertificateInfo;
  Error : string
}.

(** The cluster objects the functions read. *)
Record Secret := { secretData : gmap string (list byte) }.
Record ConfigMap := {
  Data : gmap string string;
  BinaryData : gmap string (list byte)
}.
(** A volume of a pod: the secret name and the config map name it
    refers to, when it does. *)
Record Volume := { volSecret : option string; volConfigMap : option string }.
Record Pod := { Volumes : list Volume }.

(** The three [Get] calls of the clientset, by namespace and name. *)
Record Clientset := {
  getPod : string -> string -> result Pod;
  getSecret : string -> string -> result Secret;
  getConfigMap : string -> string -> result ConfigMap
}.

Record KubeConfigEKSDetails := {
  ClusterName : string;
  ClusterEndpoint : string;
  ClusterCA : string;
  Region : string;
  RoleARN : string
}.

Record Client := {
  clientset : Clientset;
  eksDetails : KubeConfigEKSDetails
}.

Definition secretCertKeys : list string :=
  ["tls.crt"; "tls.cert"; "cert.pem"; "certificate.pem"; "ca.crt"; "ca.pem";
   "client.crt"; "server.crt"; "cert"; "certificate"; "ca-bundle.crt";
   "ca-bundle.pem"; "root-ca.pem"; "intermediate-ca.pem"]%string.

Definition configMapCertKeys : list string :=
  ["ca.crt"; "ca.pem"; "ca-bundle.crt"; "ca-bundle.pem"; "root-ca.pem";
   "intermediate-ca.pem"; "tls.crt"; "tls.cert"; "cert.pem"; "certificate.pem";
   "client.crt"; "server.crt"; "cert"; "certificate"]%string.

(** [cert.Subject = fmt.Sprintf("%s (from %s)", cert.Subject, key)] *)
Definition fromKey (key : string) (cert : CertificateInfo) : CertificateInfo :=
  setSubject (Fmt.cat [Subject cert; " (from "%string; key; ")"%string]) cert.

Definition clusterCASubject (cert : CertificateInfo) : CertificateInfo :=
  setSubject (Fmt.cat [Subject cert; " (Kubernetes Cluster CA)"%string]) cert.

(** What a secret holds under [key]: [string(secret.Data[key])]. *)
Definition secretLookup (secret : Secret) (key : string) : option string :=
  match secretData secret !! key with
  | Some certData => Some (string_of_list_byte certData)
  | None => None
  end.

(** What a config map holds under [key]: [Data] first, then
    [BinaryData]. *)
Definition configMapLookup (configMap : ConfigMap) (key : string) : option string :=
  match Data configMap !! key with
  | Some certData => Some certData
  | None =>
      match BinaryData configMap !! key with
      | Some certData => Some (string_of_list_byte certData)
      | None => None
      end
  end.

Section Discovery.

Variable pemDecode : list byte -> option Block * list byte.
Variable x509ParseCertificate : list byte -> result Certificate.
Variable now : GoTime.Time.

Local Abbreviation ParseCertificate := (Utils.ParseCertificate pemDecode x509ParseCertificate now).
Local Abbreviation ParseCertificateBundle :=
  (Utils.ParseCertificateBundle pemDecode x509ParseCertificate now).

(** The loop over the candidate keys, shared by secrets and config maps:
    a single certificate first, a bundle when that fails.  [None]: a
    bundle scan did not end. *)
Fixpoint keysLoop (lookup : string -> option string) (certKeys : list string)
    (allCerts : list CertificateInfo) : option (list CertificateInfo) :=
  match certKeys with
  | [] => Some allCerts
  | key :: certKeys' =>
      match lookup key with
      | None => keysLoop lookup certKeys' allCerts
      | Some certString =>
          match ParseCertificate certString with
          | Ok cert => keysLoop lookup certKeys' (allCerts ++ [fromKey key cert])
          | Err _ =>
              match ParseCertificateBundle certString with
              | None => None
              | Some (Ok certs) =>
                  keysLoop lookup certKeys'
                    (fold_left (fun acc cert => acc ++ [fromKey key cert]) certs allCerts)
              | Some (Err _) => keysLoop lookup certKeys' allCerts
              end
          end
      end
  end.

(** The source and the error of a Go result [(source, err)]. *)
Definition Extracted : Type := CertificateSource * option string.

Definition ExtractCertificatesFromSecret (cs : Clientset) (namespace secretName : string)
  : option Extracted :=
  match getSecret cs namespace secretName with
  | Err err =>
      Some ({| Type' := "secret"; Name := secretName; Namespace := namespace;
               Key := ""; Certificates := [];
               Error := Fmt.cat ["Failed to get secret: "%string; err] |}, Some err)
  | Ok secret =>
      match keysLoop (secretLookup secret) secretCertKeys [] with
      | None => None
      | Some allCerts =>
          Some ({| Type' := "secret"; Name := secretName; Namespace := namespace;
                   Key := ""; Certificates := allCerts; Error := "" |}, None)
      end
  end.

Definition ExtractCertificatesFromConfigMap (cs : Clientset)
    (namespace configMapName : string) : option Extracted :=
  match getConfigMap cs namespace configMapName with
  | Err err =>
      Some ({| Type' := "configmap"; Name := configMapName; Namespace := namespace;
               Key := ""; Certificates := [];
               Error := Fmt.cat ["Failed to get configmap: "%string; err] |}, Some err)
  | Ok configMap =>
      match keysLoop (configMapLookup configMap) configMapCertKeys [] with
      | None => None
      | Some allCerts =>
          Some ({| Type' := "configmap"; Name := configMapName; Namespace := namespace;
                   Key := ""; Certificates := allCerts; Error := "" |}, None)
      end
  end.

Definition clusterCASource (certs : list CertificateInfo) (err : string)
  : CertificateSource :=
  {| Type' := "cluster-ca"; Name := "kubernetes-cluster-ca"; Namespace := "";
     Key := ""; Certificates := certs; Error := err |}.

Definition GetClusterCACertificateInfo (clusterCA : string) : option Extracted :=
  if String.eqb clusterCA "" then
    Some (clusterCASource [] "No cluster CA certificate available",
          Some "no cluster CA certificate"%string)
  else
    match ParseCertificate clusterCA with
    | Ok cert => Some (clusterCASource [clusterCASubject cert] "", None)
    | Err _ =>
        match ParseCertificateBundle clusterCA with
        | None => None
        | Some (Ok certs) => Some (clusterCASource (map clusterCASubject certs) "", None)
        | Some (Err _) =>
            Some (clusterCASource [] "Failed to parse cluster CA certificate",
                  Some "failed to parse cluster CA certificate"%string)
        end
    end.

(** The body of the loop over the volumes of the pod. *)
Definition volumeStep (cs : Clientset) (namespace : string)
    (certSources : gmap string CertificateSource) (volume : Volume)
  : option (gmap string CertificateSource) :=
  match
    match volSecret volume with
    | None => Some certSources
    | Some secretName =>
        let key := Fmt.cat ["secret-"%string; secretName] in
        match ExtractCertificatesFromSecret cs namespace secretName with
        | None => None
        | Some (source, None) => Some (<[key := source]> certSources)
        | Some (_, Some err) =>
            Some (<[key := {| Type' := "secret"; Name := secretName;
                              Namespace := namespace; Key := ""; Certificates := [];
                              Error := err |}]> certSources)
        end
    end
  with
  | None => None
  | Some certSources =>
      match volConfigMap volume with
      | None => Some certSources
      | Some configMapName =>
          let key := Fmt.cat ["configmap-"%string; configMapName] in
          match ExtractCertificatesFromConfigMap cs namespace configMapName with
          | None => None
          | Some (source, None) => Some (<[key := source]> certSources)
          | Some (_, Some err) =>
              Some (<[key := {| Type' := "configmap"; Name := configMapName;
                                Namespace := namespace; Key := ""; Certificates := [];
                                Error := err |}]> certSources)
          end
      end
  end.

Fixpoint volumesLoop (cs : Clientset) (namespace : string) (volumes : list Volume)
    (certSources : gmap string CertificateSource)
  : option (gmap string CertificateSource) :=
  match volumes with
  | [] => Some certSources
  | volume :: volumes' =>
      match volumeStep cs namespace certSources volume with
      | None => None
      | Some certSources => volumesLoop cs namespace volumes' certSources
      end
  end.

Definition AnalyzePodCertificates (client : Client) (namespace podName : string)
  : option (result (gmap string CertificateSource)) :=
  let cs := clientset client in
  match getPod cs namespace podName with
  | Err err =>
      Some (Err (Fmt.cat ["failed to get pod "%string; podName; ": "%string; err]))
  | Ok pod =>
      let certSources : gmap string CertificateSource := ∅ in
      match GetClusterCACertificateInfo (ClusterCA (eksDetails client)) with
      | None => None
      | Some (clusterCAInfo, err) =>
          let certSources :=
            match err with
            | None => <["cluster-ca"%string := clusterCAInfo]> certSources
            | Some _ => certSources
            end in
          match volumesLoop cs namespace (Volumes pod) certSources with
          | None => None
          | Some certSources => Some (Ok certSources)
          end
      end
  end.

End Discovery.

End K8s.

(** ** Package [internal/handlers]: cluster_ca.go *)

Module Handlers.
Import Utils.

Definition formatDuration (d : GoTime.Duration) : string :=
  if d <? 0 then "Expired"%string
  else
    let days := Float64.to_int (Float64.div (GoTime.Hours d) (Float64.of_int 24)) in
    let hours := Z.rem (Float64.to_int (GoTime.Hours d)) 24 in
    if 365 <? days then
      let years := Z.quot days 365 in
      let remainingDays := Z.rem days 365 in
      if 0 <? remainingDays then
        Fmt.cat [Fmt.d years; " years, "%string; Fmt.d remainingDays; " days"%string]
      else Fmt.cat [Fmt.d years; " years"%string]
    else if 30 <? days then
      let months := Z.quot days 30 in
      let remainingDays := Z.rem days 30 in
      if 0 <? remainingDays then
        Fmt.cat [Fmt.d months; " months, "%string; Fmt.d remainingDays; " days"%string]
      else Fmt.cat [Fmt.d months; " months"%string]
    else if 0 <? days then
      if 0 <? hours then
        Fmt.cat [Fmt.d days; " days, "%string; Fmt.d hours; " hours"%string]
      else Fmt.cat [Fmt.d days; " days"%string]
    else Fmt.cat [Fmt.d hours; " hours"%string].

(** The first loop of [getExpiryStatusSummary]: the label it returns
    from inside the loop, if any. *)
Fixpoint firstAlert (certs : list CertificateInfo) (warningDays : Z) : option string :=
  match certs with
  | [] => None
  | cert :: certs' =>
      if IsExpired cert then Some "EXPIRED"%string
      else if DaysUntilExp cert <=? warningDays then
        Some (Fmt.cat ["EXPIRES SOON ("%string; Fmt.d (DaysUntilExp cert); " days)"%string])
      else firstAlert certs' warningDays
  end.

(** The second loop: the least [DaysUntilExp], starting from [minDays]. *)
Definition soonest (certs : list CertificateInfo) (minDays : Z) : Z :=
  fold_left (fun minDays cert =>
               if DaysUntilExp cert <? minDays then DaysUntilExp cert else minDays)
            certs minDays.

Definition getExpiryStatusSummary (certs : list CertificateInfo) (warningDays : Z)
  : string :=
  match certs with
  | [] => "No certificates found"%string
  | cert0 :: _ =>
      match firstAlert certs warningDays with
      | Some label => label
      | None =>
          let minDays := soonest certs (DaysUntilExp cert0) in
          Fmt.cat ["VALID ("%string; Fmt.d minDays; " days remaining)"%string]
      end
  end.

End Handlers.

(** ** [base64.RawURLEncoding] *)

Module Base64.

Definition encodeURL : string :=
  "ABCDEFGHIJKLMNOPQRSTUVWXYZabcdefghijklmnopqrstuvwxyz0123456789-_".

Definition byteVal (b : byte) : Z := Z.of_N (Byte.to_N b).

(** [byte(v)] *)
Definition toByte (v : Z) : byte :=
  match Byte.of_N (Z.to_N (Z.land v 255)) with
  | Some b => b
  | None => x00
  end.

(** [enc.encode[v & 0x3F]] *)
Definition enc (v : Z) : ascii :=
  match String.get (Z.to_nat (Z.land v 63)) encodeURL with
  | Some c => c
  | None => "A"%char
  end.

(** [EncodeToString] without padding: three bytes give four characters,
    a remainder of one or two bytes gives two or three. *)
Fixpoint EncodeToString (src : list byte) : string :=
  match src with
  | b0 :: b1 :: b2 :: rest =>
      let val := Z.lor (Z.lor (Z.shiftl (byteVal b0) 16) (Z.shiftl (byteVal b1) 8))
                       (byteVal b2) in
      String (enc (Z.shiftr val 18)) (String (enc (Z.shiftr val 12))
        (String (enc (Z.shiftr val 6)) (String (enc val) (EncodeToString rest))))
  | [b0; b1] =>
      let val := Z.lor (Z.shiftl (byteVal b0) 16) (Z.shiftl (byteVal b1) 8) in
      String (enc (Z.shiftr val 18)) (String (enc (Z.shiftr val 12))
        (String (enc (Z.shiftr val 6)) EmptyString))
  | [b0] =>
      let val := Z.shiftl (byteVal b0) 16 in
      String (enc (Z.shiftr val 18)) (String (enc (Z.shiftr val 12)) EmptyString)
  | [] => EmptyString
  end.

(** The value of a character of the alphabet: the decode map. *)
Fixpoint indexOf (c : ascii) (alphabet : string) (i : Z) : option Z :=
  match alphabet with
  | EmptyString => None
  | String a alphabet' => if Ascii.eqb a c then Some i else indexOf c alphabet' (i + 1)
  end.

Definition dec (c : ascii) : option Z := indexOf c encodeURL 0.

(** [DecodeString] without padding. *)
Fixpoint DecodeString (s : string) : option (list byte) :=
  match s with
  | String c0 (String c1 (String c2 (String c3 rest))) =>
      match dec c0, dec c1, dec c2, dec c3, DecodeString rest with
      | Some v0, Some v1, Some v2, Some v3, Some tail =>
          let val := Z.lor (Z.lor (Z.lor (Z.shiftl v0 18) (Z.shiftl v1 12))
                                  (Z.shiftl v2 6)) v3 in
          Some (toByte (Z.shiftr val 16) :: toByte (Z.shiftr val 8) :: toByte val :: tail)
      | _, _, _, _, _ => None
      end
  | String c0 (String c1 (String c2 EmptyString)) =>
      match dec c0, dec c1, dec c2 with
      | Some v0, Some v1, Some v2 =>
          let val := Z.lor (Z.lor (Z.shiftl v0 18) (Z.shiftl v1 12)) (Z.shiftl v2 6) in
          Some [toByte (Z.shiftr val 16); toByte (Z.shiftr val 8)]
      | _, _, _ => None
      end
  | String c0 (String c1 EmptyString) =>
      match dec c0, dec c1 with
      | Some v0, Some v1 =>
          let val := Z.lor (Z.shiftl v0 18) (Z.shiftl v1 12) in
          Some [toByte (Z.shiftr val 16)]
      | _, _ => None
      end
  | String _ EmptyString => None
  | EmptyString => Some []
  end.

End Base64.

(** ** Package [internal/auth]: aws.go *)

Module Auth.

(** The [AWS] part of the application configuration. *)
Record Config := {
  AccessKeyID : string;
  SecretAccessKey : string;
  Region : string
}.

(** A static credentials provider: access key, secret, session token. *)
Definition StaticCredentials : Type := string * string * string.

Section TokenGenerator.

(** [aws.Config] and the calls of the AWS SDK. *)
Variable awsConfig : Type.
(** [config.LoadDefaultConfig] with an optional static provider and the
    region. *)
Variable LoadDefaultConfig : option StaticCredentials -> string -> result awsConfig.
(** [awsCfg.Credentials = ...] *)
Variable withCredentials : awsConfig -> StaticCredentials -> awsConfig.
(** [sts.AssumeRole] with the role and the session name. *)
Variable AssumeRole : awsConfig -> string -> string -> result StaticCredentials.
(** [sts.GetCallerIdentity]; the identity is only logged. *)
Variable GetCallerIdentity : awsConfig -> result unit.
(** [PresignGetCallerIdentity]: the URL of the presigned request. *)
Variable PresignGetCallerIdentity : awsConfig -> result string.
(** [exec.Command("aws-iam-authenticator", args...).Output()] *)
Variable commandOutput : list string -> result (list byte).
(** [json.Unmarshal] into the exec credential, giving [Status.Token]. *)
Variable unmarshalToken : list byte -> result string.

Variable cfg : Config.

(** The URL with the cluster name added as a query parameter. *)
Definition withClusterID (urlStr clusterName : string) : string :=
  if negb (Strings.Contains urlStr "X-K8s-Aws-Id") then
    let separator := "&"%string in
    let separator := if negb (Strings.Contains urlStr "?") then "?"%string else separator in
    Fmt.cat [urlStr; separator; "X-K8s-Aws-Id="%string; clusterName]
  else urlStr.

Definition tokenPayload (urlStr : string) : string :=
  Fmt.cat ["k8s-aws-v1."%string; Base64.EncodeToString (list_byte_of_string urlStr)].

Definition GenerateToken (clusterName roleARNToAssume : string) : result string :=
  match
    if negb (String.eqb (AccessKeyID cfg) "") && negb (String.eqb (SecretAccessKey cfg) "")
    then LoadDefaultConfig (Some (AccessKeyID cfg, SecretAccessKey cfg, ""%string)) (Region cfg)
    else LoadDefaultConfig None (Region cfg)
  with
  | Err err => Err (Fmt.cat ["failed to load AWS config: "%string; err])
  | Ok awsCfg =>
      match
        if negb (String.eqb roleARNToAssume "") then
          match AssumeRole awsCfg roleARNToAssume "k8s-web-service-session" with
          | Err err =>
              Err (Fmt.cat ["failed to assume role "%string; roleARNToAssume;
                            ": "%string; err])
          | Ok creds => Ok (withCredentials awsCfg creds)
          end
        else Ok awsCfg
      with
      | Err msg => Err msg
      | Ok awsCfg =>
          match GetCallerIdentity awsCfg with
          | Err err => Err (Fmt.cat ["failed to get caller identity: "%string; err])
          | Ok _ =>
              match PresignGetCallerIdentity awsCfg with
              | Err err => Err (Fmt.cat ["failed to presign GetCallerIdentity: "%string; err])
              | Ok urlStr => Ok (tokenPayload (withClusterID urlStr clusterName))
              end
          end
      end
  end.

(** The environment handed to the helper is not modelled; its outcome is
    that of [commandOutput]. *)
Definition GenerateTokenUsingAuthenticator (clusterName roleARN : string) : result string :=
  let args := ["token"; "-i"; clusterName]%string in
  let args := if negb (String.eqb roleARN "") then args ++ ["-r"%string; roleARN] else args in
  match commandOutput args with
  | Err err => Err (Fmt.cat ["failed to execute aws-iam-authenticator: "%string; err])
  | Ok output =>
      match unmarshalToken output with
      | Err err => Err (Fmt.cat ["failed to parse aws-iam-authenticator output: "%string; err])
      | Ok token => Ok token
      end
  end.

End TokenGenerator.

End Auth.

(** ** Package [internal/k8s]: the client constructor *)

Module NewClient.

(** The calls [NewClient] makes on the token generator, in order. *)
Inductive Call :=
| CallAuthenticator (clusterName roleARN : string)
| CallGenerateToken (clusterName roleARN : string).

(** A computation that records the calls it makes. *)
Definition Traced (A : Type) : Type := list Call -> A * list Call.

Definition ret {A} (a : A) : Traced A := fun tr => (a, tr).
Definition bind {A B} (m : Traced A) (k : A -> Traced B) : Traced B :=
  fun tr => let '(a, tr') := m tr in k a tr'.
Definition call {A} (c : Call) (outcome : A) : Traced A := fun tr => (outcome, tr ++ [c]).

Notation "'do' x <- m ; k" := (bind m (fun x => k))
  (at level 10, x name, m at level 100, k at level 200).

(** [rest.Config] *)
Record RestConfig := { Host : string; BearerToken : string; CAData : list byte }.

Record Client (clientsetT : Type) := {
  clientset : clientsetT;
  config : RestConfig;
  eksDetails : K8s.KubeConfigEKSDetails
}.

Section Constructor.

Variable clientsetT : Type.
(** [parseKubeConfigForEKS(getKubeconfigPath())] *)
Variable kubeconfig : result K8s.KubeConfigEKSDetails.
(** The two methods of the token generator. *)
Variable GenerateTokenUsingAuthenticator : string -> string -> result string.
Variable GenerateToken : string -> string -> result string.
(** [kubernetes.NewForConfig] *)
Variable NewForConfig : RestConfig -> result clientsetT.

(** The token of [NewClient]: lines 52 to 61. *)
Definition generateEKSToken (eks : K8s.KubeConfigEKSDetails) : Traced (result string) :=
  do r <- call (CallAuthenticator (K8s.ClusterName eks) (K8s.RoleARN eks))
             (GenerateTokenUsingAuthenticator (K8s.ClusterName eks) (K8s.RoleARN eks)) ;
  match r with
  | Ok token => ret (Ok token)
  | Err _ =>
      do r <- call (CallGenerateToken (K8s.ClusterName eks) (K8s.RoleARN eks))
                 (GenerateToken (K8s.ClusterName eks) (K8s.RoleARN eks)) ;
      match r with
      | Ok token => ret (Ok token)
      | Err err => ret (Err (Fmt.cat ["failed to generate EKS token: "%string; err]))
      end
  end.

Definition NewClient : Traced (result (Client clientsetT)) :=
  match kubeconfig with
  | Err err =>
      ret (Err (Fmt.cat ["failed to parse kubeconfig for EKS details: "%string; err]))
  | Ok eks =>
      do r <- generateEKSToken eks ;
      match r with
      | Err msg => ret (Err msg)
      | Ok token =>
          let restConfig :=
            {| Host := K8s.ClusterEndpoint eks; BearerToken := token;
               CAData := list_byte_of_string (K8s.ClusterCA eks) |} in
          match NewForConfig restConfig with
          | Err err =>
              ret (Err (Fmt.cat ["failed to create Kubernetes clientset: "%string; err]))
          | Ok cs =>
              ret (Ok {| clientset := cs; config := restConfig; eksDetails := eks |})
          end
      end
  end.

End Constructor.

End NewClient.

(** * Reference definitions and sample inputs

    The definitions of this part follow the words of the specification,
    or give concrete inputs on which the embedding is run. *)

Module WarningsSpec.
Import Utils.

(** The warnings as the specification words them: per record, in list
    order, one string for an expired record, one for a record that is
    not expired and within [warningDays], none otherwise. *)
Fixpoint warningsFor (certs : list CertificateInfo) (warningDays : Z) : list string :=
  match certs with
  | [] => []
  | cert :: certs' =>
      if IsExpired cert then
        ("Certificate '" +:+ Subject cert +:+ "' has EXPIRED on "
           +:+ GoTime.FormatDate (NotAfter cert))
          :: warningsFor certs' warningDays
      else if DaysUntilExp cert <=? warningDays then
        ("Certificate '" +:+ Subject cert +:+ "' expires in "
           +:+ Fmt.d (DaysUntilExp cert) +:+ " days ("
           +:+ GoTime.FormatDate (NotAfter cert) +:+ ")")
          :: warningsFor certs' warningDays
      else warningsFor certs' warningDays
  end.

End WarningsSpec.

(** The status summary, worded as the code scans: the first record, in
    input order, that is expired or within [warningDays] decides. *)

Module SummarySpec.
Import Utils.

Definition alerting (warningDays : Z) (cert : CertificateInfo) : bool :=
  IsExpired cert || (DaysUntilExp cert <=? warningDays).

Definition minimumDays (cert : CertificateInfo) (certs : list CertificateInfo) : Z :=
  fold_right Z.min (DaysUntilExp cert) (map DaysUntilExp certs).

Definition StatusSummary (certs : list CertificateInfo) (warningDays : Z) : string :=
  match certs with
  | [] => "No certificates found"
  | cert0 :: certs' =>
      match find (alerting warningDays) certs with
      | Some cert =>
          if IsExpired cert then "EXPIRED"
          else "EXPIRES SOON (" +:+ Fmt.d (DaysUntilExp cert) +:+ " days)"
      | None => "VALID (" +:+ Fmt.d (minimumDays cert0 certs') +:+ " days remaining)"
      end
  end.

End SummarySpec.

Module Samples.
Import Utils.

(** A certificate that ends [secs] seconds after the Unix epoch. *)
Definition certEnding (subject : string) (secs : Z) : Certificate :=
  {| cSubject := subject; cIssuer := "CN=issuer"; cSerialNumber := 1;
     cNotBefore := 0; cNotAfter := secs * GoTime.Second;
     cDNSNames := []; cIPAddresses := []; cKeyUsage := 0; cIsCA := false |}.

(** The record a parser builds for it at clock reading 0. *)
Definition endingIn (subject : string) (secs : Z) : CertificateInfo :=
  certInfo 0 (certEnding subject secs).

(** One record that ends in ten days and one that ended five days ago. *)
Definition soonRecord : CertificateInfo := endingIn "CN=soon" (10 * 86400).
Definition expiredRecord : CertificateInfo := endingIn "CN=old" (-5 * 86400).

End Samples.

(** A small instance of the two library parsers, on which the embedding
    is run.  Blocks are framed as in PEM, by [-----BEGIN T-----] and
    [-----END T-----] lines; the payload is the text [subject@seconds],
    which stands for the base64 of a DER certificate with that subject
    and that end of validity. *)

Module SamplePem.
Import Utils Samples.

Fixpoint stripPrefix (p data : list byte) : option (list byte) :=
  match p, data with
  | [], _ => Some data
  | x :: p', y :: data' => if Byte.eqb x y then stripPrefix p' data' else None
  | _ :: _, [] => None
  end.

(** [bytes.Cut]: the parts before and after the first [sep]. *)
Fixpoint cut (sep data : list byte) : option (list byte * list byte) :=
  match stripPrefix sep data with
  | Some after => Some ([], after)
  | None =>
      match data with
      | [] => None
      | x :: data' =>
          match cut sep data' with
          | Some (before, after) => Some (x :: before, after)
          | None => None
          end
      end
  end.

Definition nl : string := String (ascii_of_nat 10) EmptyString.
Definition isNewline (b : byte) : bool := Byte.eqb b x0a.

Definition decode (data : list byte) : option Block * list byte :=
  match cut (list_byte_of_string "-----BEGIN ") data with
  | None => (None, data)
  | Some (_, afterBegin) =>
      match cut (list_byte_of_string ("-----" +:+ nl)) afterBegin with
      | None => (None, data)
      | Some (typ, body) =>
          match cut (list_byte_of_string "-----END " ++ typ ++ list_byte_of_string "-----")
                    body with
          | None => (None, data)
          | Some (payload, rest) =>
              (Some {| Type_ := string_of_list_byte typ;
                       Bytes := filter (fun b => negb (isNewline b)) payload |}, rest)
          end
      end
  end.

(** A decimal numeral. *)
Fixpoint digits (acc : Z) (l : list byte) : option Z :=
  match l with
  | [] => Some acc
  | b :: l' =>
      let v := Base64.byteVal b - 48 in
      if (0 <=? v) && (v <=? 9) then digits (10 * acc + v) l' else None
  end.

Definition parse (der : list byte) : result Certificate :=
  match cut (list_byte_of_string "@") der with
  | Some (subject, (d :: ds) as secs) =>
      match digits 0 secs with
      | Some n => Ok (certEnding (string_of_list_byte subject) n)
      | None => Err "x509: malformed certificate"
      end
  | _ => Err "x509: malformed certificate"
  end.

Definition block (typ payload : string) : string :=
  "-----BEGIN " +:+ typ +:+ "-----" +:+ nl +:+ payload +:+ nl
    +:+ "-----END " +:+ typ +:+ "-----" +:+ nl.

(** Three inputs: one certificate, a bundle of two, and a bundle of
    three whose middle block does not hold a certificate. *)
Definition oneCert : string := block "CERTIFICATE" "CN=a@864000".
Definition twoCerts : string :=
  block "CERTIFICATE" "CN=a@864000" +:+ block "CERTIFICATE" "CN=b@1728000".
Definition threeCertsMiddleCorrupt : string :=
  block "CERTIFICATE" "CN=a@864000" +:+ block "CERTIFICATE" "CN=b@17x8000"
    +:+ block "CERTIFICATE" "CN=c@2592000".

(** The clock reading of 2026-01-01 and the end of validity that
    stands for "no expiry", 9999-12-31 23:59:59, in seconds. *)
Definition year2026 : GoTime.Time := 1767225600 * GoTime.Second.
Definition noExpiry : string :=
  block "CERTIFICATE" "CN=forever@253402300799".
Definition days171 : string :=
  block "CERTIFICATE" "CN=short@14774400".

(** White space outside the ASCII range, in UTF-8: the no-break space
    U+00A0, the line separator U+2028 and the ideographic space U+3000;
    and the zero width space U+200B, which is no white space. *)
Definition noBreakSpace : string := Strings.stringOf [0xC2; 0xA0].
Definition lineSeparator : string := Strings.stringOf [0xE2; 0x80; 0xA8].
Definition ideographicSpace : string := Strings.stringOf [0xE3; 0x80; 0x80].
Definition zeroWidthSpace : string := Strings.stringOf [0xE2; 0x80; 0x8B].

End SamplePem.

(** The blocks of an input and the records they give. *)

Module BundleSpec.
Import Utils.

Section Blocks.

Variable pemDecode : list byte -> option Block * list byte.
Variable x509ParseCertificate : list byte -> result Certificate.
Variable now : GoTime.Time.

(** [Scan data blocks]: [blocks] are the blocks that [pem.Decode] finds
    one after the other, each call starting at the rest the call
    before returned, until it finds none. *)
Inductive Scan : list byte -> list Block -> Prop :=
| Scan_end data : fst (pemDecode data) = None -> Scan data []
| Scan_block data b rest blocks :
    pemDecode data = (Some b, rest) -> Scan rest blocks -> Scan data (b :: blocks).

(** The record of a block: one for a block of type CERTIFICATE that
    parses, none for any other block. *)
Definition recordOf (b : Block) : list CertificateInfo :=
  if String.eqb (Type_ b) "CERTIFICATE" then
    match x509ParseCertificate (Bytes b) with
    | Ok cert => [certInfo now cert]
    | Err _ => []
    end
  else [].

Definition goodRecords (blocks : list Block) : list CertificateInfo :=
  flat_map recordOf blocks.

End Blocks.

End BundleSpec.

Module SampleCluster.
Import K8s.

(** A cluster with one pod, [web], that mounts the secret [tls], and a
    config map [trust] that holds a certificate under [ca.crt] both as
    plain and, differently, as binary data. *)
Definition tlsSecret : Secret :=
  {| secretData := {[ "tls.crt" := list_byte_of_string SamplePem.oneCert ]} |}.

Definition trust (binary : gmap string (list byte)) : ConfigMap :=
  {| Data := {[ "ca.crt" := SamplePem.oneCert ]}; BinaryData := binary |}.

Definition cluster (binary : gmap string (list byte)) : Clientset :=
  {| getPod := fun _ name =>
       if String.eqb name "web"
       then Ok {| Volumes := [{| volSecret := Some "tls"; volConfigMap := None |}] |}
       else Err "pods not found";
     getSecret := fun _ name =>
       if String.eqb name "tls" then Ok tlsSecret else Err "secrets not found";
     getConfigMap := fun _ name =>
       if String.eqb name "trust" then Ok (trust binary) else Err "configmaps not found" |}.

Definition clientWithCA (ca : string) : Client :=
  {| clientset := cluster ∅;
     eksDetails := {| ClusterName := "demo"; ClusterEndpoint := "https://demo";
                      ClusterCA := ca; Region := "us-east-1"; RoleARN := "" |} |}.

End SampleCluster.

Module SampleAws.

Definition cfg : Auth.Config :=
  {| Auth.AccessKeyID := ""; Auth.SecretAccessKey := ""; Auth.Region := "us-east-1" |}.

(** [GenerateToken] with an SDK whose calls all succeed and whose
    presigned URL is [url]. *)
Definition generate (url clusterName roleARN : string) : result string :=
  Auth.GenerateToken unit
    (fun _ _ => Ok tt) (fun c _ => c)
    (fun _ _ _ => Ok ("ASIAEXAMPLE", "secret", "session"))
    (fun _ => Ok tt) (fun _ => Ok url) cfg clusterName roleARN.

Definition plainURL : string :=
  "https://sts.us-east-1.amazonaws.com/?Action=GetCallerIdentity&Version=2011-06-15".
Definition otherClusterURL : string :=
  "https://sts.us-east-1.amazonaws.com/?Action=GetCallerIdentity&X-K8s-Aws-Id=other".

(** What follows the prefix [k8s-aws-v1.] in a token. *)
Definition remainder (token : string) : string :=
  String.substring 11 (String.length token - 11) token.

End SampleAws.

(** The remaining-time text as the specification words it. *)

Module FormatSpec.

(** The text for a number of hours that is not negative. *)
Definition FormatHours (hours : Q) : string :=
  let days := Qfloor (hours / 24) in
  let hoursRemainder := Qfloor hours mod 24 in
  if 365 <? days then
    let years := days / 365 in
    let remDays := days mod 365 in
    Fmt.d years +:+ " years"
      +:+ (if remDays =? 0 then "" else ", " +:+ Fmt.d remDays +:+ " days")
  else if 30 <? days then
    let months := days / 30 in
    let remDays := days mod 30 in
    Fmt.d months +:+ " months"
      +:+ (if remDays =? 0 then "" else ", " +:+ Fmt.d remDays +:+ " days")
  else if 0 <? days then
    Fmt.d days +:+ " days"
      +:+ (if hoursRemainder =? 0 then "" else ", " +:+ Fmt.d hoursRemainder +:+ " hours")
  else Fmt.d hoursRemainder +:+ " hours".

(** The hours of a duration: its nanoseconds divided by those of an hour,
    as a rational number. *)
Definition hoursOf (d : GoTime.Duration) : Q := inject_Z d / inject_Z GoTime.Hour.

Definition FormatRemaining (d : GoTime.Duration) : string :=
  if d <? 0 then "Expired" else FormatHours (hoursOf d).

End FormatSpec.

(** Auxiliary notions of the proofs. *)

Module Float64Spec.
Import Float64.
Local Open Scope Q_scope.

(** [Exact53 h]: [h] is zero or [m * 2^e] with [0 < m <= 2^53] and
    [e <= 0], as a rounded value below [2^53] is. *)
Definition Exact53 (h : Q) : Prop :=
  h == 0 \/ exists m e, h == inject_Z m * pow2 e /\ (0 < m <= 2 ^ 53)%Z /\ (e <= 0)%Z.

End Float64Spec.

Module Base64Spec.
Import Base64.

(** The character of [i] decodes to [i]. *)
Definition alphabetOK (i : Z) : bool :=
  match dec (enc i) with Some j => j =? i | None => false end.

End Base64Spec.

(** The rational that a primitive binary64 value of the kernel denotes,
    to compare the rounding of [Float64] with the kernel's arithmetic. *)

Module Float64Check.

Definition ofPrim (f : PrimFloat.float) : option Q :=
  match FloatOps.Prim2SF f with
  | SpecFloat.S754_zero _ => Some 0%Q
  | SpecFloat.S754_finite s m e =>
      let x := (inject_Z (Zpos m) * Float64.pow2 e)%Q in
      Some (if s then Qopp x else x)
  | _ => None
  end.

Definition agrees (f : PrimFloat.float) (x : Q) : bool :=
  match ofPrim f with Some y => Qeq_bool y x | None => false end.

End Float64Check.


(** * The callers and the helpers around the parsers

    The rest of [certificates.go], the kubeconfig reader of the client,
    package [config], and the parts of the HTTP handlers that compute on
    the records.  A handler is embedded as the function from what it reads
    (query values, the request path, the clock, the cluster) to the
    response it encodes. *)

(** ** Package [strings], continued *)

Module GoStrings.

(** [strings.HasPrefix(s, prefix)] *)
Definition HasPrefix (s prefix : string) : bool := String.prefix prefix s.

(** [strings.Split(s, sep)] for a separator of one byte, which is how the
    program calls it: the pieces between the separators, [s] itself when
    there is none. *)
Fixpoint Split (s : string) (sep : ascii) : list string :=
  match s with
  | EmptyString => [EmptyString]
  | String c s' =>
      if Ascii.eqb c sep then EmptyString :: Split s' sep
      else
        match Split s' sep with
        | part :: parts => String c part :: parts
        | [] => [String c EmptyString]
        end
  end.

Fixpoint trimLeft (s : string) (cutset : ascii) : string :=
  match s with
  | String c s' => if Ascii.eqb c cutset then trimLeft s' cutset else s
  | EmptyString => EmptyString
  end.

Fixpoint trimRight (s : string) (cutset : ascii) : string :=
  match s with
  | EmptyString => EmptyString
  | String c s' =>
      match trimRight s' cutset with
      | EmptyString => if Ascii.eqb c cutset then EmptyString else String c EmptyString
      | t => String c t
      end
  end.

(** [strings.Trim(s, cutset)] for a cutset of one byte. *)
Definition Trim (s : string) (cutset : ascii) : string :=
  trimRight (trimLeft s cutset) cutset.

End GoStrings.

(** ** Package [internal/k8s]: the warnings of [certificates.go] *)

Module K8sWarnings.
Import Utils K8s.

(** [fmt.Sprintf("[%s] %s", sourceName, warning)] *)
Definition tagged (sourceName warning : string) : string :=
  Fmt.cat ["["%string; sourceName; "] "%string; warning].

(** [GetCertificateExpiryWarnings].  A Go map is ranged over in an order
    that the language leaves open: [certSources] is the sequence of the
    entries of the map as the loop meets them. *)
Definition GetCertificateExpiryWarnings
    (certSources : list (string * CertificateSource)) (warningDays : Z) : list string :=
  fold_left
    (fun allWarnings entry =>
       let '(sourceName, source) := entry in
       if (0 <? List.length (Certificates source))%nat then
         let warnings := ValidateCertificateExpiry (Certificates source) warningDays in
         fold_left (fun allWarnings warning => allWarnings ++ [tagged sourceName warning])
                   warnings allWarnings
       else allWarnings)
    certSources [].

End K8sWarnings.

(** ** Package [internal/k8s]: the kubeconfig reader of the client *)

Module Kubeconfig.
Import K8s.

(** The parts of [clientcmd]'s [api.Config] that the program reads.  The
    maps hold no nil entry. *)
Record Context := { ctxCluster : string; ctxAuthInfo : string }.
Record Cluster := {
  Server : string;
  CertificateAuthority : string;
  (** [None] is the nil slice. *)
  CertificateAuthorityData : option (list byte)
}.
Record ExecConfig := { Args : list string }.
Record AuthInfo := { Exec : option ExecConfig }.
Record Config := {
  CurrentContext : string;
  Contexts : gmap string Context;
  Clusters : gmap string Cluster;
  AuthInfos : gmap string AuthInfo
}.

(** The loop over the pieces of the server address: the piece after the
    first piece "eks" that has one. *)
Fixpoint regionLoop (parts : list string) : string :=
  match parts with
  | [] => EmptyString
  | part :: rest =>
      match rest with
      | next :: _ => if String.eqb part "eks" then next else regionLoop rest
      | [] => EmptyString
      end
  end.

(** The loop over the arguments of the exec plugin: the argument after
    the first "--role-arn" or "-r" that has one. *)
Fixpoint roleLoop (args : list string) : string :=
  match args with
  | [] => EmptyString
  | arg :: rest =>
      match rest with
      | next :: _ =>
          if String.eqb arg "--role-arn" || String.eqb arg "-r" then next else roleLoop rest
      | [] => EmptyString
      end
  end.

Section Files.

(** [clientcmd.LoadFromFile] *)
Variable LoadFromFile : string -> result Config.
(** [os.ReadFile] *)
Variable ReadFile : string -> result (list byte).
(** [os.Getenv], [os.UserHomeDir] and [filepath.Join] *)
Variable Getenv : string -> string.
Variable UserHomeDir : result string.
Variable filepathJoin : list string -> string.

Definition getKubeconfigPath : string :=
  let kubeconfig := Getenv "KUBECONFIG" in
  if negb (String.eqb kubeconfig "") then kubeconfig
  else
    match UserHomeDir with
    | Err _ => EmptyString
    | Ok homeDir => filepathJoin [homeDir; ".kube"%string; "config"%string]
    end.

Definition GetKubeconfigPath : string := getKubeconfigPath.

Definition parseKubeConfigForEKS (kubeconfigPath : string) : result KubeConfigEKSDetails :=
  if String.eqb kubeconfigPath "" then Err "kubeconfig path is empty"
  else
    match LoadFromFile kubeconfigPath with
    | Err err =>
        Err (Fmt.cat ["failed to load kubeconfig from "%string; kubeconfigPath;
                      ": "%string; err])
    | Ok config =>
        let currentContext := CurrentContext config in
        if String.eqb currentContext "" then Err "no current context set in kubeconfig"
        else
          match Contexts config !! currentContext with
          | None =>
              Err (Fmt.cat ["current context "%string; currentContext;
                            " not found in kubeconfig"%string])
          | Some context =>
              match Clusters config !! ctxCluster context with
              | None =>
                  Err (Fmt.cat ["cluster "%string; ctxCluster context;
                                " not found in kubeconfig"%string])
              | Some cluster =>
                  match
                    match CertificateAuthorityData cluster with
                    | Some data => Ok (string_of_list_byte data)
                    | None =>
                        if negb (String.eqb (CertificateAuthority cluster) "") then
                          match ReadFile (CertificateAuthority cluster) with
                          | Err err =>
                              Err (Fmt.cat ["failed to read CA file "%string;
                                            CertificateAuthority cluster; ": "%string; err])
                          | Ok caData => Ok (string_of_list_byte caData)
                          end
                        else Ok EmptyString
                    end
                  with
                  | Err msg => Err msg
                  | Ok clusterCA =>
                      let clusterName := ctxCluster context in
                      let clusterName :=
                        if Strings.Contains (Server cluster) ".eks." then ctxCluster context
                        else clusterName in
                      let region :=
                        if Strings.Contains (Server cluster) ".eks." then
                          regionLoop (GoStrings.Split (Server cluster) ".")
                        else EmptyString in
                      let roleARN :=
                        match AuthInfos config !! ctxAuthInfo context with
                        | Some user =>
                            match Exec user with
                            | Some exec => roleLoop (Args exec)
                            | None => EmptyString
                            end
                        | None => EmptyString
                        end in
                      Ok {| ClusterName := clusterName;
                            ClusterEndpoint := Server cluster;
                            ClusterCA := clusterCA;
                            Region := region;
                            RoleARN := roleARN |}
                  end
              end
          end
    end.

Definition GetClusterCA (kubeconfigPath : string) : result string :=
  match parseKubeConfigForEKS kubeconfigPath with
  | Err err => Err err
  | Ok eksDetails => Ok (ClusterCA eksDetails)
  end.

End Files.

End Kubeconfig.

(** ** Package [internal/config] *)

Module AppConfig.

Record KubernetesConfig := {
  ClusterName : string;
  ClusterEndpoint : string;
  DefaultNamespace : string
}.

Record ServerConfig := { Port : string; Host : string }.

Record Config := {
  AWS : Auth.Config;
  Kubernetes : KubernetesConfig;
  Server : ServerConfig
}.

(** [&Config{}] *)
Definition zero : Config :=
  {| AWS := {| Auth.AccessKeyID := ""; Auth.SecretAccessKey := ""; Auth.Region := "" |};
     Kubernetes := {| ClusterName := ""; ClusterEndpoint := ""; DefaultNamespace := "" |};
     Server := {| Port := ""; Host := "" |} |}.

(** What [Load] finds at the path: [os.Stat] fails, or it succeeds and
    [os.Open] fails, or the decoder fails, or the file decodes. *)
Inductive ConfigFile :=
| StatFails
| OpenFails (err : string)
| DecodeFails (err : string)
| Decoded (config : Config).

(** [if v := os.Getenv(name); v != "" { field = v }] *)
Definition override (Getenv : string -> string) (name field : string) : string :=
  if negb (String.eqb (Getenv name) "") then Getenv name else field.

Definition Load (file : ConfigFile) (Getenv : string -> string) : result Config :=
  match
    match file with
    | StatFails => Ok zero
    | OpenFails err => Err (Fmt.cat ["failed to open config file: "%string; err])
    | DecodeFails err => Err (Fmt.cat ["failed to decode config file: "%string; err])
    | Decoded config => Ok config
    end
  with
  | Err msg => Err msg
  | Ok config =>
      Ok {| AWS :=
              {| Auth.AccessKeyID :=
                   override Getenv "AWS_ACCESS_KEY_ID" (Auth.AccessKeyID (AWS config));
                 Auth.SecretAccessKey :=
                   override Getenv "AWS_SECRET_ACCESS_KEY" (Auth.SecretAccessKey (AWS config));
                 Auth.Region := override Getenv "AWS_REGION" (Auth.Region (AWS config)) |};
            Kubernetes :=
              {| ClusterName :=
                   override Getenv "K8S_CLUSTER_NAME" (ClusterName (Kubernetes config));
                 ClusterEndpoint :=
                   override Getenv "K8S_CLUSTER_ENDPOINT" (ClusterEndpoint (Kubernetes config));
                 DefaultNamespace :=
                   override Getenv "K8S_DEFAULT_NAMESPACE"
                            (DefaultNamespace (Kubernetes config)) |};
            Server :=
              {| Port := override Getenv "SERVER_PORT" (Port (Server config));
                 Host := Host (Server config) |} |}
  end.

(** [ValidateAWSConfig]: [None] is the nil error.  The log lines are not
    modelled. *)
Definition ValidateAWSConfig (c : Config) : option string :=
  if String.eqb (Auth.AccessKeyID (AWS c)) "" && String.eqb (Auth.SecretAccessKey (AWS c)) ""
  then None
  else if String.eqb (Auth.AccessKeyID (AWS c)) "" then
    Some "AWS Access Key ID is required when using static credentials"%string
  else if String.eqb (Auth.SecretAccessKey (AWS c)) "" then
    Some "AWS Secret Access Key is required when using static credentials"%string
  else None.

(** The defaults that [main] sets after [Load]. *)
Definition mainDefaults (cfg : Config) : Config :=
  {| AWS := AWS cfg;
     Kubernetes :=
       {| ClusterName := ClusterName (Kubernetes cfg);
          ClusterEndpoint := ClusterEndpoint (Kubernetes cfg);
          DefaultNamespace :=
            if String.eqb (DefaultNamespace (Kubernetes cfg)) "" then "default"%string
            else DefaultNamespace (Kubernetes cfg) |};
     Server :=
       {| Port := if String.eqb (Port (Server cfg)) "" then "8080"%string
                  else Port (Server cfg);
          Host := if String.eqb (Host (Server cfg)) "" then "localhost"%string
                  else Host (Server cfg) |} |}.

End AppConfig.

(** ** Package [internal/handlers]: what the handlers compute *)

Module HandlerCore.
Import Utils K8s.

(** [isCertificateMount] of debug.go *)
Definition certPaths : list string :=
  ["/var/run/secrets/kubernetes.io/serviceaccount"; "/etc/ssl"; "/etc/certs"; "/etc/pki";
   "/usr/share/ca-certificates"; "/etc/ca-certificates"]%string.

Definition certExtensions : list string :=
  [".crt"; ".pem"; ".key"; ".p12"; ".jks"; ".truststore"]%string.

Definition isCertificateMount (mountPath : string) : bool :=
  if existsb (fun certPath => GoStrings.HasPrefix mountPath certPath) certPaths then true
  else if existsb (fun ext => Strings.Contains mountPath ext) certExtensions then true
  else false.

(** [getTotalCertificateCount], on the entries of the map in the order
    the loop meets them. *)
Definition getTotalCertificateCount (certSources : list (string * CertificateSource)) : Z :=
  fold_left (fun total entry => total + Z.of_nat (List.length (Certificates (snd entry))))
            certSources 0.

(** The pod name of [HandlePodCertificateDetails], from [r.URL.Path];
    the error is the body of the response with status 400. *)
Definition podNameOfPath (path : string) : result string :=
  let pathParts := GoStrings.Split (GoStrings.Trim path "/") "/" in
  if (List.length pathParts <? 3)%nat || String.eqb (nth 2 pathParts EmptyString) "" then
    Err "Pod name is required in URL path: /pod-certificates/{pod-name}"
  else Ok (nth 2 pathParts EmptyString).

Section Requests.

(** [strconv.Atoi] *)
Variable Atoi : string -> result Z.

(** The threshold that the handlers read from the query value
    [warning_days]. *)
Definition warningDaysOf (warningDaysStr : string) : Z :=
  let warningDays := 30 in
  if negb (String.eqb warningDaysStr "") then
    match Atoi warningDaysStr with
    | Ok days => if 0 <? days then days else warningDays
    | Err _ => warningDays
    end
  else warningDays.

Variable pemDecode : list byte -> option Block * list byte.
Variable x509ParseCertificate : list byte -> result Certificate.

(** The numbers and the text that [HandleClusterCACertificateExpiry]
    derives from the first certificate; the fields it copies from the
    record, and the dates it formats, are left in [certificate]. *)
Record EnhancedInfo := {
  certificate : CertificateInfo;
  valid_for_days : Z;
  days_until_expiry : Z;
  weeks_until_expiry : Z;
  months_until_expiry : Z;
  years_until_expiry : Z;
  time_remaining : string
}.

Record Summary := {
  certificates_analyzed : Z;
  warnings_found : Z;
  expires_within_days : Z;
  status_summary : string
}.

(** The response: status 500 with an error text, or status 200. *)
Inductive Response :=
| InternalServerError (error : string)
| Success (warning_days : Z) (source : CertificateSource) (warnings : list string)
    (enhanced_info : option EnhancedInfo) (summary : Summary).

(** [int(d.Hours() / n)] for a constant [n] *)
Definition hoursOver (d : GoTime.Duration) (n : Z) : Z :=
  Float64.to_int (Float64.div (GoTime.Hours d) (Float64.of_int n)).

(** [kubeconfigPath] is what [GetKubeconfigPath] returns; [parsedAt] is
    the clock reading inside the parser and [now] the later one of the
    handler.  [None]: a bundle scan did not end. *)
Definition HandleClusterCACertificateExpiry
    (warningDaysStr kubeconfigPath : string) (GetClusterCA : string -> result string)
    (parsedAt now : GoTime.Time) : option Response :=
  let warningDays := warningDaysOf warningDaysStr in
  if String.eqb kubeconfigPath "" then
    Some (InternalServerError "Could not determine kubeconfig path")
  else
    match GetClusterCA kubeconfigPath with
    | Err err =>
        Some (InternalServerError (Fmt.cat ["Failed to get cluster CA: "%string; err]))
    | Ok clusterCA =>
        match GetClusterCACertificateInfo pemDecode x509ParseCertificate parsedAt clusterCA with
        | None => None
        | Some (_, Some err) =>
            Some (InternalServerError
                    (Fmt.cat ["Failed to parse cluster CA certificate: "%string; err]))
        | Some (certSource, None) =>
            let certSources := [("cluster-ca"%string, certSource)] in
            let warnings := K8sWarnings.GetCertificateExpiryWarnings certSources warningDays in
            let enhancedCertInfo :=
              match Certificates certSource with
              | [] => None
              | cert :: _ =>
                  let timeUntilExpiry := GoTime.Sub (NotAfter cert) now in
                  let years := hoursOver timeUntilExpiry (24 * 365) in
                  let months := hoursOver timeUntilExpiry (24 * 30) in
                  let weeks := hoursOver timeUntilExpiry (24 * 7) in
                  Some {| certificate := cert;
                          valid_for_days :=
                            hoursOver (GoTime.Sub (NotAfter cert) (NotBefore cert)) 24;
                          days_until_expiry := DaysUntilExp cert;
                          weeks_until_expiry := weeks;
                          months_until_expiry := months;
                          years_until_expiry := years;
                          time_remaining := Handlers.formatDuration timeUntilExpiry |}
              end in
            Some (Success warningDays certSource warnings enhancedCertInfo
                    {| certificates_analyzed := Z.of_nat (List.length (Certificates certSource));
                       warnings_found := Z.of_nat (List.length warnings);
                       expires_within_days := warningDays;
                       status_summary :=
                         Handlers.getExpiryStatusSummary (Certificates certSource)
                                                         warningDays |})
        end
    end.

End Requests.

End HandlerCore.

(** ** Reference definitions for the properties of this part *)

Module UsageSpec.

(** The labels of the key usages, by the bit of the mask that stands for
    each. *)
Definition labelsByBit : list (Z * string) :=
  [(0, "Digital Signature"); (2, "Key Encipherment"); (3, "Data Encipherment");
   (4, "Key Agreement"); (5, "Certificate Sign"); (6, "CRL Sign")]%string.

Definition labelsOf (ku : Z) : list string :=
  map snd (List.filter (fun entry => Z.testbit ku (fst entry)) labelsByBit).

End UsageSpec.

(** What an entry of the map of [AnalyzePodCertificates] says about the
    object it was read from. *)

Module DiscoverySpec.
Import Utils K8s.

Section Entries.

Variable pemDecode : list byte -> option Block * list byte.
Variable x509ParseCertificate : list byte -> result Certificate.
Variable now : GoTime.Time.
Variable cs : Clientset.
Variable namespace : string.

(** The entry of the secret [secretName]: the error of the fetch and no
    certificate, or no error and the certificates under the candidate
    keys. *)
Definition secretEntry (secretName : string) (source : CertificateSource) : Prop :=
  Type' source = "secret"%string /\ Name source = secretName /\
  Namespace source = namespace /\
  match getSecret cs namespace secretName with
  | Err err => Error source = err /\ Certificates source = []
  | Ok secret =>
      Error source = EmptyString /\
      keysLoop pemDecode x509ParseCertificate now (secretLookup secret) secretCertKeys []
      = Some (Certificates source)
  end.

Definition configMapEntry (configMapName : string) (source : CertificateSource) : Prop :=
  Type' source = "configmap"%string /\ Name source = configMapName /\
  Namespace source = namespace /\
  match getConfigMap cs namespace configMapName with
  | Err err => Error source = err /\ Certificates source = []
  | Ok configMap =>
      Error source = EmptyString /\
      keysLoop pemDecode x509ParseCertificate now (configMapLookup configMap)
               configMapCertKeys []
      = Some (Certificates source)
  end.

End Entries.

End DiscoverySpec.

(** ** Sample inputs for the properties of this part *)

Module SampleKubeconfig.
Import Kubeconfig.

(** An address as EKS gives them to its clusters. *)
Definition server : string := "https://0123ABCD.gr7.us-east-1.eks.amazonaws.com".

Definition roleArgs : list string :=
  ["token"; "-i"; "demo-cluster"; "--role-arn"; "arn:aws:iam::1:role/demo"]%string.

Definition config (data : option (list byte)) : Config :=
  {| CurrentContext := "demo";
     Contexts := {[ "demo"%string := {| ctxCluster := "demo-cluster";
                                        ctxAuthInfo := "demo-user" |} ]};
     Clusters := {[ "demo-cluster"%string :=
                      {| Server := server; CertificateAuthority := "/etc/ca.pem";
                         CertificateAuthorityData := data |} ]};
     AuthInfos := {[ "demo-user"%string := {| Exec := Some {| Args := roleArgs |} |} ]} |}.

Definition path : string := "/home/demo/.kube/config".

Definition load (data : option (list byte)) (kubeconfigPath : string) : result Config :=
  if String.eqb kubeconfigPath path then Ok (config data) else Err "no such file".

Definition unreadable (name : string) : result (list byte) := Err "no such file".
Definition readable (name : string) : result (list byte) :=
  Ok (list_byte_of_string "from the file").

End SampleKubeconfig.

Module SampleSources.
Import Utils K8s.

(** A source whose certificate ends in ten days and one whose
    certificate has ended, as entries of a map of sources. *)
Definition soon : string * CertificateSource :=
  ("secret-soon"%string,
   {| Type' := "secret"; Name := "soon"; Namespace := "default"; Key := "";
      Certificates := [Samples.soonRecord]; Error := "" |}).

Definition expired : string * CertificateSource :=
  ("secret-old"%string,
   {| Type' := "secret"; Name := "old"; Namespace := "default"; Key := "";
      Certificates := [Samples.expiredRecord]; Error := "" |}).

(** The sample cluster, with a secret [tls] that also holds a key that is
    no candidate. *)
Definition tlsSecretWithNotes : Secret :=
  {| secretData := <["notes.txt"%string := list_byte_of_string "not a certificate"]>
                     (secretData SampleCluster.tlsSecret) |}.

Definition clusterWithNotes : Clientset :=
  {| getPod := getPod (SampleCluster.cluster ∅);
     getSecret := fun _ name =>
       if String.eqb name "tls" then Ok tlsSecretWithNotes else Err "secrets not found";
     getConfigMap := getConfigMap (SampleCluster.cluster ∅) |}.

(** A secret that holds a chain of two certificates under one key. *)
Definition chainSecret : Secret :=
  {| secretData := {[ "tls.crt"%string := list_byte_of_string SamplePem.twoCerts ]} |}.

Definition chainCluster : Clientset :=
  {| getPod := fun _ _ => Err "pods not found";
     getSecret := fun _ _ => Ok chainSecret;
     getConfigMap := fun _ _ => Err "configmaps not found" |}.

(** A cluster whose pod [job] mounts a secret without certificates and a
    config map that cannot be fetched, and a client of it without a trust
    anchor. *)
Definition jobVolume : Volume :=
  {| volSecret := Some "settings"%string; volConfigMap := Some "gone"%string |}.

Definition job : Pod := {| Volumes := [jobVolume] |}.

Definition jobCluster : Clientset :=
  {| getPod := fun _ name => if String.eqb name "job" then Ok job else Err "pods not found";
     getSecret := fun _ _ =>
       Ok {| secretData := {[ "notes.txt"%string := list_byte_of_string "none" ]} |};
     getConfigMap := fun _ _ => Err "configmaps not found" |}.

Definition jobClient : Client :=
  {| clientset := jobCluster;
     eksDetails := {| ClusterName := "demo"; ClusterEndpoint := "https://demo";
                      ClusterCA := ""; Region := "us-east-1"; RoleARN := "" |} |}.

End SampleSources.

Module SampleRequests.

(** A reading of decimal numerals without a sign, for the query values
    of the samples. *)
Definition atoi (s : string) : result Z :=
  match SamplePem.digits 0 (list_byte_of_string s) with
  | Some n => if String.eqb s "" then Err "invalid syntax" else Ok n
  | None => Err "invalid syntax"
  end.

(** The token strategies and the clientset constructor of a run in which
    the helper is missing. *)
Definition helper (clusterName roleARN : string) : result string := Err "executable not found".
Definition fallback (clusterName roleARN : string) : result string := Ok "k8s-aws-v1.c2FtcGxl"%string.
Definition newForConfig (config : NewClient.RestConfig) : result unit := Ok tt.

(** An environment that names the sample kubeconfig, and an empty one. *)
Definition environment (name : string) : string :=
  if String.eqb name "KUBECONFIG" then SampleKubeconfig.path else EmptyString.
Definition noEnvironment (name : string) : string := EmptyString.
Definition join (elems : list string) : string := Fmt.cat elems.

End SampleRequests.

(** Runs in which the helper is installed: it prints an exec credential,
    the empty JSON object, or a text that is no JSON. *)
Module SampleHelper.

Definition quote : string := String (ascii_of_nat 34) EmptyString.
Definition backslash : string := String (ascii_of_nat 92) EmptyString.
Definition opening : string :=
  Fmt.cat ["{"%string; quote; "status"%string; quote; ":{"%string; quote; "token"%string;
           quote; ":"%string; quote].

(** An exec credential reduced to its status. *)
Definition credential (token : string) : string := Fmt.cat [opening; token; quote; "}}"%string].

(** [json.Unmarshal] into the exec credential, on the outputs of these
    runs: the token of a credential; the empty object, which is valid
    JSON that sets no field and so leaves [Status.Token] empty; any other
    output stands for malformed JSON. *)
Definition unmarshal (output : list byte) : result string :=
  let s := string_of_list_byte output in
  if String.eqb s "{}" then Ok EmptyString
  else
    let n := (String.length s - String.length (credential EmptyString))%nat in
    let token := String.substring (String.length opening) n s in
    if String.eqb s (credential token) && negb (Strings.Contains token quote)
       && negb (Strings.Contains token backslash)
    then Ok token
    else Err "invalid character"%string.

Definition printsCredential (args : list string) : result (list byte) :=
  Ok (list_byte_of_string (credential "k8s-aws-v1.aGVscGVy")).
Definition printsEmptyObject (args : list string) : result (list byte) :=
  Ok (list_byte_of_string "{}").
Definition printsText (args : list string) : result (list byte) :=
  Ok (list_byte_of_string "usage: aws-iam-authenticator").

Definition eks : K8s.KubeConfigEKSDetails :=
  {| K8s.ClusterName := "demo-cluster"; K8s.ClusterEndpoint := SampleKubeconfig.server;
     K8s.ClusterCA := ""; K8s.Region := "us-east-1"; K8s.RoleARN := "" |}.

End SampleHelper.
(** * Properties *)

(** ** Strings *)

#[local] Arguments String.append !s1 s2 : simpl nomatch.

Lemma append_nil_r (s : string) : String.append s EmptyString = s.
Proof. induction s as [|c s IH]; simpl; congruence. Qed.

Lemma append_assoc (a b c : string) :
  String.append (String.append a b) c = String.append a (String.append b c).
Proof. induction a as [|x a IH]; simpl; congruence. Qed.

Lemma fold_left_app_acc {A B} (f : B -> list A) (l : list B) (acc : list A) :
  fold_left (fun acc x => acc ++ f x) l acc = acc ++ flat_map f l.
Proof.
  revert acc. induction l as [|x l IH]; intros acc; simpl.
  - now rewrite app_nil_r.
  - rewrite IH. now rewrite <- app_assoc.
Qed.

(** ** Expiry warnings *)

Module WarningsFacts.
Import Utils WarningsSpec Samples.

Lemma warningsFor_flat_map certs warningDays :
  warningsFor certs warningDays = flat_map (expiryWarning warningDays) certs.
Proof.
  induction certs as [|cert certs IH]; [reflexivity |].
  cbn [warningsFor flat_map]. unfold expiryWarning at 1.
  destruct (IsExpired cert); [| destruct (DaysUntilExp cert <=? warningDays)];
    cbn [app Fmt.cat]; rewrite ?append_nil_r, IH; reflexivity.
Qed.

(** C7.  [ValidateCertificateExpiry] returns, in list order, one
    "has EXPIRED on" string for every expired record, one "expires in N
    days" string for every record that is not expired and has
    [DaysUntilExp <= warningDays], and nothing for any other record. *)
Theorem ValidateCertificateExpiry_warningsFor (certs : list CertificateInfo) (warningDays : Z) :
  ValidateCertificateExpiry certs warningDays = warningsFor certs warningDays.
Proof.
  unfold ValidateCertificateExpiry.
  rewrite fold_left_app_acc. simpl.
  symmetry. apply warningsFor_flat_map.
Qed.

Example warning_expired :
  DaysUntilExp (endingIn "CN=a" (-5 * 86400)) = -5 /\
  ValidateCertificateExpiry [endingIn "CN=a" (-5 * 86400)] 30
  = ["Certificate 'CN=a' has EXPIRED on 1969-12-27"%string].
Proof. split; vm_compute; reflexivity. Qed.

Example warning_soon :
  DaysUntilExp (endingIn "CN=b" (10 * 86400)) = 10 /\
  ValidateCertificateExpiry [endingIn "CN=b" (10 * 86400)] 30
  = ["Certificate 'CN=b' expires in 10 days (1970-01-11)"%string].
Proof. split; vm_compute; reflexivity. Qed.

Example warning_none :
  DaysUntilExp (endingIn "CN=c" (40 * 86400)) = 40 /\
  ValidateCertificateExpiry [endingIn "CN=c" (40 * 86400)] 30 = [].
Proof. split; vm_compute; reflexivity. Qed.

End WarningsFacts.

(** ** Status summary *)

Module SummaryFacts.
Import Utils Handlers Samples SummarySpec.

Lemma summary_empty warningDays :
  getExpiryStatusSummary [] warningDays = "No certificates found".
Proof. reflexivity. Qed.

(** The first loop returns at the first record, in list order, that is
    expired or within [warningDays]: what it returns is decided by that
    record alone. *)
Lemma firstAlert_first (before rest : list CertificateInfo) warningDays :
  Forall (fun c => IsExpired c = false /\ warningDays < DaysUntilExp c) before ->
  firstAlert (before ++ rest) warningDays = firstAlert rest warningDays.
Proof.
  induction 1 as [|c before [Hexp Hdays] _ IH]; simpl; [reflexivity |].
  rewrite Hexp. destruct (Z.leb_spec (DaysUntilExp c) warningDays); [lia | exact IH].
Qed.

Lemma firstAlert_none certs warningDays :
  Forall (fun c => IsExpired c = false /\ warningDays < DaysUntilExp c) certs ->
  firstAlert certs warningDays = None.
Proof.
  induction 1 as [|c certs [Hexp Hdays] _ IH]; simpl; [reflexivity |].
  rewrite Hexp. destruct (Z.leb_spec (DaysUntilExp c) warningDays); [lia | exact IH].
Qed.

(** The second loop computes the minimum. *)
Lemma soonest_min certs m :
  soonest certs m <= m /\
  Forall (fun c => soonest certs m <= DaysUntilExp c) certs /\
  (soonest certs m = m \/ Exists (fun c => soonest certs m = DaysUntilExp c) certs).
Proof.
  unfold soonest. revert m. induction certs as [|c certs IH]; intros m; simpl.
  - repeat split; [lia | constructor | now left].
  - destruct (Z.ltb_spec (DaysUntilExp c) m) as [Hlt | Hge].
    + destruct (IH (DaysUntilExp c)) as (Hle & Hall & Hex).
      repeat split; [lia | constructor; [exact Hle | exact Hall] |].
      right. destruct Hex as [-> | Hex]; [now left | now right].
    + destruct (IH m) as (Hle & Hall & Hex).
      repeat split; [exact Hle | constructor; [lia | exact Hall] |].
      destruct Hex as [Heq | Hex]; [now left | right; now right].
Qed.

(** When an expired record is the first one that is expired or within
    [warningDays], the summary is "EXPIRED"; when no record is expired or
    within [warningDays], it is "VALID" with the least number of days. *)
Lemma summary_expired_first before cert after warningDays :
  Forall (fun c => IsExpired c = false /\ warningDays < DaysUntilExp c) before ->
  IsExpired cert = true ->
  getExpiryStatusSummary (before ++ cert :: after) warningDays = "EXPIRED".
Proof.
  intros Hbefore Hexp. unfold getExpiryStatusSummary.
  rewrite (firstAlert_first _ _ _ Hbefore). simpl. rewrite Hexp.
  destruct before; reflexivity.
Qed.

Lemma summary_valid cert certs warningDays :
  Forall (fun c => IsExpired c = false /\ warningDays < DaysUntilExp c) (cert :: certs) ->
  getExpiryStatusSummary (cert :: certs) warningDays
  = "VALID (" +:+ Fmt.d (soonest (cert :: certs) (DaysUntilExp cert)) +:+ " days remaining)".
Proof.
  intros Hall. unfold getExpiryStatusSummary.
  rewrite (firstAlert_none _ _ Hall). cbn [Fmt.cat]. now rewrite append_nil_r.
Qed.

Lemma firstAlert_find certs warningDays :
  firstAlert certs warningDays
  = match find (alerting warningDays) certs with
    | Some cert =>
        Some (if IsExpired cert then "EXPIRED"
              else "EXPIRES SOON (" +:+ Fmt.d (DaysUntilExp cert) +:+ " days)")
    | None => None
    end.
Proof.
  induction certs as [|cert certs IH]; [reflexivity |].
  cbn [firstAlert find]. unfold alerting at 1.
  destruct (IsExpired cert) eqn:E; cbn [orb]; [now rewrite E |].
  destruct (DaysUntilExp cert <=? warningDays); [| exact IH].
  rewrite E. cbn [Fmt.cat]. now rewrite append_nil_r.
Qed.

Lemma soonest_minimum certs m :
  soonest certs m = fold_right Z.min m (map DaysUntilExp certs).
Proof.
  unfold soonest. revert m. induction certs as [|c certs IH]; intros m; [reflexivity |].
  cbn [fold_left map fold_right]. rewrite IH.
  assert (C : forall l a b, fold_right Z.min (Z.min a b) l = Z.min b (fold_right Z.min a l)).
  { induction l as [|x l IHl]; intros a b; cbn [fold_right]; [lia |]. rewrite IHl. lia. }
  destruct (Z.ltb_spec (DaysUntilExp c) m) as [Hlt | Hge].
  - replace (DaysUntilExp c) with (Z.min m (DaysUntilExp c)) at 1 by lia. apply C.
  - replace m with (Z.min m (DaysUntilExp c)) at 1 by lia. apply C.
Qed.

(** C3.  The summary is "No certificates found" for the empty list;
    otherwise the first record, in input order, that is expired or has
    [DaysUntilExp <= warningDays] decides: "EXPIRED" when that record is
    expired, "EXPIRES SOON (<N> days)" with its days when it is not; and
    when there is no such record, "VALID (<N> days remaining)" with the
    least [DaysUntilExp] of all records. *)
Theorem getExpiryStatusSummary_StatusSummary (certs : list CertificateInfo) (warningDays : Z) :
  getExpiryStatusSummary certs warningDays = StatusSummary certs warningDays.
Proof.
  destruct certs as [|cert0 certs]; [reflexivity |].
  unfold getExpiryStatusSummary, StatusSummary. rewrite firstAlert_find.
  destruct (find (alerting warningDays) (cert0 :: certs)) as [cert|]; [reflexivity |].
  cbn [Fmt.cat]. rewrite append_nil_r.
  unfold minimumDays. rewrite soonest_minimum. cbn [map fold_right].
  assert (L : forall l m, fold_right Z.min m l <= m).
  { induction l as [|x l IHl]; intros m; cbn [fold_right]; [lia |]. specialize (IHl m). lia. }
  specialize (L (map DaysUntilExp certs) (DaysUntilExp cert0)).
  rewrite Z.min_r by exact L. reflexivity.
Qed.

(** C3, refuted as stated.  With a record that expires within
    [warningDays] ahead of an expired one, the summary is "EXPIRES SOON
    (10 days)", not "EXPIRED"; with the expired record first it is
    "EXPIRED". *)
Lemma summary_soon_before_expired :
  IsExpired soonRecord = false /\ DaysUntilExp soonRecord = 10 /\
  IsExpired expiredRecord = true /\
  getExpiryStatusSummary [soonRecord; expiredRecord] 30 = "EXPIRES SOON (10 days)" /\
  getExpiryStatusSummary [expiredRecord; soonRecord] 30 = "EXPIRED".
Proof. repeat split; vm_compute; reflexivity. Qed.

End SummaryFacts.

(** ** Token strategies of the client constructor *)

Module NewClientFacts.
Import NewClient.

Section Strategies.

Variable clientsetT : Type.
Variable helper fallback : string -> string -> result string.

(** The helper is called first and exactly once.  When it returns
    without an error, its token is the result and the fallback is not
    called.  When it returns an error, the fallback is called exactly
    once after it, and its token is the result; the result is an error
    exactly when both return one. *)
Lemma generateEKSToken_trace (eks : K8s.KubeConfigEKSDetails) (tr : list Call) :
  let c := K8s.ClusterName eks in
  let r := K8s.RoleARN eks in
  let out := generateEKSToken helper fallback eks tr in
  match helper c r with
  | Ok token => out = (Ok token, tr ++ [CallAuthenticator c r])
  | Err _ =>
      snd out = tr ++ [CallAuthenticator c r; CallGenerateToken c r] /\
      match fallback c r with
      | Ok token => fst out = Ok token
      | Err err => fst out = Err ("failed to generate EKS token: " +:+ err)
      end
  end /\
  (is_ok (fst out) = false <-> is_ok (helper c r) = false /\ is_ok (fallback c r) = false).
Proof.
  cbv zeta. unfold generateEKSToken, bind, call, ret.
  destruct (helper _ _) as [token | e]; simpl.
  - split; [reflexivity |]. split; [discriminate | intros [H _]; discriminate].
  - rewrite <- app_assoc. simpl.
    destruct (fallback _ _) as [token | e']; simpl.
    + split; [split; reflexivity |]. split; [discriminate | intros [_ H]; discriminate].
    + rewrite append_nil_r. split; [split; reflexivity |]. split; intros; auto.
Qed.

(** [NewClient] generates the token once, after the kubeconfig was read:
    its calls are those of [generateEKSToken]. *)
Lemma NewClient_calls (eks : K8s.KubeConfigEKSDetails)
    (NewForConfig : RestConfig -> result clientsetT) (tr : list Call) :
  snd (NewClient.NewClient clientsetT (Ok eks) helper fallback NewForConfig tr)
  = snd (generateEKSToken helper fallback eks tr).
Proof.
  unfold NewClient.NewClient, bind, ret.
  destruct (generateEKSToken helper fallback eks tr) as [[token | e] tr']; simpl;
    [destruct (NewForConfig _) |]; reflexivity.
Qed.

End Strategies.

Section Helper.

Variable commandOutput : list string -> result (list byte).
Variable unmarshalToken : list byte -> result string.
Variable fallback : string -> string -> result string.

(** C9.  The helper strategy is tried first and exactly once.  It fails
    when the helper cannot be run or exits with an error, or when
    [json.Unmarshal] refuses its output; then the fallback is called
    exactly once after it, and the overall result is an error exactly
    when the fallback fails as well.  In every other case the token that
    [json.Unmarshal] leaves in the credential is the result, empty or
    not, and the fallback is not called. *)
Theorem generateEKSToken_order (eks : K8s.KubeConfigEKSDetails) (tr : list Call) :
  let c := K8s.ClusterName eks in
  let r := K8s.RoleARN eks in
  let helper := Auth.GenerateTokenUsingAuthenticator commandOutput unmarshalToken in
  let out := generateEKSToken helper fallback eks tr in
  let args := app ["token"; "-i"; c]%string
                  (if String.eqb r "" then [] else ["-r"; r]%string) in
  let escalated :=
    snd out = tr ++ [CallAuthenticator c r; CallGenerateToken c r] /\
    match fallback c r with
    | Ok token => fst out = Ok token
    | Err err => fst out = Err ("failed to generate EKS token: " +:+ err)
    end in
  match commandOutput args with
  | Err _ => escalated
  | Ok output =>
      match unmarshalToken output with
      | Err _ => escalated
      | Ok token => out = (Ok token, tr ++ [CallAuthenticator c r])
      end
  end /\
  (is_ok (fst out) = false <->
   (is_ok (commandOutput args) = false \/
    exists output, commandOutput args = Ok output /\ is_ok (unmarshalToken output) = false) /\
   is_ok (fallback c r) = false).
Proof.
  cbv zeta.
  unfold generateEKSToken, Auth.GenerateTokenUsingAuthenticator, bind, call, ret.
  set (c := K8s.ClusterName eks). set (r := K8s.RoleARN eks).
  replace (if negb (String.eqb r "") then ["token"; "-i"; c]%string ++ ["-r"; r]%string
           else ["token"; "-i"; c]%string)
    with (app ["token"; "-i"; c]%string (if String.eqb r "" then [] else ["-r"; r]%string))
    by (destruct (String.eqb r ""); reflexivity).
  set (args := app _ _).
  destruct (commandOutput args) as [output | e];
    [destruct (unmarshalToken output) as [token | e] eqn:Eu |].
  - split; [reflexivity |]. cbn [fst is_ok]. split; [discriminate |].
    intros [[H | (output' & H & H')] _]; [discriminate |].
    injection H as <-. rewrite Eu in H'. discriminate.
  - rewrite <- app_assoc. cbn [app].
    destruct (fallback c r) as [token | e']; cbn [fst snd is_ok Fmt.cat].
    + split; [split; reflexivity |]. split; [discriminate | intros [_ H]; discriminate].
    + rewrite append_nil_r. split; [split; reflexivity |].
      split; [| reflexivity]. intros _. split; [| reflexivity].
      right. exists output. split; [reflexivity | now rewrite Eu].
  - rewrite <- app_assoc. cbn [app].
    destruct (fallback c r) as [token | e']; cbn [fst snd is_ok Fmt.cat].
    + split; [split; reflexivity |]. split; [discriminate | intros [_ H]; discriminate].
    + rewrite append_nil_r. split; [split; reflexivity |].
      split; [| reflexivity]. intros _. split; [now left | reflexivity].
Qed.

End Helper.

(** C9, refuted as stated: the helper prints the empty JSON object, which
    has not the shape of a credential.  [json.Unmarshal] accepts it and
    leaves the token empty; the helper strategy returns the empty token
    without an error, the fallback, which would give a token, is not
    called, and the client is built with the empty bearer token. *)
Lemma generateEKSToken_empty_token :
  let helper :=
    Auth.GenerateTokenUsingAuthenticator SampleHelper.printsEmptyObject
      SampleHelper.unmarshal in
  helper "demo-cluster" "" = Ok "" /\
  SampleRequests.fallback "demo-cluster" "" = Ok "k8s-aws-v1.c2FtcGxl" /\
  generateEKSToken helper SampleRequests.fallback SampleHelper.eks []
  = (Ok "", [CallAuthenticator "demo-cluster" ""]) /\
  NewClient.NewClient unit (Ok SampleHelper.eks) helper SampleRequests.fallback
    SampleRequests.newForConfig []
  = (Ok {| clientset := tt;
           config := {| Host := SampleKubeconfig.server; BearerToken := "";
                        CAData := [] |};
           eksDetails := SampleHelper.eks |},
     [CallAuthenticator "demo-cluster" ""]).
Proof. repeat split; vm_compute; reflexivity. Qed.

(** The helper prints a credential: its token is the result.  The helper
    prints a text that is no JSON: the fallback gives the token. *)
Example generateEKSToken_samples :
  generateEKSToken
    (Auth.GenerateTokenUsingAuthenticator SampleHelper.printsCredential SampleHelper.unmarshal)
    SampleRequests.fallback SampleHelper.eks []
  = (Ok "k8s-aws-v1.aGVscGVy", [CallAuthenticator "demo-cluster" ""]) /\
  generateEKSToken
    (Auth.GenerateTokenUsingAuthenticator SampleHelper.printsText SampleHelper.unmarshal)
    SampleRequests.fallback SampleHelper.eks []
  = (Ok "k8s-aws-v1.c2FtcGxl",
     [CallAuthenticator "demo-cluster" ""; CallGenerateToken "demo-cluster" ""]).
Proof. split; vm_compute; reflexivity. Qed.

End NewClientFacts.

(** ** The sample parsers *)

Module SamplePemFacts.
Import Utils SamplePem.

Lemma stripPrefix_app p data after :
  stripPrefix p data = Some after -> data = p ++ after.
Proof.
  revert data. induction p as [|x p IH]; intros [|y data] H; simpl in H;
    try discriminate; try (injection H as <-; reflexivity).
  destruct (Byte.eqb x y) eqn:E; [| discriminate].
  apply Byte.byte_dec_bl in E. subst y. simpl. f_equal. now apply IH.
Qed.

Lemma cut_app sep data before after :
  cut sep data = Some (before, after) -> data = before ++ sep ++ after.
Proof.
  revert before. induction data as [|x data IH]; intros before H; simpl in H.
  - destruct (stripPrefix sep []) eqn:E; [| discriminate].
    injection H as <- <-. now apply stripPrefix_app in E.
  - destruct (stripPrefix sep (x :: data)) eqn:E.
    + injection H as <- <-. now apply stripPrefix_app in E.
    + destruct (cut sep data) as [[b a]|] eqn:E'; [| discriminate].
      injection H as <- <-. simpl. f_equal. now apply IH.
Qed.

(** The rest that [decode] returns with a block is shorter than the
    input. *)
Lemma decode_shrinks data b rest :
  decode data = (Some b, rest) -> (length rest < length data)%nat.
Proof.
  unfold decode.
  destruct (cut _ data) as [[b0 r1]|] eqn:E1; [| discriminate].
  destruct (cut _ r1) as [[typ r2]|] eqn:E2; [| discriminate].
  destruct (cut _ r2) as [[payload r3]|] eqn:E3; [| discriminate].
  intros H. injection H as _ <-.
  apply cut_app in E1, E2, E3. subst data r1 r2.
  rewrite !length_app. simpl. lia.
Qed.

End SamplePemFacts.

(** ** The two parsers *)

Lemma length_string_of_list_byte (l : list byte) :
  String.length (string_of_list_byte l) = length l.
Proof.
  unfold string_of_list_byte. induction l as [|b l IH]; simpl; congruence.
Qed.

Module StringsFacts.
Import Utf8 Unicode Strings.

(** The white space that [strings.TrimSpace] drops is that of Unicode, read
    by the UTF-8 decoder; bytes that encode no rune, and runes that are no
    white space, stay. *)
Example TrimSpace_samples :
  TrimSpace ("  a b " +:+ SamplePem.nl) = "a b" /\
  TrimSpace (SamplePem.noBreakSpace +:+ " a b " +:+ SamplePem.lineSeparator
               +:+ SamplePem.ideographicSpace) = "a b" /\
  TrimSpace (SamplePem.zeroWidthSpace +:+ "a ") = SamplePem.zeroWidthSpace +:+ "a" /\
  TrimSpace (stringOf [0xA0] +:+ "a" +:+ stringOf [0xC2]) = stringOf [0xA0; 0x61; 0xC2] /\
  TrimSpace (SamplePem.noBreakSpace +:+ " " +:+ SamplePem.lineSeparator) = "".
Proof. repeat split; vm_compute; reflexivity. Qed.

(** The decoder reads the encodings of one to four bytes and refuses an
    encoding that is longer than needed, a surrogate and a lone
    continuation byte; read from the end, it gives the same rune. *)
Example DecodeRuneInString_samples :
  DecodeRuneInString [0x41] = (0x41, 1%nat) /\
  DecodeRuneInString [0xC2; 0xA0; 0x41] = (0xA0, 2%nat) /\
  DecodeRuneInString [0xE2; 0x80; 0xA8] = (0x2028, 3%nat) /\
  DecodeRuneInString [0xF0; 0x9F; 0x98; 0x80] = (0x1F600, 4%nat) /\
  DecodeRuneInString [0xC0; 0xA0] = (RuneError, 1%nat) /\
  DecodeRuneInString [0xED; 0xA0; 0x80] = (RuneError, 1%nat) /\
  DecodeRuneInString [0x80] = (RuneError, 1%nat) /\
  DecodeRuneInString [0xE2; 0x80] = (RuneError, 1%nat) /\
  DecodeLastRuneInString (rev [0x41; 0xE2; 0x80; 0xA8]) = (0x2028, 3%nat) /\
  DecodeLastRuneInString (rev [0x41; 0x80; 0xA8]) = (RuneError, 1%nat).
Proof. repeat split; vm_compute; reflexivity. Qed.

(** A leading byte of the ASCII range is dropped exactly when it is white
    space; the decoder is not needed for it. *)
Lemma TrimLeftFunc_ascii (s : list Z) (c : Z) :
  0 <= c < RuneSelf ->
  TrimLeftFunc (c :: s) = if IsSpace c then TrimLeftFunc s else c :: s.
Proof.
  intros Hc. unfold TrimLeftFunc. cbn [trimLeftFrom DecodeRuneInString].
  destruct (Z.ltb_spec c RuneSelf) as [_ | H]; [| lia].
  destruct (IsSpace c); reflexivity.
Qed.

End StringsFacts.

Module ParserFacts.
Import Utils BundleSpec.

Section Parsers.

Variable pemDecode : list byte -> option Block * list byte.
Variable x509ParseCertificate : list byte -> result Certificate.
Variable now : GoTime.Time.

Local Abbreviation ParseCertificate := (Utils.ParseCertificate pemDecode x509ParseCertificate now).
Local Abbreviation ParseCertificateBundle :=
  (Utils.ParseCertificateBundle pemDecode x509ParseCertificate now).
Local Abbreviation bundleLoop := (Utils.bundleLoop pemDecode x509ParseCertificate now).
Local Abbreviation Scan := (BundleSpec.Scan pemDecode).
Local Abbreviation goodRecords := (BundleSpec.goodRecords x509ParseCertificate now).

(** C1.  [ParseCertificate] succeeds exactly when the first block that
    [pem.Decode] finds in the trimmed input has type CERTIFICATE and its
    bytes parse, and the record is that of this block, whatever follows
    it in the input. *)
Theorem ParseCertificate_first_block (certPEM : string) (info : CertificateInfo) :
  ParseCertificate certPEM = Ok info <->
  exists b rest cert,
    pemDecode (list_byte_of_string (Strings.TrimSpace certPEM)) = (Some b, rest) /\
    Type_ b = "CERTIFICATE" /\
    x509ParseCertificate (Bytes b) = Ok cert /\
    info = certInfo now cert.
Proof.
  unfold Utils.ParseCertificate. split.
  - destruct (pemDecode _) as [[b|] rest] eqn:E; [| discriminate].
    destruct (String.eqb_spec (Type_ b) "CERTIFICATE") as [Ht | Ht]; simpl; [| discriminate].
    destruct (x509ParseCertificate (Bytes b)) as [cert | e] eqn:Ex; [| discriminate].
    intros H. injection H as <-. exists b, rest, cert. auto.
  - intros (b & rest & cert & -> & Ht & Hx & ->).
    rewrite Ht, Hx. reflexivity.
Qed.

(** A record that [ParseCertificate] returns is built by [certInfo]. *)
Lemma ParseCertificate_certInfo (certPEM : string) (info : CertificateInfo) :
  ParseCertificate certPEM = Ok info -> exists cert, info = certInfo now cert.
Proof.
  unfold Utils.ParseCertificate.
  destruct (pemDecode _) as [[b|] rest]; [| discriminate].
  destruct (negb _); [discriminate |].
  destruct (x509ParseCertificate (Bytes b)) as [cert | e]; [| discriminate].
  intros H. injection H as <-. now exists cert.
Qed.

(** Without such a first block the result is an error. *)
Lemma ParseCertificate_errors (certPEM : string) :
  match pemDecode (list_byte_of_string (Strings.TrimSpace certPEM)) with
  | (None, _) => ParseCertificate certPEM = Err "failed to decode PEM block"
  | (Some b, _) =>
      (Type_ b <> "CERTIFICATE" ->
       ParseCertificate certPEM = Err ("not a certificate, found: " +:+ Type_ b)) /\
      (forall e, Type_ b = "CERTIFICATE" -> x509ParseCertificate (Bytes b) = Err e ->
       ParseCertificate certPEM = Err ("failed to parse certificate: " +:+ e))
  end.
Proof.
  unfold Utils.ParseCertificate.
  destruct (pemDecode _) as [[b|] rest]; [| reflexivity].
  split.
  - intros Ht. apply String.eqb_neq in Ht. rewrite Ht. cbn [negb Fmt.cat].
    now rewrite append_nil_r.
  - intros e Ht Hx. rewrite Ht, Hx. cbn. now rewrite append_nil_r.
Qed.

Section Shrinking.

(** [pem.Decode] returns, with a block, a rest that is shorter than its
    input. *)
Hypothesis pemDecode_rest :
  forall data b rest, pemDecode data = (Some b, rest) -> (length rest < length data)%nat.

Lemma pemDecode_nil : fst (pemDecode []) = None.
Proof.
  destruct (pemDecode []) as [[b|] rest] eqn:E; [| reflexivity].
  apply pemDecode_rest in E. simpl in E. lia.
Qed.

Lemma Scan_nil blocks : Scan [] blocks -> blocks = [].
Proof.
  inversion 1 as [| data b rest bs Hd Hs]; [reflexivity |].
  apply pemDecode_rest in Hd. simpl in Hd. lia.
Qed.

Lemma Scan_length data blocks : Scan data blocks -> (length blocks <= length data)%nat.
Proof.
  induction 1 as [data Hd | data b rest bs Hd _ IH]; simpl; [lia |].
  apply pemDecode_rest in Hd. lia.
Qed.

Lemma Scan_exists data : exists blocks, Scan data blocks.
Proof.
  remember (length data) as n eqn:Hn. revert data Hn.
  induction n as [n IH] using lt_wf_ind. intros data ->.
  destruct (pemDecode data) as [[b|] rest] eqn:E.
  - destruct (IH (length rest) (pemDecode_rest _ _ _ E) rest eq_refl) as [bs Hbs].
    exists (b :: bs). now apply Scan_block with rest.
  - exists []. apply Scan_end. now rewrite E.
Qed.

Lemma Scan_unique data blocks blocks' : Scan data blocks -> Scan data blocks' -> blocks = blocks'.
Proof.
  intros H. revert blocks'.
  induction H as [data Hd | data b rest bs Hd _ IH]; intros blocks' H'.
  - inversion H' as [| ? b' rest' bs' Hd' _]; [reflexivity |].
    rewrite Hd' in Hd. discriminate.
  - inversion H' as [? Hd' | ? b' rest' bs' Hd' Hs']; subst.
    + rewrite Hd in Hd'. discriminate.
    + rewrite Hd in Hd'. injection Hd' as <- <-. f_equal. now apply IH.
Qed.

(** The loop appends the records of the blocks, in their order, when it
    has one unit of fuel more than there are blocks. *)
Lemma bundleLoop_Scan data blocks :
  Scan data blocks ->
  forall fuel acc, (length blocks < fuel)%nat ->
  bundleLoop fuel (string_of_list_byte data) acc = Some (acc ++ goodRecords blocks).
Proof.
  induction 1 as [data Hd | data b rest bs Hd Hs IH]; intros [|fuel] acc Hfuel;
    try (simpl in Hfuel; lia); cbn [Utils.bundleLoop];
    rewrite list_byte_of_string_of_list_byte.
  - destruct (pemDecode data) as [[b|] rest]; [discriminate |]. simpl.
    now rewrite app_nil_r.
  - rewrite Hd. unfold BundleSpec.goodRecords. cbn [flat_map].
    fold (BundleSpec.goodRecords x509ParseCertificate now bs).
    unfold recordOf at 1. simpl in Hfuel.
    assert (Hstop : String.length (string_of_list_byte rest) = 0%nat -> goodRecords bs = []).
    { rewrite length_string_of_list_byte. intros Hz.
      destruct rest; [| discriminate]. now rewrite (Scan_nil _ Hs). }
    destruct (String.eqb (Type_ b) "CERTIFICATE").
    + destruct (x509ParseCertificate (Bytes b)) as [cert | e].
      * destruct (Nat.eqb_spec (String.length (string_of_list_byte rest)) 0) as [Hz | Hz].
        -- rewrite (Hstop Hz). reflexivity.
        -- rewrite IH by lia. now rewrite <- app_assoc.
      * rewrite IH by lia. reflexivity.
    + destruct (Nat.eqb_spec (String.length (string_of_list_byte rest)) 0) as [Hz | Hz].
      * rewrite (Hstop Hz). simpl. now rewrite app_nil_r.
      * rewrite IH by lia. reflexivity.
Qed.

(** The result for an input whose blocks are [blocks]. *)
Lemma ParseCertificateBundle_Scan (certBundle : string) (blocks : list Block) :
  Scan (list_byte_of_string (Strings.TrimSpace certBundle)) blocks ->
  ParseCertificateBundle certBundle = Some (bundleResult (goodRecords blocks)).
Proof.
  intros Hs. unfold Utils.ParseCertificateBundle, ParseCertificateBundleFuel.
  pose proof (Scan_length _ _ Hs) as Hlen.
  pose proof (bundleLoop_Scan _ _ Hs (S (String.length (Strings.TrimSpace certBundle))) []) as H.
  rewrite string_of_list_byte_of_string in H.
  rewrite H; [reflexivity |].
  rewrite <- (string_of_list_byte_of_string (Strings.TrimSpace certBundle)) at 1.
  rewrite length_string_of_list_byte. lia.
Qed.

(** C6.  [ParseCertificateBundle] ends, and returns the records of the
    blocks of type CERTIFICATE that parse, in input order: a block that
    does not parse is left out and the scan goes on after it.  The
    result is the error exactly when there is no such record. *)
Theorem ParseCertificateBundle_records (certBundle : string) :
  exists blocks,
    Scan (list_byte_of_string (Strings.TrimSpace certBundle)) blocks /\
    ParseCertificateBundle certBundle = Some (bundleResult (goodRecords blocks)) /\
    (bundleResult (goodRecords blocks) = Err "no valid certificates found in bundle"
     <-> goodRecords blocks = []) /\
    (goodRecords blocks <> [] -> bundleResult (goodRecords blocks) = Ok (goodRecords blocks)).
Proof.
  destruct (Scan_exists (list_byte_of_string (Strings.TrimSpace certBundle))) as [blocks Hs].
  exists blocks. split; [exact Hs |].
  split; [now apply ParseCertificateBundle_Scan |].
  unfold bundleResult. destruct (goodRecords blocks) as [|r l]; simpl.
  - split; [split; reflexivity | intros H; now elim H].
  - split; [split; discriminate | reflexivity].
Qed.

(** Three blocks of type CERTIFICATE, the middle one not parsing: the
    records of the first and the third. *)
Lemma ParseCertificateBundle_middle_corrupt certBundle b1 b2 b3 r1 r2 r3 c1 c3 e :
  pemDecode (list_byte_of_string (Strings.TrimSpace certBundle)) = (Some b1, r1) ->
  pemDecode r1 = (Some b2, r2) ->
  pemDecode r2 = (Some b3, r3) ->
  fst (pemDecode r3) = None ->
  Type_ b1 = "CERTIFICATE" -> Type_ b2 = "CERTIFICATE" -> Type_ b3 = "CERTIFICATE" ->
  x509ParseCertificate (Bytes b1) = Ok c1 ->
  x509ParseCertificate (Bytes b2) = Err e ->
  x509ParseCertificate (Bytes b3) = Ok c3 ->
  ParseCertificateBundle certBundle = Some (Ok [certInfo now c1; certInfo now c3]).
Proof.
  intros H1 H2 H3 H4 T1 T2 T3 X1 X2 X3.
  rewrite (ParseCertificateBundle_Scan certBundle [b1; b2; b3]).
  - unfold BundleSpec.goodRecords, recordOf. simpl.
    rewrite T1, T2, T3, X1, X2, X3. reflexivity.
  - eapply Scan_block; [exact H1 |]. eapply Scan_block; [exact H2 |].
    eapply Scan_block; [exact H3 |]. now apply Scan_end.
Qed.

End Shrinking.

End Parsers.

(** White space outside the ASCII range around the block is trimmed as
    that of the ASCII range is. *)
Example ParseCertificate_unicode_space :
  let certPEM :=
    SamplePem.noBreakSpace +:+ SamplePem.nl +:+ SamplePem.oneCert
      +:+ SamplePem.lineSeparator +:+ " " +:+ SamplePem.ideographicSpace in
  Strings.TrimSpace certPEM = Strings.TrimSpace SamplePem.oneCert /\
  Utils.ParseCertificate SamplePem.decode SamplePem.parse 0 certPEM
  = Ok (Samples.endingIn "CN=a" 864000).
Proof. split; vm_compute; reflexivity. Qed.

(** C6, on the sample bundle of three blocks whose middle one is
    corrupted. *)
Lemma ParseCertificateBundle_records_witness :
  exists blocks,
    BundleSpec.Scan SamplePem.decode
      (list_byte_of_string (Strings.TrimSpace SamplePem.threeCertsMiddleCorrupt)) blocks /\
    Utils.ParseCertificateBundle SamplePem.decode SamplePem.parse 0
      SamplePem.threeCertsMiddleCorrupt
    = Some (bundleResult (BundleSpec.goodRecords SamplePem.parse 0 blocks)) /\
    (bundleResult (BundleSpec.goodRecords SamplePem.parse 0 blocks)
     = Err "no valid certificates found in bundle"
     <-> BundleSpec.goodRecords SamplePem.parse 0 blocks = []) /\
    (BundleSpec.goodRecords SamplePem.parse 0 blocks <> [] ->
     bundleResult (BundleSpec.goodRecords SamplePem.parse 0 blocks)
     = Ok (BundleSpec.goodRecords SamplePem.parse 0 blocks)).
Proof.
  exact (ParseCertificateBundle_records SamplePem.decode SamplePem.parse 0
           SamplePemFacts.decode_shrinks SamplePem.threeCertsMiddleCorrupt).
Defined.

Example bundle_three_middle_corrupt :
  Utils.ParseCertificateBundle SamplePem.decode SamplePem.parse 0
    SamplePem.threeCertsMiddleCorrupt
  = Some (Ok [Samples.endingIn "CN=a" 864000; Samples.endingIn "CN=c" 2592000]).
Proof. vm_compute. reflexivity. Qed.

Example bundle_empty :
  Utils.ParseCertificateBundle SamplePem.decode SamplePem.parse 0 ""
  = Some (Err "no valid certificates found in bundle").
Proof. vm_compute. reflexivity. Qed.

(** C1, refuted as stated: the sample bundle holds two blocks, and
    [ParseCertificate] returns the record of the first. *)
Lemma ParseCertificate_bundle_first_only :
  (exists b1 r1 b2 r2,
     SamplePem.decode (list_byte_of_string (Strings.TrimSpace SamplePem.twoCerts))
     = (Some b1, r1) /\ SamplePem.decode r1 = (Some b2, r2)) /\
  Utils.ParseCertificate SamplePem.decode SamplePem.parse 0 SamplePem.twoCerts
  = Ok (Samples.endingIn "CN=a" 864000).
Proof.
  split; [| vm_compute; reflexivity].
  destruct (SamplePem.decode (list_byte_of_string (Strings.TrimSpace SamplePem.twoCerts)))
    as [[b1|] r1] eqn:E1; [| vm_compute in E1; discriminate].
  destruct (SamplePem.decode r1) as [[b2|] r2] eqn:E2.
  - exists b1, r1, b2, r2. split; [reflexivity | exact E2].
  - vm_compute in E1. injection E1 as _ <-. vm_compute in E2. discriminate.
Qed.

End ParserFacts.

(** ** Discovery of certificate sources *)

Module DiscoveryFacts.
Import Utils K8s.

Section Discovery.

Variable pemDecode : list byte -> option Block * list byte.
Variable x509ParseCertificate : list byte -> result Certificate.
Variable now : GoTime.Time.

Local Abbreviation keysLoop := (K8s.keysLoop pemDecode x509ParseCertificate now).
Local Abbreviation ExtractCertificatesFromConfigMap :=
  (K8s.ExtractCertificatesFromConfigMap pemDecode x509ParseCertificate now).
Local Abbreviation GetClusterCACertificateInfo :=
  (K8s.GetClusterCACertificateInfo pemDecode x509ParseCertificate now).
Local Abbreviation volumeStep := (K8s.volumeStep pemDecode x509ParseCertificate now).
Local Abbreviation volumesLoop := (K8s.volumesLoop pemDecode x509ParseCertificate now).
Local Abbreviation AnalyzePodCertificates :=
  (K8s.AnalyzePodCertificates pemDecode x509ParseCertificate now).

(** A key of [Data] hides the same key of [BinaryData]. *)
Lemma configMapLookup_data (configMap : ConfigMap) (key certData : string) :
  Data configMap !! key = Some certData -> configMapLookup configMap key = Some certData.
Proof. unfold configMapLookup. now intros ->. Qed.

Lemma configMapLookup_binary (configMap : ConfigMap) (key : string) :
  Data configMap !! key = None ->
  configMapLookup configMap key = string_of_list_byte <$> BinaryData configMap !! key.
Proof. unfold configMapLookup. intros ->. now destruct (BinaryData configMap !! key). Qed.

Lemma keysLoop_ext (lookup lookup' : string -> option string) certKeys allCerts :
  (forall key, lookup key = lookup' key) ->
  keysLoop lookup certKeys allCerts = keysLoop lookup' certKeys allCerts.
Proof.
  intros Hext. revert allCerts.
  induction certKeys as [|key certKeys IH]; intros allCerts; simpl; [reflexivity |].
  rewrite <- Hext. destruct (lookup key) as [certString|]; [| apply IH].
  destruct (Utils.ParseCertificate _ _ _ certString); [apply IH |].
  destruct (Utils.ParseCertificateBundle _ _ _ certString) as [[certs | e]|];
    [apply IH | apply IH | reflexivity].
Qed.

(** C10.  For a key of [Data] the plain value is what the extraction
    looks at, and the value of [BinaryData] under a key is looked at only
    when [Data] has no such key: two config maps with the same [Data],
    and the same [BinaryData] under the keys that [Data] lacks, give the
    same source. *)
Theorem ExtractCertificatesFromConfigMap_data_first
    (cs cs' : Clientset) (namespace configMapName : string) (configMap configMap' : ConfigMap) :
  getConfigMap cs namespace configMapName = Ok configMap ->
  getConfigMap cs' namespace configMapName = Ok configMap' ->
  Data configMap' = Data configMap ->
  (forall key, Data configMap !! key = None ->
               BinaryData configMap' !! key = BinaryData configMap !! key) ->
  (forall key certData, Data configMap !! key = Some certData ->
     configMapLookup configMap key = Some certData /\
     configMapLookup configMap' key = Some certData) /\
  ExtractCertificatesFromConfigMap cs' namespace configMapName
  = ExtractCertificatesFromConfigMap cs namespace configMapName.
Proof.
  intros Hget Hget' Hdata Hbin. split.
  - intros key certData Hk. split; apply configMapLookup_data; [| rewrite Hdata]; exact Hk.
  - unfold K8s.ExtractCertificatesFromConfigMap. rewrite Hget, Hget'.
    rewrite (keysLoop_ext (configMapLookup configMap') (configMapLookup configMap));
      [reflexivity |].
    intros key. unfold configMapLookup. rewrite Hdata.
    destruct (Data configMap !! key) eqn:Hk; [reflexivity |]. now rewrite (Hbin key Hk).
Qed.

(** The keys of the volumes differ from the key of the trust anchor. *)
Lemma volumeStep_cluster_ca cs namespace certSources volume certSources' :
  volumeStep cs namespace certSources volume = Some certSources' ->
  certSources' !! "cluster-ca" = certSources !! "cluster-ca".
Proof.
  unfold K8s.volumeStep.
  destruct (volSecret volume) as [secretName|].
  - destruct (K8s.ExtractCertificatesFromSecret _ _ _ cs namespace secretName)
      as [[source [err|]]|]; [| | discriminate];
    (destruct (volConfigMap volume) as [configMapName|];
     [ destruct (K8s.ExtractCertificatesFromConfigMap _ _ _ cs namespace configMapName)
         as [[source' [err'|]]|]; [| | discriminate] |]);
    intros H; injection H as <-;
    rewrite ?lookup_insert_ne; try reflexivity; cbn; discriminate.
  - destruct (volConfigMap volume) as [configMapName|];
     [ destruct (K8s.ExtractCertificatesFromConfigMap _ _ _ cs namespace configMapName)
         as [[source' [err'|]]|]; [| | discriminate] |];
    intros H; injection H as <-;
    rewrite ?lookup_insert_ne; try reflexivity; cbn; discriminate.
Qed.

Lemma volumesLoop_cluster_ca cs namespace volumes certSources certSources' :
  volumesLoop cs namespace volumes certSources = Some certSources' ->
  certSources' !! "cluster-ca" = certSources !! "cluster-ca".
Proof.
  revert certSources. induction volumes as [|volume volumes IH]; intros certSources; simpl.
  - now intros [= <-].
  - destruct (volumeStep cs namespace certSources volume) as [m|] eqn:E; [| discriminate].
    intros H. rewrite (IH _ H). now apply volumeStep_cluster_ca in E.
Qed.

(** The map of [AnalyzePodCertificates] has the key "cluster-ca" exactly
    when [GetClusterCACertificateInfo] returned no error; the source
    that carries an error is dropped. *)
Lemma AnalyzePodCertificates_cluster_ca client namespace podName certSources :
  AnalyzePodCertificates client namespace podName = Some (Ok certSources) ->
  exists source err,
    GetClusterCACertificateInfo (ClusterCA (eksDetails client)) = Some (source, err) /\
    certSources !! "cluster-ca" = match err with None => Some source | Some _ => None end.
Proof.
  unfold K8s.AnalyzePodCertificates.
  destruct (getPod _ namespace podName) as [pod | e]; [| discriminate].
  destruct (GetClusterCACertificateInfo _) as [[source err]|]; [| discriminate].
  destruct (volumesLoop _ _ _ _) as [m|] eqn:E; [| discriminate].
  intros H. injection H as <-. exists source, err. split; [reflexivity |].
  rewrite (volumesLoop_cluster_ca _ _ _ _ _ E).
  destruct err; [apply lookup_empty | apply lookup_insert_eq].
Qed.

Lemma GetClusterCACertificateInfo_empty :
  GetClusterCACertificateInfo ""
  = Some (clusterCASource [] "No cluster CA certificate available",
          Some "no cluster CA certificate").
Proof. reflexivity. Qed.

End Discovery.

Import SampleCluster.

(** C10, on the sample config map: the binary value under [ca.crt] is
    not looked at. *)
Lemma ExtractCertificatesFromConfigMap_data_first_witness :
  (forall key certData, Data (trust ∅) !! key = Some certData ->
     configMapLookup (trust ∅) key = Some certData /\
     configMapLookup (trust {[ "ca.crt" := [x00; x01] ]}) key = Some certData) /\
  K8s.ExtractCertificatesFromConfigMap SamplePem.decode SamplePem.parse 0
    (cluster {[ "ca.crt" := [x00; x01] ]}) "default" "trust"
  = K8s.ExtractCertificatesFromConfigMap SamplePem.decode SamplePem.parse 0
      (cluster ∅) "default" "trust".
Proof.
  apply (ExtractCertificatesFromConfigMap_data_first SamplePem.decode SamplePem.parse 0
           (cluster ∅) (cluster {[ "ca.crt" := [x00; x01] ]}) "default" "trust"
           (trust ∅) (trust {[ "ca.crt" := [x00; x01] ]})).
  - reflexivity.
  - reflexivity.
  - reflexivity.
  - intros key Hk. simpl in *.
    destruct (decide (key = "ca.crt")) as [-> | Hne].
    + rewrite lookup_singleton_eq in Hk. discriminate.
    + rewrite lookup_singleton_ne by congruence. now rewrite lookup_empty.
Defined.

(** C2.  With an empty trust anchor, and with one that does not parse,
    the map that [AnalyzePodCertificates] returns for the sample pod has
    the source of the mounted secret and no entry under "cluster-ca". *)
Theorem AnalyzePodCertificates_drops_cluster_ca :
  (exists certSources,
     K8s.AnalyzePodCertificates SamplePem.decode SamplePem.parse 0
       (clientWithCA "") "default" "web" = Some (Ok certSources) /\
     certSources !! "cluster-ca" = None /\
     is_Some (certSources !! "secret-tls")) /\
  (exists certSources,
     K8s.AnalyzePodCertificates SamplePem.decode SamplePem.parse 0
       (clientWithCA "not a certificate") "default" "web" = Some (Ok certSources) /\
     certSources !! "cluster-ca" = None /\
     is_Some (certSources !! "secret-tls")).
Proof.
  split.
  - destruct (K8s.AnalyzePodCertificates SamplePem.decode SamplePem.parse 0
                (clientWithCA "") "default" "web") as [[m | e]|] eqn:E;
      try (vm_compute in E; discriminate).
    exists m. split; [reflexivity |].
    destruct (AnalyzePodCertificates_cluster_ca _ _ _ _ _ _ _ E) as (source & err & Hca & ->).
    vm_compute in Hca. injection Hca as <- <-. split; [reflexivity |].
    vm_compute in E. injection E as <-. vm_compute. eauto.
  - destruct (K8s.AnalyzePodCertificates SamplePem.decode SamplePem.parse 0
                (clientWithCA "not a certificate") "default" "web") as [[m | e]|] eqn:E;
      try (vm_compute in E; discriminate).
    exists m. split; [reflexivity |].
    destruct (AnalyzePodCertificates_cluster_ca _ _ _ _ _ _ _ E) as (source & err & Hca & ->).
    vm_compute in Hca. injection Hca as <- <-. split; [reflexivity |].
    vm_compute in E. injection E as <-. vm_compute. eauto.
Qed.

End DiscoveryFacts.

(** ** Base64 *)

Module Base64Facts.
Import Base64 Base64Spec.

Ltac Zify.zify_post_hook ::= Z.to_euclidean_division_equations.

Lemma byteVal_range (b : byte) : 0 <= byteVal b < 256.
Proof.
  unfold byteVal. pose proof (Byte.to_N_bounded b) as H. lia.
Qed.

Lemma lor_add (n a b : Z) :
  0 <= n -> a mod 2 ^ n = 0 -> 0 <= b < 2 ^ n -> Z.lor a b = a + b.
Proof.
  intros Hn Ha Hb.
  assert (Hland : Z.land a b = 0).
  { apply Z.bits_inj'. intros m Hm. rewrite Z.land_spec, Z.bits_0.
    destruct (Z.lt_ge_cases m n) as [Hlt | Hge].
    - rewrite <- (Z.mod_pow2_bits_low a n m) by lia. rewrite Ha, Z.bits_0. reflexivity.
    - destruct (Z.eq_dec b 0) as [-> | Hnz]; [now rewrite Z.bits_0, andb_false_r |].
      rewrite (Z.bits_above_log2 b m), andb_false_r; [reflexivity | lia |].
      apply Z.log2_lt_pow2; [lia |].
      apply Z.lt_le_trans with (2 ^ n); [lia | apply Z.pow_le_mono_r; lia]. }
  rewrite <- Z.lxor_lor by exact Hland. symmetry. now apply Z.add_nocarry_lxor.
Qed.

Lemma land_63 v : Z.land v 63 = v mod 64.
Proof. change 63 with (Z.ones 6). now rewrite Z.land_ones by lia. Qed.

Lemma land_255 v : Z.land v 255 = v mod 256.
Proof. change 255 with (Z.ones 8). now rewrite Z.land_ones by lia. Qed.

Lemma toByte_byteVal (v : Z) (b : byte) : v mod 256 = byteVal b -> toByte v = b.
Proof.
  intros H. unfold toByte. rewrite land_255, H. unfold byteVal.
  now rewrite N2Z.id, Byte.of_to_N.
Qed.

Lemma alphabet_checked : forallb alphabetOK (map Z.of_nat (seq 0 64)) = true.
Proof. vm_compute. reflexivity. Qed.

(** Decoding a character of the alphabet gives back its six bits. *)
Lemma dec_enc (v : Z) : dec (enc v) = Some (v mod 64).
Proof.
  assert (Hsame : enc v = enc (v mod 64)).
  { unfold enc. rewrite !land_63. now rewrite Z.mod_mod by lia. }
  rewrite Hsame.
  pose proof alphabet_checked as H. rewrite forallb_forall in H.
  specialize (H (v mod 64)).
  unfold alphabetOK in H.
  destruct (dec (enc (v mod 64))) as [j|].
  - f_equal. apply Z.eqb_eq. apply H. apply in_map_iff.
    exists (Z.to_nat (v mod 64)). split; [lia |]. apply in_seq. lia.
  - exfalso. assert (false = true); [| discriminate]. apply H. apply in_map_iff.
    exists (Z.to_nat (v mod 64)). split; [lia |]. apply in_seq. lia.
Qed.

Ltac pows :=
  repeat match goal with
         | |- context [2 ^ ?k] =>
             let v := eval compute in (2 ^ k) in change (2 ^ k) with v
         end.

(** The value of a group, from its bytes and from its characters. *)
Lemma pack3 (x0 x1 x2 : Z) :
  0 <= x0 < 256 -> 0 <= x1 < 256 -> 0 <= x2 < 256 ->
  Z.lor (Z.lor (Z.shiftl x0 16) (Z.shiftl x1 8)) x2 = x0 * 65536 + x1 * 256 + x2.
Proof.
  intros H0 H1 H2. rewrite !Z.shiftl_mul_pow2 by lia.
  rewrite (lor_add 16 (x0 * 2 ^ 16) (x1 * 2 ^ 8)) by (pows; lia).
  rewrite (lor_add 8) by (pows; lia). pows; lia.
Qed.

Lemma pack2 (x0 x1 : Z) :
  0 <= x0 < 256 -> 0 <= x1 < 256 ->
  Z.lor (Z.shiftl x0 16) (Z.shiftl x1 8) = x0 * 65536 + x1 * 256.
Proof.
  intros H0 H1. rewrite !Z.shiftl_mul_pow2 by lia.
  rewrite (lor_add 16 (x0 * 2 ^ 16) (x1 * 2 ^ 8)) by (pows; lia). pows; lia.
Qed.

Lemma unpack4 (v : Z) :
  0 <= v < 16777216 ->
  Z.lor (Z.lor (Z.lor (Z.shiftl (Z.shiftr v 18 mod 64) 18)
                      (Z.shiftl (Z.shiftr v 12 mod 64) 12))
               (Z.shiftl (Z.shiftr v 6 mod 64) 6)) (v mod 64) = v.
Proof.
  intros Hv. rewrite !Z.shiftr_div_pow2, !Z.shiftl_mul_pow2 by lia.
  rewrite (lor_add 18 (_ * _) (_ * _)) by (pows; lia). rewrite (lor_add 12 (_ + _) (_ * _)) by (pows; lia).
  rewrite (lor_add 6) by (pows; lia). pows; lia.
Qed.

Lemma unpack3 (v : Z) :
  0 <= v < 16777216 ->
  Z.lor (Z.lor (Z.shiftl (Z.shiftr v 18 mod 64) 18)
               (Z.shiftl (Z.shiftr v 12 mod 64) 12))
        (Z.shiftl (Z.shiftr v 6 mod 64) 6) = v / 64 * 64.
Proof.
  intros Hv. rewrite !Z.shiftr_div_pow2, !Z.shiftl_mul_pow2 by lia.
  rewrite (lor_add 18 (_ * _) (_ * _)) by (pows; lia). rewrite (lor_add 12 (_ + _) (_ * _)) by (pows; lia).
  pows; lia.
Qed.

Lemma unpack2 (v : Z) :
  0 <= v < 16777216 ->
  Z.lor (Z.shiftl (Z.shiftr v 18 mod 64) 18) (Z.shiftl (Z.shiftr v 12 mod 64) 12)
  = v / 4096 * 4096.
Proof.
  intros Hv. rewrite !Z.shiftr_div_pow2, !Z.shiftl_mul_pow2 by lia.
  rewrite (lor_add 18 (_ * _) (_ * _)) by (pows; lia). pows; lia.
Qed.

(** A group of three bytes, through its four characters and back. *)
Lemma quantum3 (x0 x1 x2 : Z) :
  0 <= x0 < 256 -> 0 <= x1 < 256 -> 0 <= x2 < 256 ->
  let val := Z.lor (Z.lor (Z.shiftl x0 16) (Z.shiftl x1 8)) x2 in
  let val' := Z.lor (Z.lor (Z.lor (Z.shiftl (Z.shiftr val 18 mod 64) 18)
                                  (Z.shiftl (Z.shiftr val 12 mod 64) 12))
                           (Z.shiftl (Z.shiftr val 6 mod 64) 6)) (val mod 64) in
  Z.shiftr val' 16 mod 256 = x0 /\ Z.shiftr val' 8 mod 256 = x1 /\ val' mod 256 = x2.
Proof.
  intros H0 H1 H2. cbv zeta. rewrite pack3 by assumption.
  rewrite unpack4 by lia. rewrite !Z.shiftr_div_pow2 by lia. pows. lia.
Qed.

Lemma quantum2 (x0 x1 : Z) :
  0 <= x0 < 256 -> 0 <= x1 < 256 ->
  let val := Z.lor (Z.shiftl x0 16) (Z.shiftl x1 8) in
  let val' := Z.lor (Z.lor (Z.shiftl (Z.shiftr val 18 mod 64) 18)
                           (Z.shiftl (Z.shiftr val 12 mod 64) 12))
                    (Z.shiftl (Z.shiftr val 6 mod 64) 6) in
  Z.shiftr val' 16 mod 256 = x0 /\ Z.shiftr val' 8 mod 256 = x1.
Proof.
  intros H0 H1. cbv zeta. rewrite pack2 by assumption.
  rewrite unpack3 by lia. rewrite !Z.shiftr_div_pow2 by lia. pows. lia.
Qed.

Lemma quantum1 (x0 : Z) :
  0 <= x0 < 256 ->
  let val := Z.shiftl x0 16 in
  let val' := Z.lor (Z.shiftl (Z.shiftr val 18 mod 64) 18)
                    (Z.shiftl (Z.shiftr val 12 mod 64) 12) in
  Z.shiftr val' 16 mod 256 = x0.
Proof.
  intros H0. cbv zeta. rewrite (Z.shiftl_mul_pow2 x0 16) by lia.
  rewrite unpack2 by (pows; lia). rewrite !Z.shiftr_div_pow2 by lia. pows. lia.
Qed.

Lemma list_ind3 {A} (P : list A -> Prop) :
  P [] -> (forall a, P [a]) -> (forall a b, P [a; b]) ->
  (forall a b c l, P l -> P (a :: b :: c :: l)) ->
  forall l, P l.
Proof.
  intros H0 H1 H2 H3.
  assert (H : forall l, P l /\ (forall a, P (a :: l)) /\ (forall a b, P (a :: b :: l))).
  { induction l as [|x l (IH0 & IH1 & IH2)]; [now auto |].
    split; [apply IH1 |]. split; [intros a; apply IH2 |]. intros a b. now apply H3. }
  intros l. apply H.
Qed.

(** Decoding undoes encoding. *)
Lemma DecodeString_EncodeToString (src : list byte) :
  DecodeString (EncodeToString src) = Some src.
Proof.
  induction src as [| b0 | b0 b1 | b0 b1 b2 rest IH] using list_ind3.
  - reflexivity.
  - cbn [EncodeToString DecodeString]. rewrite !dec_enc.
    f_equal. f_equal. apply toByte_byteVal.
    apply (quantum1 (byteVal b0) (byteVal_range b0)).
  - cbn [EncodeToString DecodeString]. rewrite !dec_enc.
    destruct (quantum2 (byteVal b0) (byteVal b1) (byteVal_range b0) (byteVal_range b1))
      as (Q0 & Q1).
    f_equal. f_equal; [| f_equal]; apply toByte_byteVal; assumption.
  - cbn [EncodeToString DecodeString]. rewrite !dec_enc, IH.
    destruct (quantum3 (byteVal b0) (byteVal b1) (byteVal b2)
                (byteVal_range b0) (byteVal_range b1) (byteVal_range b2)) as (Q0 & Q1 & Q2).
    f_equal. f_equal; [| f_equal; [| f_equal]]; apply toByte_byteVal; assumption.
Qed.

End Base64Facts.

(** ** The presigned-request token *)

Module TokenFacts.
Import Auth.

Lemma prefix_append (p s : string) : String.prefix p (p +:+ s) = true.
Proof.
  induction p as [|c p IH]; simpl; [now destruct s |].
  destruct (ascii_dec c c) as [_ | Hne]; [exact IH | now elim Hne].
Qed.

Lemma prefix_append_r (p s t : string) :
  String.prefix p s = true -> String.prefix p (s +:+ t) = true.
Proof.
  revert s. induction p as [|c p IH]; intros s H; simpl; [now destruct (s +:+ t) |].
  destruct s as [|d s]; simpl in H; [discriminate |]. simpl.
  destruct (ascii_dec c d); [now apply IH | discriminate].
Qed.

Lemma Contains_append_r (s t sub : string) :
  Strings.Contains s sub = true -> Strings.Contains (s +:+ t) sub = true.
Proof.
  induction s as [|c s IH]; simpl; intros H.
  - rewrite orb_false_r in H. destruct sub; [| discriminate].
    destruct t; reflexivity.
  - apply orb_true_iff in H. apply orb_true_iff. destruct H as [H | H].
    + left. now apply (prefix_append_r sub (String c s) t).
    + right. now apply IH.
Qed.

Lemma Contains_append_l (s t sub : string) :
  Strings.Contains t sub = true -> Strings.Contains (s +:+ t) sub = true.
Proof.
  induction s as [|c s IH]; simpl; intros H; [exact H |].
  apply orb_true_iff. right. now apply IH.
Qed.

Lemma Contains_prefix (sub t : string) : Strings.Contains (sub +:+ t) sub = true.
Proof.
  assert (H : forall s, String.prefix sub s = true -> Strings.Contains s sub = true).
  { intros [|c s] Hp; simpl in *; rewrite Hp; reflexivity. }
  apply H, prefix_append.
Qed.

(** What [withClusterID] returns, by cases. *)
Lemma withClusterID_cases (urlStr clusterName : string) :
  withClusterID urlStr clusterName
  = if Strings.Contains urlStr "X-K8s-Aws-Id" then urlStr
    else urlStr +:+ (if Strings.Contains urlStr "?" then "&" else "?")
           +:+ "X-K8s-Aws-Id=" +:+ clusterName.
Proof.
  unfold withClusterID.
  destruct (Strings.Contains urlStr "X-K8s-Aws-Id"); [reflexivity |].
  cbn [negb Fmt.cat]. rewrite append_nil_r.
  destruct (Strings.Contains urlStr "?"); reflexivity.
Qed.

Lemma withClusterID_has_key (urlStr clusterName : string) :
  Strings.Contains (withClusterID urlStr clusterName) "X-K8s-Aws-Id" = true.
Proof.
  rewrite withClusterID_cases.
  destruct (Strings.Contains urlStr "X-K8s-Aws-Id") eqn:E; [exact E |].
  apply Contains_append_l, Contains_append_l.
  apply (Contains_append_r "X-K8s-Aws-Id" (String "=" clusterName)).
  apply (Contains_prefix "X-K8s-Aws-Id" "").
Qed.

Lemma withClusterID_has_cluster (urlStr clusterName : string) :
  Strings.Contains urlStr "X-K8s-Aws-Id" = false ->
  Strings.Contains (withClusterID urlStr clusterName) ("X-K8s-Aws-Id=" +:+ clusterName) = true.
Proof.
  intros E. rewrite withClusterID_cases, E.
  apply Contains_append_l, Contains_append_l.
  rewrite <- (append_nil_r ("X-K8s-Aws-Id=" +:+ clusterName)) at 1.
  apply Contains_prefix.
Qed.

Section Sdk.

Variable awsConfig : Type.
Variable LoadDefaultConfig : option StaticCredentials -> string -> result awsConfig.
Variable withCredentials : awsConfig -> StaticCredentials -> awsConfig.
Variable AssumeRole : awsConfig -> string -> string -> result StaticCredentials.
Variable GetCallerIdentity : awsConfig -> result unit.
Variable PresignGetCallerIdentity : awsConfig -> result string.
Variable cfg : Config.

Local Abbreviation GenerateToken :=
  (Auth.GenerateToken awsConfig LoadDefaultConfig withCredentials AssumeRole
     GetCallerIdentity PresignGetCallerIdentity cfg).

(** C5.  A token of [GenerateToken] is "k8s-aws-v1." followed by the
    unpadded URL-safe base64 of the presigned URL after annotation, and
    decoding what follows the prefix gives that URL back.  The
    annotation leaves a URL that contains "X-K8s-Aws-Id" as it is, and
    otherwise appends "X-K8s-Aws-Id=<clusterName>" after "&" when the URL
    contains "?", after "?" when it does not.  The decoded URL always
    contains "X-K8s-Aws-Id"; it contains "X-K8s-Aws-Id=<clusterName>"
    when the presigned URL did not contain "X-K8s-Aws-Id". *)
Theorem GenerateToken_payload (clusterName roleARNToAssume : string) :
  match GenerateToken clusterName roleARNToAssume with
  | Err _ => True
  | Ok token =>
      exists awsCfg urlStr,
        PresignGetCallerIdentity awsCfg = Ok urlStr /\
        let annotated := withClusterID urlStr clusterName in
        let encoded := Base64.EncodeToString (list_byte_of_string annotated) in
        token = "k8s-aws-v1." +:+ encoded /\
        Base64.DecodeString encoded = Some (list_byte_of_string annotated) /\
        annotated
        = (if Strings.Contains urlStr "X-K8s-Aws-Id" then urlStr
           else urlStr +:+ (if Strings.Contains urlStr "?" then "&" else "?")
                  +:+ "X-K8s-Aws-Id=" +:+ clusterName) /\
        Strings.Contains annotated "X-K8s-Aws-Id" = true /\
        (Strings.Contains urlStr "X-K8s-Aws-Id" = false ->
         Strings.Contains annotated ("X-K8s-Aws-Id=" +:+ clusterName) = true)
  end.
Proof.
  unfold Auth.GenerateToken.
  destruct (negb _ && negb _);
    (destruct (LoadDefaultConfig _ _) as [awsCfg | e]; [| exact I]);
    (destruct (negb (String.eqb roleARNToAssume ""));
     [destruct (AssumeRole _ _ _) as [creds | e]; [| exact I] |]);
    (match goal with
     | |- context [GetCallerIdentity ?c] =>
         destruct (GetCallerIdentity c) as [[] | e]; [| exact I];
         destruct (PresignGetCallerIdentity c) as [urlStr | e] eqn:Hurl; [| exact I];
         exists c, urlStr
     end);
    (split; [exact Hurl |]); cbv zeta;
    (split; [unfold tokenPayload; cbn [Fmt.cat]; now rewrite append_nil_r |]);
    (split; [apply Base64Facts.DecodeString_EncodeToString |]);
    (split; [apply withClusterID_cases |]);
    (split; [apply withClusterID_has_key | apply withClusterID_has_cluster]).
Qed.

(** When the SDK calls succeed, so does [GenerateToken]. *)
Lemma GenerateToken_succeeds clusterName awsCfg urlStr :
  AccessKeyID cfg = "" ->
  LoadDefaultConfig None (Region cfg) = Ok awsCfg ->
  GetCallerIdentity awsCfg = Ok tt ->
  PresignGetCallerIdentity awsCfg = Ok urlStr ->
  GenerateToken clusterName "" = Ok (tokenPayload (withClusterID urlStr clusterName)).
Proof.
  intros Hk Hc Hi Hp. unfold Auth.GenerateToken. rewrite Hk. simpl.
  now rewrite Hc, Hi, Hp.
Qed.

End Sdk.

Import SampleAws.

(** The example of the specification: cluster "demo", no role. *)
Example token_demo :
  exists token,
    generate plainURL "demo" "" = Ok token /\
    String.prefix "k8s-aws-v1." token = true /\
    Base64.DecodeString (remainder token)
    = Some (list_byte_of_string (plainURL +:+ "&X-K8s-Aws-Id=demo")).
Proof. eexists. repeat split; vm_compute; reflexivity. Qed.

(** C5, refuted as stated: a presigned URL that names another cluster
    under "X-K8s-Aws-Id" is left as it is, and the decoded token does
    not contain "X-K8s-Aws-Id=demo". *)
Lemma token_without_cluster_name :
  exists token,
    generate otherClusterURL "demo" "" = Ok token /\
    Base64.DecodeString (remainder token) = Some (list_byte_of_string otherClusterURL) /\
    Strings.Contains otherClusterURL "X-K8s-Aws-Id=demo" = false.
Proof. eexists. repeat split; vm_compute; reflexivity. Qed.

End TokenFacts.

(** ** Rounding to binary64 *)

Module Float64Facts.
Import Float64 Float64Spec.
Local Open Scope Q_scope.

Lemma pow2_pos k : 0 < pow2 k.
Proof. apply Qpower_0_lt. reflexivity. Qed.

Lemma pow2_add a b : pow2 (a + b) == pow2 a * pow2 b.
Proof. apply Qpower_plus. discriminate. Qed.

Lemma pow2_Z k : (0 <= k)%Z -> pow2 k == inject_Z (2 ^ k).
Proof. intros H. unfold pow2. now rewrite Zpower_Qpower. Qed.

Lemma pow2_le a b : (a <= b)%Z -> pow2 a <= pow2 b.
Proof. intros H. apply Qpower_le_compat_l; [exact H | discriminate]. Qed.

Lemma pow2_lt a b : (a < b)%Z -> pow2 a < pow2 b.
Proof. intros H. apply Qpower_lt_compat_l; [exact H | reflexivity]. Qed.

Lemma pow2_lt_inv a b : pow2 a < pow2 b -> (a < b)%Z.
Proof.
  intros H. destruct (Z.lt_ge_cases a b) as [Hlt | Hge]; [exact Hlt |].
  apply pow2_le in Hge. lra.
Qed.

Lemma pow2_succ a : pow2 (a + 1) == 2 * pow2 a.
Proof. rewrite pow2_add. change (pow2 1) with 2. ring. Qed.

Lemma pow2_pred a : pow2 (a - 1) == (1 # 2) * pow2 a.
Proof.
  assert (H : pow2 a == 2 * pow2 (a - 1)).
  { rewrite <- pow2_succ. now replace (a - 1 + 1)%Z with a by lia. }
  rewrite H. ring.
Qed.

(** *** The binade of a positive rational *)

Lemma ratio_lt (A B n d : Z) :
  (0 < B)%Z -> (0 < d)%Z -> (A * d < n * B)%Z ->
  inject_Z A / inject_Z B < inject_Z n / inject_Z d.
Proof.
  intros HB Hd H.
  assert (HB' : 0 < inject_Z B) by (rewrite <- (Zlt_Qlt 0); exact HB).
  assert (Hd' : 0 < inject_Z d) by (rewrite <- (Zlt_Qlt 0); exact Hd).
  apply Qlt_shift_div_l; [exact Hd' |].
  assert (E : inject_Z A / inject_Z B * inject_Z d == inject_Z (A * d) / inject_Z B).
  { rewrite inject_Z_mult. field. lra. }
  rewrite E. apply Qlt_shift_div_r; [exact HB' |].
  rewrite <- inject_Z_mult. rewrite <- Zlt_Qlt. exact H.
Qed.

Lemma pow2_sub a b :
  (0 <= a)%Z -> (0 <= b)%Z -> pow2 (a - b) == inject_Z (2 ^ a) / inject_Z (2 ^ b).
Proof.
  intros Ha Hb. replace (a - b)%Z with (a + - b)%Z by lia.
  rewrite pow2_add. unfold pow2 at 2. rewrite Qpower_opp. fold (pow2 b).
  rewrite <- !pow2_Z by assumption. reflexivity.
Qed.

Lemma ilog2_bounds x : 0 < x -> pow2 (ilog2 x) <= x /\ x < pow2 (ilog2 x + 1).
Proof.
  intros Hx. destruct x as [n d].
  assert (Hn : (0 < n)%Z) by (unfold Qlt in Hx; simpl in Hx; lia).
  unfold ilog2. cbn [Qnum Qden].
  set (a := Z.log2 n). set (b := Z.log2 (Zpos d)).
  pose proof (Z.log2_spec n Hn) as [Ha1 Ha2]. fold a in Ha1, Ha2.
  pose proof (Z.log2_spec (Zpos d) (Pos2Z.is_pos d)) as [Hb1 Hb2]. fold b in Hb1, Hb2.
  pose proof (Z.log2_nonneg n) as Ha0. fold a in Ha0.
  pose proof (Z.log2_nonneg (Zpos d)) as Hb0. fold b in Hb0.
  assert (Hx' : n # d == inject_Z n / inject_Z (Zpos d)) by apply Qmake_Qdiv.
  assert (Hpa : (0 < 2 ^ a)%Z) by (apply Z.pow_pos_nonneg; lia).
  assert (Hpb : (0 < 2 ^ b)%Z) by (apply Z.pow_pos_nonneg; lia).
  assert (Hlow : pow2 (a - b - 1) < n # d).
  { replace (a - b - 1)%Z with (a - (b + 1))%Z by lia.
    rewrite pow2_sub, Hx' by lia.
    apply ratio_lt; [apply Z.pow_pos_nonneg; lia | reflexivity |].
    replace (Z.succ b) with (b + 1)%Z in Hb2 by lia. nia. }
  assert (Hup : n # d < pow2 (a - b + 1)).
  { replace (a - b + 1)%Z with (a + 1 - b)%Z by lia.
    rewrite pow2_sub, Hx' by lia.
    apply ratio_lt; [reflexivity | exact Hpb |].
    replace (Z.succ a) with (a + 1)%Z in Ha2 by lia. nia. }
  destruct (Qle_bool (pow2 (a - b)) (n # d)) eqn:E.
  - apply Qle_bool_iff in E. split; [exact E | exact Hup].
  - assert (Hlt : n # d < pow2 (a - b)).
    { apply Qnot_le_lt. intros H. apply Qle_bool_iff in H. congruence. }
    split; [apply Qlt_le_weak, Hlow |].
    now replace (a - b - 1 + 1)%Z with (a - b)%Z by lia.
Qed.

Lemma ilog2_unique x k : pow2 k <= x -> x < pow2 (k + 1) -> ilog2 x = k.
Proof.
  intros H1 H2.
  assert (Hx : 0 < x) by (pose proof (pow2_pos k); lra).
  destruct (ilog2_bounds x Hx) as [B1 B2].
  assert (L1 : (k < ilog2 x + 1)%Z) by (apply pow2_lt_inv; lra).
  assert (L2 : (ilog2 x < k + 1)%Z) by (apply pow2_lt_inv; lra).
  lia.
Qed.

Lemma ilog2_comp x y : 0 < x -> x == y -> ilog2 x = ilog2 y.
Proof.
  intros Hx E. destruct (ilog2_bounds x Hx) as [B1 B2].
  symmetry. apply ilog2_unique; rewrite <- E; assumption.
Qed.

Lemma ilog2_lt x j : 0 < x -> x < pow2 j -> (ilog2 x < j)%Z.
Proof.
  intros Hx H. destruct (ilog2_bounds x Hx) as [B1 _].
  apply pow2_lt_inv. lra.
Qed.

Lemma ilog2_ge x j : pow2 j <= x -> (j <= ilog2 x)%Z.
Proof.
  intros H. assert (Hx : 0 < x) by (pose proof (pow2_pos j); lra).
  destruct (ilog2_bounds x Hx) as [_ B2].
  assert (L : (j < ilog2 x + 1)%Z) by (apply pow2_lt_inv; lra). lia.
Qed.

(** *** Rounding to an integer *)

Lemma rne_floor y : (Qfloor y <= rne y <= Qfloor y + 1)%Z.
Proof.
  unfold rne. destruct (Qcompare _ _); [destruct (Z.even _) | |]; lia.
Qed.

Lemma rne_near y : - (1 # 2) <= inject_Z (rne y) - y <= 1 # 2.
Proof.
  pose proof (Qfloor_le y) as H1. pose proof (Qlt_floor y) as H2.
  rewrite inject_Z_plus in H2. change (inject_Z 1) with 1 in H2.
  unfold rne.
  destruct (Qcompare_spec (y - inject_Z (Qfloor y)) (1 # 2)) as [E | E | E].
  - destruct (Z.even (Qfloor y)); [| rewrite inject_Z_plus; change (inject_Z 1) with 1]; lra.
  - lra.
  - rewrite inject_Z_plus. change (inject_Z 1) with 1. lra.
Qed.

Lemma rne_comp x y : x == y -> rne x = rne y.
Proof.
  intros E. unfold rne. rewrite (Qfloor_comp _ _ E).
  assert (E' : x - inject_Z (Qfloor y) == y - inject_Z (Qfloor y)) by (rewrite E; reflexivity).
  destruct (Qcompare_spec (x - inject_Z (Qfloor y)) (1 # 2)) as [C | C | C];
  destruct (Qcompare_spec (y - inject_Z (Qfloor y)) (1 # 2)) as [C' | C' | C'];
    try reflexivity; lra.
Qed.

Lemma rne_Z k : rne (inject_Z k) = k.
Proof.
  unfold rne. rewrite Qfloor_Z.
  destruct (Qcompare_spec (inject_Z k - inject_Z k) (1 # 2)) as [C | C | C];
    [lra | reflexivity | lra].
Qed.

Lemma rne_ge y j : inject_Z j <= y -> (j <= rne y)%Z.
Proof.
  intros H. apply Qfloor_resp_le in H. rewrite Qfloor_Z in H.
  pose proof (rne_floor y). lia.
Qed.

Lemma rne_le y j : y <= inject_Z j -> (rne y <= j)%Z.
Proof.
  intros H. pose proof (rne_near y) as [_ N].
  assert (L : inject_Z (rne y) < inject_Z (j + 1)).
  { rewrite inject_Z_plus. change (inject_Z 1) with 1. lra. }
  rewrite <- Zlt_Qlt in L. lia.
Qed.

(** *** Rounding to 53 bits *)

Lemma scaled_bounds x :
  0 < x -> pow2 52 <= x / pow2 (ilog2 x - 52) /\ x / pow2 (ilog2 x - 52) < pow2 53.
Proof.
  intros Hx. destruct (ilog2_bounds x Hx) as [B1 B2].
  set (e := (ilog2 x - 52)%Z) in *. pose proof (pow2_pos e) as He.
  assert (E1 : pow2 (ilog2 x) == pow2 52 * pow2 e).
  { rewrite <- pow2_add. now replace (52 + e)%Z with (ilog2 x) by (unfold e; lia). }
  assert (E2 : pow2 (ilog2 x + 1) == pow2 53 * pow2 e).
  { rewrite <- pow2_add. now replace (53 + e)%Z with (ilog2 x + 1)%Z by (unfold e; lia). }
  split.
  - apply Qle_shift_div_l; [exact He | lra].
  - apply Qlt_shift_div_r; [exact He | lra].
Qed.

(** The rounded value is a multiple [m * 2^e] of the unit of its binade,
    with a 53-bit [m], at most half a unit away. *)
Lemma round_pos_form x :
  0 < x ->
  exists m,
    round_pos x == inject_Z m * pow2 (ilog2 x - 52) /\
    (2 ^ 52 <= m <= 2 ^ 53)%Z /\
    - pow2 (ilog2 x - 53) <= round_pos x - x <= pow2 (ilog2 x - 53).
Proof.
  intros Hx. destruct (scaled_bounds x Hx) as [S1 S2].
  unfold round_pos. set (e := (ilog2 x - 52)%Z) in *. pose proof (pow2_pos e) as He.
  exists (rne (x / pow2 e)). split; [reflexivity |]. split.
  - split.
    + apply rne_ge. now rewrite <- pow2_Z by lia.
    + apply rne_le. rewrite <- pow2_Z by lia. lra.
  - pose proof (rne_near (x / pow2 e)) as [N1 N2].
    assert (Ex : x == x / pow2 e * pow2 e) by (field; lra).
    assert (Eh : pow2 (ilog2 x - 53) == (1 # 2) * pow2 e).
    { replace (ilog2 x - 53)%Z with (e - 1)%Z by (unfold e; lia). apply pow2_pred. }
    rewrite Eh.
    assert (D : inject_Z (rne (x / pow2 e)) * pow2 e - x
                == (inject_Z (rne (x / pow2 e)) - x / pow2 e) * pow2 e)
      by (rewrite Ex at 2; ring).
    rewrite D.
    generalize dependent (inject_Z (rne (x / pow2 e)) - x / pow2 e). intros t N1 N2 _.
    split.
    + assert (L : (- (1 # 2)) * pow2 e <= t * pow2 e)
        by (apply Qmult_le_compat_r; lra).
      generalize dependent (t * pow2 e). intros; lra.
    + assert (L : t * pow2 e <= (1 # 2) * pow2 e)
        by (apply Qmult_le_compat_r; lra).
      generalize dependent (t * pow2 e). intros; lra.
Qed.

Lemma round_pos_comp x y : 0 < x -> x == y -> round_pos x == round_pos y.
Proof.
  intros Hx E. unfold round_pos. rewrite <- (ilog2_comp x y Hx E).
  rewrite (rne_comp (x / pow2 (ilog2 x - 52)) (y / pow2 (ilog2 x - 52))); [reflexivity |].
  unfold Qdiv. apply Qmult_comp; [exact E | reflexivity].
Qed.

Lemma round_gt x : 0 < x -> round x = round_pos x.
Proof.
  intros H. unfold round.
  destruct (Qcompare_spec x 0) as [C | C | C]; [lra | lra | reflexivity].
Qed.

Lemma round_lt x : x < 0 -> round x = - round_pos (- x).
Proof.
  intros H. unfold round.
  destruct (Qcompare_spec x 0) as [C | C | C]; [lra | reflexivity | lra].
Qed.

Lemma round_eq0 x : x == 0 -> round x = 0.
Proof.
  intros H. unfold round.
  destruct (Qcompare_spec x 0) as [C | C | C]; [reflexivity | lra | lra].
Qed.

Lemma round_comp x y : x == y -> round x == round y.
Proof.
  intros E. destruct (Qcompare_spec x 0) as [C | C | C].
  - rewrite (round_eq0 x C), (round_eq0 y); [reflexivity | lra].
  - rewrite (round_lt x C), (round_lt y) by lra.
    apply Qopp_comp. apply round_pos_comp; lra.
  - rewrite (round_gt x C), (round_gt y) by lra. now apply round_pos_comp.
Qed.

Lemma round_opp x : round (- x) == - round x.
Proof.
  destruct (Qcompare_spec x 0) as [C | C | C].
  - rewrite (round_eq0 x C), (round_eq0 (- x)); [reflexivity | lra].
  - rewrite (round_lt x C), (round_gt (- x)) by lra. ring.
  - rewrite (round_gt x C), (round_lt (- x)) by lra.
    apply Qopp_comp. apply round_pos_comp; [lra | ring].
Qed.

Lemma round_pos_pos x : 0 < x -> 0 < round_pos x.
Proof.
  intros Hx. destruct (round_pos_form x Hx) as (m & E & [M1 _] & _).
  rewrite E. apply Qmult_lt_0_compat; [| apply pow2_pos].
  rewrite <- (Zlt_Qlt 0). assert ((0 < 2 ^ 52)%Z) by reflexivity. lia.
Qed.

Lemma round_nonneg x : 0 <= x -> 0 <= round x.
Proof.
  intros H. destruct (Qcompare_spec x 0) as [C | C | C]; [| lra |].
  - rewrite (round_eq0 x C). lra.
  - rewrite (round_gt x C). apply Qlt_le_weak, round_pos_pos, C.
Qed.

(** Below [2^53] the unit of the binade divides 1: rounding does not
    cross an integer. *)
Lemma unit_divides x :
  0 < x -> x < pow2 53 ->
  (0 <= - (ilog2 x - 52))%Z /\
  forall k, inject_Z k / pow2 (ilog2 x - 52) == inject_Z (k * 2 ^ (- (ilog2 x - 52))).
Proof.
  intros Hx H53. pose proof (ilog2_lt x 53 Hx H53) as L.
  split; [lia |]. intros k.
  set (e := (ilog2 x - 52)%Z). rewrite inject_Z_mult, <- pow2_Z by (unfold e; lia).
  unfold pow2 at 2. rewrite Qpower_opp. fold (pow2 e).
  field. pose proof (pow2_pos e). lra.
Qed.

Lemma round_le_Z x k : 0 < x -> x < pow2 53 -> x <= inject_Z k -> round x <= inject_Z k.
Proof.
  intros Hx H53 Hk. rewrite (round_gt x Hx). unfold round_pos.
  destruct (unit_divides x Hx H53) as [He Hdiv].
  set (e := (ilog2 x - 52)%Z) in *. pose proof (pow2_pos e) as Hp.
  assert (L : (rne (x / pow2 e) <= k * 2 ^ (- e))%Z).
  { apply rne_le. rewrite <- Hdiv. apply Qle_shift_div_l; [exact Hp |].
    assert (E : x / pow2 e * pow2 e == x) by (field; lra). lra. }
  rewrite Zle_Qle in L. rewrite <- Hdiv in L.
  apply Qmult_le_compat_r with (z := pow2 e) in L; [| lra].
  assert (E : inject_Z k / pow2 e * pow2 e == inject_Z k) by (field; lra). lra.
Qed.

Lemma round_ge_Z x k : 0 < x -> x < pow2 53 -> inject_Z k <= x -> inject_Z k <= round x.
Proof.
  intros Hx H53 Hk. rewrite (round_gt x Hx). unfold round_pos.
  destruct (unit_divides x Hx H53) as [He Hdiv].
  set (e := (ilog2 x - 52)%Z) in *. pose proof (pow2_pos e) as Hp.
  assert (L : (k * 2 ^ (- e) <= rne (x / pow2 e))%Z).
  { apply rne_ge. rewrite <- Hdiv. apply Qle_shift_div_l; [exact Hp |].
    assert (E : inject_Z k / pow2 e * pow2 e == inject_Z k) by (field; lra). lra. }
  rewrite Zle_Qle in L. rewrite <- Hdiv in L.
  apply Qmult_le_compat_r with (z := pow2 e) in L; [| lra].
  assert (E : inject_Z k / pow2 e * pow2 e == inject_Z k) by (field; lra). lra.
Qed.

(** Integers of magnitude below [2^53] are not changed. *)
Lemma of_int_exact k : (Z.abs k < 2 ^ 53)%Z -> of_int k == inject_Z k.
Proof.
  intros H. unfold of_int.
  assert (P : forall j, (0 < j < 2 ^ 53)%Z -> round (inject_Z j) == inject_Z j).
  { intros j Hj.
    assert (Hx : 0 < inject_Z j) by (rewrite <- (Zlt_Qlt 0); lia).
    assert (H53 : inject_Z j < pow2 53).
    { rewrite pow2_Z by lia. rewrite <- Zlt_Qlt. lia. }
    apply Qle_antisym; [apply round_le_Z | apply round_ge_Z]; try assumption; lra. }
  destruct (Z.lt_trichotomy k 0) as [Hneg | [-> | Hpos]].
  - assert (E : inject_Z k == - inject_Z (- k)) by (rewrite inject_Z_opp; ring).
    rewrite (round_comp _ _ E), round_opp, P by lia. rewrite inject_Z_opp. ring.
  - reflexivity.
  - apply P. lia.
Qed.

Lemma add_comp x x' y y' : x == x' -> y == y' -> add x y == add x' y'.
Proof. intros E1 E2. unfold add. apply round_comp. now rewrite E1, E2. Qed.

Lemma div_comp x x' y y' : x == x' -> y == y' -> div x y == div x' y'.
Proof. intros E1 E2. unfold div. apply round_comp. now rewrite E1, E2. Qed.

(** *** Conversion to an integer *)

Lemma to_int_nonneg x : 0 <= x -> to_int x = Qfloor x.
Proof.
  destruct x as [n d]. unfold Qle. simpl. intros H.
  unfold to_int. simpl. apply Z.quot_div_nonneg; lia.
Qed.

Lemma to_int_opp x : to_int (- x) = (- to_int x)%Z.
Proof. destruct x as [n d]. unfold to_int. simpl. apply Z.quot_opp_l. lia. Qed.

Lemma to_int_comp x y : x == y -> to_int x = to_int y.
Proof.
  intros E.
  assert (N : forall z, to_int z = (- to_int (- z))%Z) by (intros z; rewrite to_int_opp; lia).
  destruct (Qlt_le_dec x 0) as [Hneg | Hpos].
  - rewrite (N x), (N y). f_equal. rewrite !to_int_nonneg by lra.
    apply Qfloor_comp. now rewrite E.
  - rewrite !to_int_nonneg by lra. now apply Qfloor_comp.
Qed.

Lemma Qfloor_unique y k : inject_Z k <= y -> y < inject_Z (k + 1) -> Qfloor y = k.
Proof.
  intros H1 H2. apply Qfloor_resp_le in H1. rewrite Qfloor_Z in H1.
  pose proof (Qfloor_le y) as H3.
  assert (L : inject_Z (Qfloor y) < inject_Z (k + 1)) by lra.
  rewrite <- Zlt_Qlt in L. lia.
Qed.

Lemma Qfloor_nonneg y : 0 <= y -> (0 <= Qfloor y)%Z.
Proof. intros H. apply Qfloor_resp_le in H. exact H. Qed.

Lemma Qfloor_div (y : Q) (c : Z) :
  (0 < c)%Z -> Qfloor (y / inject_Z c) = (Qfloor y / c)%Z.
Proof.
  intros Hc. pose proof (Qfloor_le y) as F1. pose proof (Qlt_floor y) as F2.
  set (f := Qfloor y) in *. set (k := (f / c)%Z).
  assert (Hk : (c * k <= f < c * k + c)%Z).
  { unfold k. pose proof (Z.mul_div_le f c Hc). pose proof (Z.mul_succ_div_gt f c Hc). lia. }
  assert (Hc' : 0 < inject_Z c) by (rewrite <- (Zlt_Qlt 0); exact Hc).
  apply Qfloor_unique.
  - apply Qle_shift_div_l; [exact Hc' |]. rewrite <- inject_Z_mult.
    apply Qle_trans with (inject_Z f); [rewrite <- Zle_Qle; lia | exact F1].
  - apply Qlt_shift_div_r; [exact Hc' |]. rewrite <- inject_Z_mult.
    apply Qlt_le_trans with (inject_Z (f + 1)); [exact F2 | rewrite <- Zle_Qle; lia].
Qed.

(** *** Division by 24 *)

Lemma round_Exact53 x : 0 <= x -> x < pow2 53 -> Exact53 (round x).
Proof.
  intros H0 H53. destruct (Qcompare_spec x 0) as [C | C | C]; [| lra |].
  - left. now rewrite (round_eq0 x C).
  - right. rewrite (round_gt x C).
    destruct (round_pos_form x C) as (m & E & [M1 M2] & _).
    exists m, (ilog2 x - 52)%Z. split; [exact E |].
    pose proof (ilog2_lt x 53 C H53).
    assert ((0 < 2 ^ 52)%Z) by reflexivity. lia.
Qed.

(** Dividing such a value by 24 and rounding does not reach the next
    integer. *)
Lemma div24_below (h : Q) (K : Z) :
  0 < h -> Exact53 h -> h < inject_Z (24 * K) -> round (h / 24) < inject_Z K.
Proof.
  intros Hh [Hz | (m & e & E & [M1 M2] & He)] HK; [lra |].
  pose proof (pow2_pos e) as Hp.
  assert (Hx : 0 < h / 24) by (apply Qlt_shift_div_l; lra).
  rewrite (round_gt _ Hx).
  destruct (round_pos_form _ Hx) as (_ & _ & _ & _ & Up).
  (* the binade of h / 24 *)
  assert (Hm : inject_Z m <= pow2 53).
  { rewrite pow2_Z by lia. rewrite <- Zle_Qle. lia. }
  assert (Hh53 : h <= pow2 53 * pow2 e).
  { rewrite E. apply Qmult_le_compat_r; lra. }
  assert (Hbin : h / 24 < pow2 (e + 49)).
  { apply Qlt_shift_div_r; [reflexivity |].
    assert (E49 : pow2 (e + 49) == pow2 e * pow2 49) by apply pow2_add.
    rewrite E49. change (pow2 49) with (inject_Z (2 ^ 49)).
    change (pow2 53) with (inject_Z (2 ^ 53)) in Hh53.
    change (inject_Z (2 ^ 53)) with (9007199254740992 # 1) in Hh53.
    change (inject_Z (2 ^ 49)) with (562949953421312 # 1).
    remember (pow2 e) as p eqn:Heqp. clear Heqp. lra. }
  pose proof (ilog2_lt _ _ Hx Hbin) as Hlog.
  assert (Herr : pow2 (ilog2 (h / 24) - 53) <= pow2 (e - 5)) by (apply pow2_le; lia).
  assert (E5 : pow2 (e - 5) == (1 # 32) * pow2 e).
  { replace (e - 5)%Z with (e + -5)%Z by lia. rewrite pow2_add.
    change (pow2 (-5)) with (1 # 32). ring. }
  (* the distance of h from 24 K *)
  set (P := (2 ^ (- e))%Z).
  assert (HP : (0 < P)%Z) by (apply Z.pow_pos_nonneg; lia).
  assert (EP : pow2 e * inject_Z P == 1).
  { unfold P. rewrite <- pow2_Z by lia. rewrite <- pow2_add.
    now replace (e + - e)%Z with 0%Z by lia. }
  assert (Hint : (m + 1 <= 24 * K * P)%Z).
  { assert (L : inject_Z m < inject_Z (24 * K * P)).
    { rewrite inject_Z_mult.
      assert (T : h * inject_Z P == inject_Z m).
      { rewrite E. transitivity (inject_Z m * (pow2 e * inject_Z P)); [ring |].
        rewrite EP. ring. }
      rewrite <- T. apply Qmult_lt_compat_r; [rewrite <- (Zlt_Qlt 0); exact HP | exact HK]. }
    rewrite <- Zlt_Qlt in L. lia. }
  assert (Hgap : h + pow2 e <= inject_Z (24 * K)).
  { rewrite Zle_Qle, inject_Z_plus, !inject_Z_mult in Hint.
    rewrite inject_Z_mult.
    assert (T : (inject_Z m + inject_Z 1) * pow2 e
                <= inject_Z 24 * inject_Z K * inject_Z P * pow2 e)
      by (apply Qmult_le_compat_r; lra).
    assert (T1 : (inject_Z m + inject_Z 1) * pow2 e == h + pow2 e)
      by (rewrite E; change (inject_Z 1) with 1; ring).
    assert (T2 : inject_Z 24 * inject_Z K * inject_Z P * pow2 e == inject_Z 24 * inject_Z K).
    { transitivity (inject_Z 24 * inject_Z K * (pow2 e * inject_Z P)); [ring |].
      rewrite EP. ring. }
    lra. }
  assert (E24 : h / 24 == (1 # 24) * h) by (field).
  rewrite inject_Z_mult in Hgap. change (inject_Z 24) with 24 in Hgap.
  remember (pow2 (ilog2 (h / 24) - 53)) as u eqn:Hequ. clear Hequ.
  remember (round_pos (h / 24)) as r eqn:Heqr. clear Heqr.
  remember (h / 24) as x eqn:Heqx. clear Heqx.
  remember (pow2 (e - 5)) as v eqn:Heqv. clear Heqv.
  remember (pow2 e) as p eqn:Heqp. clear Heqp.
  lra.
Qed.

End Float64Facts.

(** ** Durations in hours *)

Module HoursFacts.
Import Float64 Float64Spec Float64Facts GoTime.
Local Open Scope Q_scope.

Lemma Exact53_comp h h' : h == h' -> Exact53 h -> Exact53 h'.
Proof.
  intros E [Z0 | (m & e & Em & Hm)]; [left; now rewrite <- E |].
  right. exists m, e. split; [now rewrite <- E | exact Hm].
Qed.

Lemma of_int_opp k : of_int (- k) == - of_int k.
Proof. unfold of_int. rewrite inject_Z_opp. apply round_opp. Qed.

(** [d.Hours()] of a duration that is not negative lies between the
    whole hours of [d] and the next hour, bounds included. *)
Lemma Hours_bounds (d : Duration) :
  (0 <= d <= 2 ^ 63)%Z ->
  inject_Z (d / Hour) <= Hours d /\ Hours d <= inject_Z (d / Hour + 1) /\
  Exact53 (Hours d).
Proof.
  intros Hd. unfold Hours.
  rewrite Z.quot_div_nonneg, Z.rem_mod_nonneg by (unfold Hour, Second; lia).
  set (hour := (d / Hour)%Z). set (nsec := (d mod Hour)%Z).
  assert (Hhour : (0 <= hour <= 2562047)%Z).
  { unfold hour, Hour, Second. split; [apply Z.div_pos; lia |].
    apply Z.lt_succ_r. apply Z.div_lt_upper_bound; [lia |].
    change (2 ^ 63)%Z with 9223372036854775808%Z in Hd. lia. }
  assert (Hnsec : (0 <= nsec < 3600000000000)%Z).
  { unfold nsec. apply Z.mod_pos_bound. reflexivity. }
  assert (E1 : of_int hour == inject_Z hour).
  { apply of_int_exact. change (2 ^ 53)%Z with 9007199254740992%Z. lia. }
  assert (E2 : of_int nsec == inject_Z nsec).
  { apply of_int_exact. change (2 ^ 53)%Z with 9007199254740992%Z. lia. }
  assert (E3 : of_int (60 * 60 * 1000000000) == inject_Z 3600000000000).
  { apply of_int_exact. reflexivity. }
  set (q := inject_Z nsec / inject_Z 3600000000000).
  set (f := round q).
  assert (Ef : div (of_int nsec) (of_int (60 * 60 * 1000000000)) == f)
    by (apply div_comp; assumption).
  assert (EH : add (of_int hour) (div (of_int nsec) (of_int (60 * 60 * 1000000000)))
               == round (inject_Z hour + f)) by (apply add_comp; assumption).
  assert (Hq : 0 <= q /\ q < 1).
  { unfold q. split.
    - apply Qle_shift_div_l; [reflexivity |]. rewrite Qmult_0_l. rewrite <- (Zle_Qle 0). lia.
    - apply Qlt_shift_div_r; [reflexivity |]. rewrite Qmult_1_l. rewrite <- Zlt_Qlt. lia. }
  assert (Hf : 0 <= f /\ f <= 1).
  { split; [apply round_nonneg, Hq |].
    clearbody q.
    destruct (Qcompare_spec q 0) as [C | C | C].
    - unfold f. rewrite (round_eq0 _ C). lra.
    - lra.
    - apply (round_le_Z _ 1 C); [| change (inject_Z 1) with 1; lra].
      apply Qlt_trans with 1; [apply Hq | reflexivity]. }
  assert (Hh0 : 0 <= inject_Z hour) by (rewrite <- (Zle_Qle 0); lia).
  assert (Hh1 : inject_Z hour <= 2562047) by (change 2562047 with (inject_Z 2562047);
                                               rewrite <- Zle_Qle; lia).
  assert (H53 : inject_Z hour + f < pow2 53).
  { change (pow2 53) with (inject_Z 9007199254740992).
    change (inject_Z 9007199254740992) with (9007199254740992 # 1). lra. }
  rewrite inject_Z_plus. change (inject_Z 1) with 1.
  assert (B : inject_Z hour <= round (inject_Z hour + f)
              /\ round (inject_Z hour + f) <= inject_Z hour + 1).
  { destruct (Qcompare_spec (inject_Z hour + f) 0) as [C | C | C].
    - rewrite (round_eq0 _ C). lra.
    - lra.
    - split; [apply (round_ge_Z _ hour C H53); lra |].
      apply Qle_trans with (inject_Z (hour + 1)).
      * apply (round_le_Z _ _ C H53).
        rewrite inject_Z_plus. change (inject_Z 1) with 1. lra.
      * rewrite inject_Z_plus. change (inject_Z 1) with 1. lra. }
  split; [rewrite EH; apply B |]. split; [rewrite EH; apply B |].
  apply (Exact53_comp (round (inject_Z hour + f))); [now symmetry |].
  apply round_Exact53; [lra | exact H53].
Qed.

(** [d.Hours()] as two roundings of exact quantities. *)
Lemma Hours_unfold (d : Duration) :
  (0 <= d <= 2 ^ 63)%Z ->
  Hours d == round (inject_Z (d / Hour)
                    + round (inject_Z (d mod Hour) / inject_Z 3600000000000)).
Proof.
  intros Hd. unfold Hours.
  rewrite Z.quot_div_nonneg, Z.rem_mod_nonneg by (unfold Hour, Second; lia).
  assert (Hhour : (0 <= d / Hour <= 2562047)%Z).
  { unfold Hour, Second. split; [apply Z.div_pos; lia |].
    apply Z.lt_succ_r. apply Z.div_lt_upper_bound; [lia |].
    change (2 ^ 63)%Z with 9223372036854775808%Z in Hd. lia. }
  assert (Hnsec : (0 <= d mod Hour < 3600000000000)%Z)
    by (apply Z.mod_pos_bound; reflexivity).
  apply add_comp; [| apply div_comp].
  - apply of_int_exact. change (2 ^ 53)%Z with 9007199254740992%Z. lia.
  - apply of_int_exact. change (2 ^ 53)%Z with 9007199254740992%Z. lia.
  - apply of_int_exact. reflexivity.
Qed.

(** Below 4096 hours the rounding does not reach the next hour. *)
Lemma Hours_small (d : Duration) :
  (0 <= d < 4096 * Hour)%Z -> Hours d < inject_Z (d / Hour + 1).
Proof.
  intros Hd.
  assert (Hd' : (0 <= d <= 2 ^ 63)%Z).
  { unfold Hour, Second in Hd. change (2 ^ 63)%Z with 9223372036854775808%Z. lia. }
  rewrite (Hours_unfold d Hd').
  set (hour := (d / Hour)%Z). set (nsec := (d mod Hour)%Z).
  assert (Hhour : (0 <= hour <= 4095)%Z).
  { unfold hour. split; [apply Z.div_pos; [lia | reflexivity] |].
    apply Z.lt_succ_r. apply Z.div_lt_upper_bound; [reflexivity | lia]. }
  assert (Hnsec : (0 <= nsec <= 3599999999999)%Z).
  { unfold nsec. pose proof (Z.mod_pos_bound d Hour eq_refl) as M.
    unfold Hour, Second in M. unfold Hour, Second. lia. }
  set (q := inject_Z nsec / inject_Z 3600000000000).
  assert (Eq : inject_Z 3600000000000 * q == inject_Z nsec) by (unfold q; field; discriminate).
  assert (N0 : 0 <= inject_Z nsec) by (rewrite <- (Zle_Qle 0); lia).
  assert (N1 : inject_Z nsec <= inject_Z 3599999999999) by (rewrite <- Zle_Qle; lia).
  change (inject_Z 3600000000000) with (3600000000000 # 1) in Eq.
  change (inject_Z 3599999999999) with (3599999999999 # 1) in N1.
  assert (Hq : 0 <= q /\ q < 1) by (clearbody q; split; lra).
  assert (Hf : 0 <= round q /\ round q <= q + (1 # 18014398509481984)).
  { split; [apply round_nonneg, Hq |].
    destruct (Qcompare_spec q 0) as [C | C | C].
    - rewrite (round_eq0 _ C). clearbody q. lra.
    - clearbody q. lra.
    - rewrite (round_gt _ C).
      destruct (round_pos_form q C) as (_ & _ & _ & _ & Up).
      assert (L : (ilog2 q - 53 <= -54)%Z).
      { pose proof (ilog2_lt q 0 C (proj2 Hq)). lia. }
      apply pow2_le in L. change (pow2 (-54)) with (1 # 18014398509481984) in L.
      remember (pow2 (ilog2 q - 53)) as u eqn:Hu. clear Hu.
      remember (round_pos q) as r eqn:Hr. clear Hr. clearbody q. lra. }
  set (f := round q) in *.
  assert (H0 : 0 <= inject_Z hour) by (rewrite <- (Zle_Qle 0); lia).
  assert (H1 : inject_Z hour <= 4095)
    by (change 4095 with (inject_Z 4095); rewrite <- Zle_Qle; lia).
  rewrite inject_Z_plus. change (inject_Z 1) with 1.
  destruct (Qcompare_spec (inject_Z hour + f) 0) as [C | C | C].
  - rewrite (round_eq0 _ C). lra.
  - lra.
  - rewrite (round_gt _ C).
    destruct (round_pos_form _ C) as (_ & _ & _ & _ & Up).
    assert (X12 : inject_Z hour + f < pow2 12).
    { change (pow2 12) with 4096. clearbody f q. lra. }
    assert (L : (ilog2 (inject_Z hour + f) - 53 <= -42)%Z).
    { pose proof (ilog2_lt _ 12 C X12). lia. }
    apply pow2_le in L. change (pow2 (-42)) with (1 # 4398046511104) in L.
    remember (pow2 (ilog2 (inject_Z hour + f) - 53)) as u eqn:Hu. clear Hu.
    remember (round_pos (inject_Z hour + f)) as r eqn:Hr. clear Hr.
    clearbody f q. lra.
Qed.

Lemma Hours_opp (d : Duration) : Hours (- d)%Z == - Hours d.
Proof.
  unfold Hours. rewrite Z.quot_opp_l, Z.rem_opp_l by (unfold Hour, Second; lia).
  set (c := of_int (60 * 60 * 1000000000)).
  assert (E1 : div (of_int (- Z.rem d Hour)) c == - div (of_int (Z.rem d Hour)) c).
  { unfold div. rewrite <- round_opp. apply round_comp.
    rewrite of_int_opp. unfold Qdiv. ring. }
  unfold add at 1. unfold add at 1. rewrite <- round_opp. apply round_comp.
  rewrite E1, of_int_opp. ring.
Qed.

(** The days of a duration that is not negative: the division by 24 in
    binary64 and the conversion to [int] give the floor of the exact
    quotient. *)
Lemma days_floor (d : Duration) :
  (0 <= d <= 2 ^ 63)%Z ->
  to_int (div (Hours d) (of_int 24)) = (Qfloor (Hours d) / 24)%Z.
Proof.
  intros Hd. destruct (Hours_bounds d Hd) as (B1 & B2 & Ex).
  assert (Hhour : (0 <= d / Hour <= 2562047)%Z).
  { unfold Hour, Second. split; [apply Z.div_pos; lia |].
    apply Z.lt_succ_r. apply Z.div_lt_upper_bound; [lia |].
    change (2 ^ 63)%Z with 9223372036854775808%Z in Hd. lia. }
  assert (H0 : 0 <= Hours d).
  { apply Qle_trans with (inject_Z (d / Hour)); [rewrite <- (Zle_Qle 0); lia | exact B1]. }
  assert (Hup : Hours d <= 2562048).
  { apply Qle_trans with (inject_Z (d / Hour + 1)); [exact B2 |].
    change 2562048 with (inject_Z 2562048). rewrite <- Zle_Qle. lia. }
  rewrite <- (Qfloor_div (Hours d) 24) by reflexivity.
  change (inject_Z 24) with 24.
  assert (E24 : of_int 24 == 24) by (apply (of_int_exact 24); reflexivity).
  rewrite (to_int_comp _ (round (Hours d / 24)))
    by (apply div_comp; [reflexivity | exact E24]).
  assert (Hx0 : 0 <= Hours d / 24) by (apply Qle_shift_div_l; [reflexivity | lra]).
  rewrite to_int_nonneg by (apply round_nonneg, Hx0).
  destruct (Qcompare_spec (Hours d) 0) as [C | C | C]; [| lra |].
  - assert (Ez : Hours d / 24 == 0) by (rewrite C; reflexivity).
    rewrite (round_eq0 _ Ez). now rewrite Ez.
  - assert (Hx : 0 < Hours d / 24) by (apply Qlt_shift_div_l; [reflexivity | lra]).
    assert (Hx53 : Hours d / 24 < pow2 53).
    { apply Qlt_shift_div_r; [reflexivity |].
      change (pow2 53) with (9007199254740992 # 1). lra. }
    pose proof (Qfloor_le (Hours d / 24)) as F1.
    pose proof (Qlt_floor (Hours d / 24)) as F2.
    set (k := Qfloor (Hours d / 24)) in *.
    apply Qfloor_unique.
    + apply (round_ge_Z _ k Hx Hx53 F1).
    + apply (div24_below (Hours d) (k + 1) C Ex).
      rewrite inject_Z_mult. change (inject_Z 24) with 24.
      assert (E : Hours d == 24 * (Hours d / 24)) by field.
      remember (Hours d / 24) as x eqn:Heqx. clear Heqx. lra.
Qed.

Lemma div_opp_l x y : div (- x) y == - div x y.
Proof.
  unfold div. rewrite <- round_opp. apply round_comp. unfold Qdiv. ring.
Qed.

Lemma Hours_nonneg (d : Duration) : (0 <= d <= 2 ^ 63)%Z -> 0 <= Hours d.
Proof.
  intros Hd. destruct (Hours_bounds d Hd) as (B1 & _ & _).
  apply Qle_trans with (inject_Z (d / Hour)); [| exact B1].
  rewrite <- (Zle_Qle 0). apply Z.div_pos; [lia | reflexivity].
Qed.

(** The days of any duration: the whole part of [d.Hours()], divided by
    24, truncated toward zero. *)
Lemma days_trunc (d : Duration) :
  (- 2 ^ 63 <= d <= 2 ^ 63)%Z ->
  to_int (div (Hours d) (of_int 24)) = Z.quot (to_int (Hours d)) 24.
Proof.
  intros Hd.
  assert (P : forall d', (0 <= d' <= 2 ^ 63)%Z ->
              to_int (div (Hours d') (of_int 24)) = Z.quot (to_int (Hours d')) 24).
  { intros d' Hd'. rewrite (days_floor d' Hd').
    pose proof (Hours_nonneg d' Hd') as H0.
    rewrite (to_int_nonneg _ H0).
    pose proof (Qfloor_nonneg _ H0) as F.
    symmetry. apply Z.quot_div_nonneg; lia. }
  destruct (Z.le_gt_cases 0 d) as [Hpos | Hneg]; [apply P; lia |].
  replace d with (- (- d))%Z by lia.
  set (d' := (- d)%Z). assert (Hd' : (0 <= d' <= 2 ^ 63)%Z) by (unfold d'; lia).
  rewrite (to_int_comp (div (Hours (- d')%Z) (of_int 24)) (- div (Hours d') (of_int 24))).
  - rewrite (to_int_comp (Hours (- d')%Z) (- Hours d')) by apply Hours_opp.
    rewrite !to_int_opp, (P d' Hd'). rewrite Z.quot_opp_l by lia. reflexivity.
  - rewrite <- div_opp_l. apply div_comp; [apply Hours_opp | reflexivity].
Qed.

(** The whole part of [d.Hours()] is the whole hours of [d], or one
    hour more in magnitude. *)
Lemma Hours_whole (d : Duration) :
  (0 <= d <= 2 ^ 63)%Z ->
  (d / Hour <= to_int (Hours d) <= d / Hour + 1)%Z.
Proof.
  intros Hd. destruct (Hours_bounds d Hd) as (B1 & B2 & _).
  rewrite (to_int_nonneg _ (Hours_nonneg d Hd)).
  apply Qfloor_resp_le in B1, B2. rewrite Qfloor_Z in B1, B2. lia.
Qed.

(** Outside the last hour before a whole day, the days are those of the
    whole hours of [d]. *)
Lemma days_exact (d : Duration) :
  (- 2 ^ 63 <= d <= 2 ^ 63)%Z ->
  Z.abs (Z.rem (Z.quot d Hour) 24) <> 23%Z ->
  to_int (div (Hours d) (of_int 24)) = Z.quot (Z.quot d Hour) 24.
Proof.
  intros Hd Hlast. rewrite (days_trunc d Hd).
  assert (P : forall d', (0 <= d' <= 2 ^ 63)%Z -> ((d' / Hour) mod 24 <> 23)%Z ->
              (to_int (Hours d') / 24 = d' / Hour / 24)%Z).
  { intros d' Hd' Hl. pose proof (Hours_whole d' Hd') as W.
    generalize dependent (to_int (Hours d')). generalize dependent (d' / Hour)%Z.
    intros h Hl t W.
    pose proof (Z.div_mod h 24). pose proof (Z.mod_pos_bound h 24).
    pose proof (Z.div_mod t 24). pose proof (Z.mod_pos_bound t 24). nia. }
  assert (Hpos : forall d', (0 <= d' <= 2 ^ 63)%Z -> (0 <= d' / Hour)%Z)
    by (intros; apply Z.div_pos; [lia | reflexivity]).
  destruct (Z.le_gt_cases 0 d) as [Hnn | Hneg].
  - assert (Hd' : (0 <= d <= 2 ^ 63)%Z) by lia.
    pose proof (Hpos d Hd') as Hq. pose proof (Hours_whole d Hd') as W.
    rewrite (Z.quot_div_nonneg d Hour) in * by (unfold Hour, Second; lia).
    rewrite Z.rem_mod_nonneg in Hlast by lia.
    rewrite !Z.quot_div_nonneg by lia.
    apply P; [exact Hd' |].
    pose proof (Z.mod_pos_bound (d / Hour) 24). lia.
  - set (d' := (- d)%Z). assert (Hd' : (0 <= d' <= 2 ^ 63)%Z) by (unfold d'; lia).
    replace d with (- d')%Z in * by (unfold d'; lia).
    pose proof (Hpos d' Hd') as Hq. pose proof (Hours_whole d' Hd') as W.
    rewrite (to_int_comp (Hours (- d')%Z) (- Hours d')) by apply Hours_opp.
    rewrite to_int_opp.
    rewrite (Z.quot_opp_l d' Hour) in * by (unfold Hour, Second; lia).
    rewrite (Z.quot_div_nonneg d' Hour) in * by (unfold Hour, Second; lia).
    rewrite Z.rem_opp_l in Hlast by lia.
    rewrite Z.rem_mod_nonneg in Hlast by lia.
    rewrite !Z.quot_opp_l by lia. f_equal.
    rewrite !Z.quot_div_nonneg by lia.
    apply P; [exact Hd' |].
    pose proof (Z.mod_pos_bound (d' / Hour) 24). lia.
Qed.

(** Below 4096 hours, in either direction, the days are those of the
    whole hours of [d]. *)
Lemma days_exact_small (d : Duration) :
  (Z.abs d < 4096 * Hour)%Z ->
  to_int (div (Hours d) (of_int 24)) = Z.quot (Z.quot d Hour) 24.
Proof.
  intros Hd.
  assert (R : (- 2 ^ 63 <= d <= 2 ^ 63)%Z).
  { unfold Hour, Second in Hd. change (2 ^ 63)%Z with 9223372036854775808%Z. lia. }
  rewrite (days_trunc d R). f_equal.
  assert (P : forall d', (0 <= d' < 4096 * Hour)%Z -> to_int (Hours d') = (d' / Hour)%Z).
  { intros d' Hd'.
    assert (R' : (0 <= d' <= 2 ^ 63)%Z).
    { unfold Hour, Second in Hd'. change (2 ^ 63)%Z with 9223372036854775808%Z. lia. }
    destruct (Hours_bounds d' R') as (B1 & _ & _).
    rewrite (to_int_nonneg _ (Hours_nonneg d' R')).
    apply Qfloor_unique; [exact B1 | apply Hours_small, Hd']. }
  destruct (Z.le_gt_cases 0 d) as [Hnn | Hneg].
  - rewrite (P d) by lia. symmetry. apply Z.quot_div_nonneg; [lia | reflexivity].
  - set (d' := (- d)%Z). assert (Hd' : (0 <= d' < 4096 * Hour)%Z) by (unfold d'; lia).
    replace d with (- d')%Z by (unfold d'; lia).
    rewrite (to_int_comp (Hours (- d')%Z) (- Hours d')) by apply Hours_opp.
    rewrite to_int_opp, (P d' Hd').
    rewrite Z.quot_opp_l by (unfold Hour, Second; lia). f_equal.
    symmetry. apply Z.quot_div_nonneg; [lia | reflexivity].
Qed.

End HoursFacts.

(** ** The remaining-time text *)

Module FormatFacts.
Import Float64 Float64Facts GoTime HoursFacts Handlers FormatSpec.

(** [formatDuration] is the text of the specification for the hours that
    [d.Hours()] returns, a binary64 value: "Expired" below zero, then
    years, months, days or hours by the thresholds 365, 30 and 0 on
    [floor(hours/24)], each second clause left out when it is zero. *)
Lemma formatDuration_FormatHours (d : Duration) :
  minDuration <= d <= maxDuration ->
  formatDuration d = if d <? 0 then "Expired"%string else FormatHours (Hours d).
Proof.
  intros Hd. unfold formatDuration, FormatHours.
  destruct (Z.ltb_spec d 0) as [Hneg | Hnn]; [reflexivity |].
  assert (Hd' : 0 <= d <= 2 ^ 63) by (unfold maxDuration in Hd; lia).
  cbv zeta. rewrite (days_floor d Hd').
  pose proof (Hours_nonneg d Hd') as H0.
  rewrite (to_int_nonneg _ H0).
  change (Hours d / 24)%Q with (Hours d / inject_Z 24)%Q.
  rewrite (Qfloor_div (Hours d) 24) by reflexivity.
  pose proof (Qfloor_nonneg _ H0) as F.
  rewrite (Z.rem_mod_nonneg (Qfloor (Hours d)) 24) by lia.
  set (days := Qfloor (Hours d) / 24).
  assert (Hdays : 0 <= days) by (apply Z.div_pos; lia).
  set (hours := Qfloor (Hours d) mod 24).
  assert (Hhours : 0 <= hours) by (apply Z.mod_pos_bound; lia).
  assert (R : forall c, 0 < c -> Z.quot days c = days / c /\ Z.rem days c = days mod c
                                 /\ 0 <= days mod c).
  { intros c Hc. split; [apply Z.quot_div_nonneg; lia |].
    split; [apply Z.rem_mod_nonneg; lia | apply Z.mod_pos_bound; lia]. }
  assert (T : forall r, 0 <= r -> (0 <? r) = negb (r =? 0)).
  { intros r Hr. destruct (Z.ltb_spec 0 r), (Z.eqb_spec r 0); simpl; lia. }
  destruct (365 <? days).
  - destruct (R 365 ltac:(lia)) as (-> & -> & Hr). rewrite (T _ Hr).
    destruct (days mod 365 =? 0); cbn [negb Fmt.cat]; rewrite !append_nil_r; reflexivity.
  - destruct (30 <? days).
    + destruct (R 30 ltac:(lia)) as (-> & -> & Hr). rewrite (T _ Hr).
      destruct (days mod 30 =? 0); cbn [negb Fmt.cat]; rewrite !append_nil_r; reflexivity.
    + destruct (0 <? days).
      * rewrite (T _ Hhours).
        destruct (hours =? 0); cbn [negb Fmt.cat]; rewrite !append_nil_r; reflexivity.
      * cbn [Fmt.cat]. now rewrite append_nil_r.
Qed.

Lemma Qfloor_inject_div (a b : Z) : 0 < b -> Qfloor (inject_Z a / inject_Z b) = a / b.
Proof.
  intros Hb. destruct b as [| p | p]; try lia.
  unfold Qdiv, Qinv, Qmult, Qfloor, inject_Z. cbn [Qnum Qden].
  rewrite Z.mul_1_r, Pos.mul_1_l. reflexivity.
Qed.

(** The whole hours of a duration. *)
Lemma Qfloor_hoursOf (d : Duration) : Qfloor (hoursOf d) = d / Hour.
Proof. apply Qfloor_inject_div. reflexivity. Qed.

(** The text depends on the hours through their whole part only. *)
Lemma FormatHours_floor (h h' : Q) :
  Qfloor h = Qfloor h' -> FormatHours h = FormatHours h'.
Proof.
  intros E. unfold FormatHours.
  change (h / 24)%Q with (h / inject_Z 24)%Q.
  change (h' / 24)%Q with (h' / inject_Z 24)%Q.
  rewrite !Qfloor_div by reflexivity. now rewrite E.
Qed.

(** Above 30 days the text depends on the days only. *)
Lemma FormatHours_days (h h' : Q) :
  Qfloor h / 24 = Qfloor h' / 24 -> 30 < Qfloor h / 24 -> FormatHours h = FormatHours h'.
Proof.
  intros E Hlong. unfold FormatHours.
  change (h / 24)%Q with (h / inject_Z 24)%Q.
  change (h' / 24)%Q with (h' / inject_Z 24)%Q.
  rewrite !Qfloor_div by reflexivity. rewrite <- E. cbv zeta.
  destruct (365 <? Qfloor h / 24); [reflexivity |].
  destruct (Z.ltb_spec 30 (Qfloor h / 24)); [reflexivity | lia].
Qed.

(** C8.  For the hours that [d.Hours()] returns, [formatDuration] is the
    text of the specification.  It is the text for the hours of the
    duration itself when [d] is negative or shorter than 4096 hours, or
    not within the last hour of a day of its own; there [d.Hours()], a
    binary64 sum, can be the next whole hour. *)
Theorem formatDuration_FormatRemaining (d : Duration) :
  minDuration <= d <= maxDuration ->
  formatDuration d = (if d <? 0 then "Expired"%string else FormatHours (Hours d)) /\
  (d < 4096 * Hour \/ (d / Hour) mod 24 <> 23 -> formatDuration d = FormatRemaining d).
Proof.
  intros Hd. split; [apply formatDuration_FormatHours, Hd |].
  intros Hexact. rewrite (formatDuration_FormatHours d Hd). unfold FormatRemaining.
  destruct (Z.ltb_spec d 0) as [Hneg | Hnn]; [reflexivity |].
  assert (Hd' : 0 <= d <= 2 ^ 63) by (unfold maxDuration in Hd; lia).
  pose proof (Hours_nonneg d Hd') as H0.
  pose proof (to_int_nonneg _ H0) as Hfloor.
  pose proof (Hours_whole d Hd') as W. rewrite Hfloor in W.
  destruct (Z.lt_ge_cases d (4096 * Hour)) as [Hsmall | Hlarge].
  - apply FormatHours_floor. rewrite Qfloor_hoursOf.
    destruct (Hours_bounds d Hd') as (B1 & _ & _).
    apply Qfloor_unique; [exact B1 | apply Hours_small; lia].
  - destruct Hexact as [Hsmall | Hlast]; [lia |].
    assert (Hh : 4096 <= d / Hour) by (apply Z.div_le_lower_bound; [reflexivity | lia]).
    assert (Edays : Qfloor (Hours d) / 24 = Qfloor (hoursOf d) / 24).
    { rewrite Qfloor_hoursOf.
      remember (Qfloor (Hours d)) as t eqn:Et. remember (d / Hour) as h eqn:Eh.
      clear Et Eh Hfloor H0.
      pose proof (Z.div_mod h 24). pose proof (Z.mod_pos_bound h 24).
      pose proof (Z.div_mod t 24). pose proof (Z.mod_pos_bound t 24). nia. }
    apply FormatHours_days; [exact Edays |].
    rewrite Edays, Qfloor_hoursOf.
    assert (170 <= d / Hour / 24) by (apply Z.div_le_lower_bound; lia). lia.
Qed.

(** C8, at 400 days. *)
Lemma formatDuration_FormatRemaining_witness :
  formatDuration (400 * 24 * Hour)
  = (if 400 * 24 * Hour <? 0 then "Expired"%string
     else FormatHours (Hours (400 * 24 * Hour))) /\
  formatDuration (400 * 24 * Hour) = FormatRemaining (400 * 24 * Hour).
Proof.
  assert (Hd : minDuration <= 400 * 24 * Hour <= maxDuration)
    by (unfold minDuration, maxDuration, Hour, Second; lia).
  destruct (formatDuration_FormatRemaining (400 * 24 * Hour) Hd) as [H1 H2].
  split; [exact H1 |]. apply H2. right. vm_compute. discriminate.
Defined.

(** C8, refuted as stated for the hours of the duration: one nanosecond
    before 366 days the duration has 365 whole days, and 12 months and 5
    days; [d.Hours()] is 8784, and [formatDuration] gives a year and a
    day.  Likewise one nanosecond before 171 days. *)
Lemma formatDuration_rounds_up :
  minDuration <= 366 * 24 * Hour - 1 <= maxDuration /\
  FormatRemaining (366 * 24 * Hour - 1) = "12 months, 5 days"%string /\
  formatDuration (366 * 24 * Hour - 1) = "1 years, 1 days"%string /\
  FormatRemaining (171 * 24 * Hour - 1) = "5 months, 20 days"%string /\
  formatDuration (171 * 24 * Hour - 1) = "5 months, 21 days"%string.
Proof.
  split; [unfold minDuration, maxDuration, Hour, Second; lia |].
  repeat split; vm_compute; reflexivity.
Qed.

(** The table of the specification. *)
Example formatDuration_table :
  formatDuration (400 * 24 * Hour) = "1 years, 35 days" /\
  formatDuration (40 * 24 * Hour) = "1 months, 10 days" /\
  formatDuration ((5 * 24 + 3) * Hour) = "5 days, 3 hours" /\
  formatDuration (7 * Hour) = "7 hours" /\
  formatDuration (-1) = "Expired".
Proof. repeat split; vm_compute; reflexivity. Qed.

(** The same table, for the text of the specification. *)
Example FormatRemaining_table :
  FormatRemaining (400 * 24 * Hour) = "1 years, 35 days"%string /\
  FormatRemaining (40 * 24 * Hour) = "1 months, 10 days"%string /\
  FormatRemaining ((5 * 24 + 3) * Hour) = "5 days, 3 hours"%string /\
  FormatRemaining (7 * Hour) = "7 hours"%string /\
  FormatRemaining (-1) = "Expired"%string.
Proof. repeat split; vm_compute; reflexivity. Qed.

End FormatFacts.

(** ** Expiry fields of a parsed certificate *)

Module ExpiryFacts.
Import Utils GoTime Float64 HoursFacts SamplePem.

Lemma Sub_range (t u : Time) : minDuration <= Sub t u <= maxDuration.
Proof.
  unfold Sub. destruct (Z.ltb_spec (t - u) minDuration);
    [| destruct (Z.ltb_spec maxDuration (t - u))]; unfold minDuration, maxDuration in *; lia.
Qed.

Lemma Sub_exact (t u : Time) :
  minDuration <= t - u <= maxDuration -> Sub t u = t - u.
Proof.
  intros H. unfold Sub. destruct (Z.ltb_spec (t - u) minDuration); [lia |].
  destruct (Z.ltb_spec maxDuration (t - u)); [lia | reflexivity].
Qed.

(** The two derived fields of the record built at clock reading [now]. *)
Lemma certInfo_expiry (now : Time) (cert : Certificate) :
  let d := Sub (cNotAfter cert) now in
  (IsExpired (certInfo now cert) = true <-> cNotAfter cert < now) /\
  DaysUntilExp (certInfo now cert) = Z.quot (to_int (Hours d)) 24 /\
  (minDuration <= cNotAfter cert - now <= maxDuration ->
   Z.abs (cNotAfter cert - now) < 4096 * Hour \/
   Z.abs (Z.rem (Z.quot (cNotAfter cert - now) Hour) 24) <> 23 ->
   DaysUntilExp (certInfo now cert) = Z.quot (Z.quot (cNotAfter cert - now) Hour) 24).
Proof.
  cbv zeta. cbn [IsExpired DaysUntilExp certInfo]. unfold daysUntil, After.
  pose proof (Sub_range (cNotAfter cert) now) as R.
  assert (R' : - 2 ^ 63 <= Sub (cNotAfter cert) now <= 2 ^ 63)
    by (unfold minDuration, maxDuration in R; lia).
  split; [apply Z.ltb_lt |]. split; [apply (days_trunc _ R') |].
  intros Hfit Hcase. rewrite (Sub_exact _ _ Hfit) in *.
  destruct Hcase as [Hsmall | Hlast]; [now apply days_exact_small | now apply days_exact].
Qed.

Section Parsers.

Variable pemDecode : list byte -> option Block * list byte.
Variable x509ParseCertificate : list byte -> result Certificate.
Variable now : Time.

(** C4.  For a certificate parsed at [now], with [d] the duration
    [NotAfter.Sub(now)], which is the difference when that fits in 64-bit
    nanoseconds and the nearest bound otherwise: [IsExpired] holds exactly
    when [now] is after [NotAfter]; [DaysUntilExp] is the whole part of
    [d.Hours()] divided by 24 and truncated toward zero; and it is the
    whole hours from [now] to [NotAfter] divided by 24 and truncated
    toward zero when the difference fits and is either shorter than
    4096 hours or outside the last hour before a whole number of days. *)
Theorem ParseCertificate_expiry (certPEM : string) (info : CertificateInfo) :
  Utils.ParseCertificate pemDecode x509ParseCertificate now certPEM = Ok info ->
  let d := Sub (NotAfter info) now in
  (IsExpired info = true <-> NotAfter info < now) /\
  DaysUntilExp info = Z.quot (to_int (Hours d)) 24 /\
  (minDuration <= NotAfter info - now <= maxDuration ->
   Z.abs (NotAfter info - now) < 4096 * Hour \/
   Z.abs (Z.rem (Z.quot (NotAfter info - now) Hour) 24) <> 23 ->
   DaysUntilExp info = Z.quot (Z.quot (NotAfter info - now) Hour) 24).
Proof.
  intros H. apply ParserFacts.ParseCertificate_certInfo in H.
  destruct H as (cert & ->).
  exact (certInfo_expiry now cert).
Qed.

End Parsers.

(** C4, on the sample certificate, which ends ten days after the clock
    reading. *)
Lemma ParseCertificate_expiry_witness :
  let info := Samples.endingIn "CN=a" 864000 in
  let d := Sub (NotAfter info) 0 in
  (IsExpired info = true <-> NotAfter info < 0) /\
  DaysUntilExp info = Z.quot (to_int (Hours d)) 24 /\
  (minDuration <= NotAfter info - 0 <= maxDuration ->
   Z.abs (NotAfter info - 0) < 4096 * Hour \/
   Z.abs (Z.rem (Z.quot (NotAfter info - 0) Hour) 24) <> 23 ->
   DaysUntilExp info = Z.quot (Z.quot (NotAfter info - 0) Hour) 24).
Proof.
  apply (ParseCertificate_expiry SamplePem.decode SamplePem.parse 0 SamplePem.oneCert).
  vm_compute. reflexivity.
Defined.

(** C4, refuted as stated.  A certificate that ends in 9999, parsed in
    2026: the duration is cut to the largest [Duration] and the record
    says 106751 days, where the whole hours to [NotAfter] make 2912442
    days.  A certificate that ends one nanosecond less than 171 days
    after the clock reading: [d.Hours()] is rounded to 4104 and the
    record says 171 days, where the whole hours, 4103, make 170. *)
Lemma ParseCertificate_days_not_exact :
  (exists info,
     Utils.ParseCertificate SamplePem.decode SamplePem.parse year2026 noExpiry = Ok info /\
     DaysUntilExp info = 106751 /\
     Z.quot (Z.quot (NotAfter info - year2026) Hour) 24 = 2912442) /\
  (exists info,
     Utils.ParseCertificate SamplePem.decode SamplePem.parse 1 days171 = Ok info /\
     DaysUntilExp info = 171 /\
     Z.quot (NotAfter info - 1) Hour = 4103 /\
     Z.quot (Z.quot (NotAfter info - 1) Hour) 24 = 170).
Proof.
  split; eexists; (split; [vm_compute; reflexivity |]); repeat split; vm_compute; reflexivity.
Qed.

End ExpiryFacts.

(** ** The rounding model against the kernel's binary64 *)

Module Float64CheckFacts.
Import Float64Check.
Import (notations) PrimFloat.

(** [Hours] one nanosecond before 4104 hours, before 4096 hours, of the
    largest duration with its division by 24, and a quotient that is
    not exact: the model and the primitive operations agree. *)
Example agrees_4104 :
  agrees (4103 + 3599999999999 / 3600000000000)%float
         (GoTime.Hours (4104 * GoTime.Hour - 1)) = true /\
  Qeq_bool (GoTime.Hours (4104 * GoTime.Hour - 1)) 4104 = true.
Proof. split; vm_compute; reflexivity. Qed.

Example agrees_4096 :
  agrees (4095 + 3599999999999 / 3600000000000)%float
         (GoTime.Hours (4096 * GoTime.Hour - 1)) = true.
Proof. vm_compute. reflexivity. Qed.

Example agrees_maxDuration :
  agrees ((2562047 + 2836854775807 / 3600000000000) / 24)%float
         (Float64.div (GoTime.Hours GoTime.maxDuration) (Float64.of_int 24)) = true.
Proof. vm_compute. reflexivity. Qed.

Example agrees_third : agrees (1 / 3)%float (Float64.div 1 3) = true.
Proof. vm_compute. reflexivity. Qed.

Example agrees_negative :
  agrees (-4103 + -3599999999999 / 3600000000000)%float
         (GoTime.Hours (- (4104 * GoTime.Hour - 1))) = true.
Proof. vm_compute. reflexivity. Qed.

End Float64CheckFacts.

(** * Further properties of the parsers, the discovery and the handlers *)

(** ** Key usage labels *)

Module UsageFacts.
Import Utils UsageSpec.

Lemma land_bit (ku n : Z) :
  0 <= n -> (Z.land ku (Z.shiftl 1 n) =? 0) = negb (Z.testbit ku n).
Proof.
  intros Hn. rewrite Z.shiftl_1_l.
  destruct (Z.testbit ku n) eqn:E; simpl.
  - apply Z.eqb_neq. intros H.
    assert (T : Z.testbit (Z.land ku (2 ^ n)) n = true)
      by (rewrite Z.land_spec, E, Z.pow2_bits_true by lia; reflexivity).
    rewrite H in T. now rewrite Z.bits_0 in T.
  - apply Z.eqb_eq. apply Z.bits_inj'. intros m Hm.
    rewrite Z.land_spec, Z.bits_0, Z.pow2_bits_eqb by lia.
    destruct (Z.eqb_spec n m) as [<- | _]; [now rewrite E | apply andb_false_r].
Qed.

Lemma usageLabels_labelsOf (ku : Z) : usageLabels ku = labelsOf ku.
Proof.
  unfold usageLabels, labelsOf, labelsByBit, KeyUsageDigitalSignature,
    KeyUsageKeyEncipherment, KeyUsageDataEncipherment, KeyUsageKeyAgreement,
    KeyUsageCertSign, KeyUsageCRLSign.
  rewrite !land_bit by lia. cbn [List.filter fst snd map].
  destruct (Z.testbit ku 0), (Z.testbit ku 2), (Z.testbit ku 3), (Z.testbit ku 4),
    (Z.testbit ku 5), (Z.testbit ku 6); reflexivity.
Qed.

(** X1.  The labels of a key usage mask are those of the bits 0, 2, 3, 4,
    5 and 6 that are set, in this order; no other bit of the mask, the
    content commitment bit 1 among them, changes the labels. *)
Theorem usageLabels_bits (ku : Z) :
  usageLabels ku = labelsOf ku /\
  usageLabels (Z.land ku 125) = usageLabels ku.
Proof.
  split; [apply usageLabels_labelsOf |].
  rewrite !usageLabels_labelsOf. unfold labelsOf, labelsByBit.
  cbn [List.filter fst snd map]. rewrite !Z.land_spec.
  change (Z.testbit 125 0) with true. change (Z.testbit 125 2) with true.
  change (Z.testbit 125 3) with true. change (Z.testbit 125 4) with true.
  change (Z.testbit 125 5) with true. change (Z.testbit 125 6) with true.
  now rewrite !andb_true_r.
Qed.

End UsageFacts.

(** ** The sign and the zero of [DaysUntilExp] *)

Module ExpirySignFacts.
Import Utils GoTime Float64 Float64Facts HoursFacts.

Ltac Zify.zify_post_hook ::= Z.to_euclidean_division_equations.

Lemma to_int_Hours_opp (d : Duration) : to_int (Hours (- d)) = - to_int (Hours d).
Proof. rewrite (to_int_comp _ _ (Hours_opp d)). apply to_int_opp. Qed.

(** The whole hours of a duration, up to one, in either direction. *)
Lemma to_int_Hours_range (d : Duration) :
  - 2 ^ 63 <= d <= 2 ^ 63 ->
  (0 <= d -> d / Hour <= to_int (Hours d) <= d / Hour + 1) /\
  (d <= 0 -> - (- d / Hour) - 1 <= to_int (Hours d) <= - (- d / Hour)).
Proof.
  intros Hd. split; intros Hs.
  - apply Hours_whole. lia.
  - replace d with (- - d) at 2 3 by lia. rewrite to_int_Hours_opp.
    pose proof (Hours_whole (- d) ltac:(lia)). lia.
Qed.

Lemma Sub_cases (t u : Time) :
  - 2 ^ 63 <= Sub t u <= 2 ^ 63 /\
  (t < u -> Sub t u < 0) /\ (u <= t -> 0 <= Sub t u) /\
  (forall b, 0 <= b < 2 ^ 62 ->
     (Z.abs (t - u) < b -> Sub t u = t - u) /\
     (b <= t - u -> b <= Sub t u) /\ (t - u <= - b -> Sub t u <= - b)).
Proof.
  unfold Sub, minDuration, maxDuration.
  destruct (Z.ltb_spec (t - u) (- 2 ^ 63)); [| destruct (Z.ltb_spec (2 ^ 63 - 1) (t - u))];
    (split; [lia |]); (split; [lia |]); (split; [lia |]); intros b Hb; lia.
Qed.

(** X2.  In the record of a certificate an expired certificate never has
    a positive number of days left, and one that is not expired never has
    a negative number. *)
Theorem certInfo_days_sign (now : Time) (cert : Certificate) :
  if IsExpired (certInfo now cert) then DaysUntilExp (certInfo now cert) <= 0
  else 0 <= DaysUntilExp (certInfo now cert).
Proof.
  cbn [IsExpired DaysUntilExp certInfo]. unfold daysUntil, After.
  destruct (Sub_cases (cNotAfter cert) now) as (R & Hneg & Hpos & _).
  rewrite (days_trunc _ R).
  destruct (to_int_Hours_range _ R) as [Hp Hn].
  assert (0 < Hour) by reflexivity.
  destruct (Z.ltb_spec (cNotAfter cert) now) as [Hlt | Hge].
  - specialize (Hn ltac:(lia)).
    assert (0 <= - Sub (cNotAfter cert) now / Hour) by (apply Z.div_pos; lia).
    lia.
  - specialize (Hp (Hpos Hge)).
    assert (0 <= Sub (cNotAfter cert) now / Hour) by (apply Z.div_pos; lia).
    lia.
Qed.

(** X3.  The number of days left is zero exactly when the certificate
    ends less than 24 hours after, or ended less than 24 hours before,
    the clock reading. *)
Theorem certInfo_zero_days (now : Time) (cert : Certificate) :
  DaysUntilExp (certInfo now cert) = 0
  <-> - (24 * Hour) < cNotAfter cert - now < 24 * Hour.
Proof.
  cbn [DaysUntilExp certInfo]. unfold daysUntil.
  destruct (Sub_cases (cNotAfter cert) now) as (R & _ & _ & B).
  destruct (B (4096 * Hour) ltac:(unfold Hour, Second; lia)) as (Hsmall & Hup & Hdown).
  destruct (Z_lt_le_dec (Z.abs (cNotAfter cert - now)) (4096 * Hour)) as [Hs | Hl].
  - rewrite (Hsmall Hs). rewrite (days_exact_small _ Hs).
    unfold Hour, Second in *. lia.
  - rewrite (days_trunc _ R).
    destruct (to_int_Hours_range _ R) as [Hp Hn].
    unfold Hour, Second in *.
    destruct (Z_le_gt_dec 0 (cNotAfter cert - now)) as [H0 | H0].
    + specialize (Hup ltac:(lia)). specialize (Hp ltac:(lia)). lia.
    + specialize (Hdown ltac:(lia)). specialize (Hn ltac:(lia)). lia.
Qed.

End ExpirySignFacts.

(** ** Warnings and the status summary *)

Module AlertFacts.
Import Utils Handlers.

Lemma ValidateCertificateExpiry_flat_map certs warningDays :
  ValidateCertificateExpiry certs warningDays = flat_map (expiryWarning warningDays) certs.
Proof. unfold ValidateCertificateExpiry. now rewrite fold_left_app_acc. Qed.

(** A record gives no warning exactly when it is not expired and ends
    after the threshold. *)
Lemma expiryWarning_nil warningDays cert :
  expiryWarning warningDays cert = []
  <-> IsExpired cert = false /\ warningDays < DaysUntilExp cert.
Proof.
  unfold expiryWarning. destruct (IsExpired cert).
  - split; [discriminate | intros [? _]; discriminate].
  - destruct (Z.leb_spec (DaysUntilExp cert) warningDays).
    + split; [discriminate | lia].
    + split; [split; [reflexivity | lia] | reflexivity].
Qed.

Lemma expiryWarning_length warningDays cert :
  (length (expiryWarning warningDays cert) <= 1)%nat.
Proof.
  unfold expiryWarning.
  destruct (IsExpired cert); [| destruct (DaysUntilExp cert <=? warningDays)]; simpl; lia.
Qed.

Lemma ValidateCertificateExpiry_length certs warningDays :
  (length (ValidateCertificateExpiry certs warningDays) <= length certs)%nat.
Proof.
  rewrite ValidateCertificateExpiry_flat_map.
  induction certs as [|cert certs IH]; simpl; [lia |].
  rewrite length_app. pose proof (expiryWarning_length warningDays cert). lia.
Qed.

Lemma ValidateCertificateExpiry_nil certs warningDays :
  ValidateCertificateExpiry certs warningDays = []
  <-> Forall (fun c => IsExpired c = false /\ warningDays < DaysUntilExp c) certs.
Proof.
  rewrite ValidateCertificateExpiry_flat_map.
  induction certs as [|cert certs IH]; simpl.
  - split; [constructor | reflexivity].
  - split.
    + intros H. apply app_eq_nil in H as [H1 H2].
      constructor; [now apply expiryWarning_nil | now apply IH].
    + intros H. inversion H as [|? ? H1 H2]; subst.
      apply expiryWarning_nil in H1. apply IH in H2. now rewrite H1, H2.
Qed.

Lemma firstAlert_None certs warningDays :
  firstAlert certs warningDays = None
  <-> Forall (fun c => IsExpired c = false /\ warningDays < DaysUntilExp c) certs.
Proof.
  induction certs as [|cert certs IH]; simpl.
  - split; [constructor | reflexivity].
  - destruct (IsExpired cert) eqn:E.
    + split; [discriminate | intros H; inversion H as [|? ? [? _] _]; congruence].
    + destruct (Z.leb_spec (DaysUntilExp cert) warningDays).
      * split; [discriminate | intros H'; inversion H' as [|? ? [_ ?] _]; lia].
      * rewrite IH. split; [intros H'; constructor; [split; [exact E | lia] | exact H']
                           | intros H'; now inversion H'].
Qed.

(** A label of the first loop starts with the letter E. *)
Lemma firstAlert_label certs warningDays label :
  firstAlert certs warningDays = Some label -> exists rest, label = String "E" rest.
Proof.
  induction certs as [|c certs IH]; simpl; [discriminate |].
  destruct (IsExpired c); [intros [= <-]; eauto |].
  destruct (DaysUntilExp c <=? warningDays); [intros [= <-]; eauto | exact IH].
Qed.

(** The summary starts with "VALID (" exactly when the first loop finds
    no record to report, for a list that is not empty. *)
Lemma summary_VALID certs warningDays :
  String.prefix "VALID (" (getExpiryStatusSummary certs warningDays) = true
  <-> certs <> [] /\ firstAlert certs warningDays = None.
Proof.
  unfold getExpiryStatusSummary. destruct certs as [|cert0 certs]; [simpl; split |].
  - discriminate.
  - intros [H _]. now elim H.
  - destruct (firstAlert (cert0 :: certs) warningDays) as [label|] eqn:E.
    + split; [| intros [_ H]; discriminate].
      apply firstAlert_label in E as [rest ->]. discriminate.
    + split; [intros _; split; [discriminate | reflexivity] |].
      intros _. cbn [Fmt.cat]. apply TokenFacts.prefix_append.
Qed.

(** X4.  Raising the threshold never takes a warning away: what
    [ValidateCertificateExpiry] returns for a threshold is among what it
    returns for any greater one, with the same text. *)
Theorem ValidateCertificateExpiry_monotone
    (certs : list CertificateInfo) (warningDays warningDays' : Z) :
  warningDays <= warningDays' ->
  incl (ValidateCertificateExpiry certs warningDays)
       (ValidateCertificateExpiry certs warningDays') /\
  (length (ValidateCertificateExpiry certs warningDays)
   <= length (ValidateCertificateExpiry certs warningDays'))%nat.
Proof.
  intros Hle. rewrite !ValidateCertificateExpiry_flat_map.
  assert (S : forall cert, expiryWarning warningDays cert = []
                           \/ expiryWarning warningDays cert = expiryWarning warningDays' cert).
  { intros cert. unfold expiryWarning. destruct (IsExpired cert); [now right |].
    destruct (Z.leb_spec (DaysUntilExp cert) warningDays); [| now left].
    destruct (Z.leb_spec (DaysUntilExp cert) warningDays'); [now right | lia]. }
  induction certs as [|cert certs [IHi IHl]]; simpl.
  - split; [apply incl_refl | lia].
  - rewrite !length_app. destruct (S cert) as [-> | ->]; simpl; split.
    + now apply incl_appr.
    + lia.
    + apply incl_app; [apply incl_appl, incl_refl | now apply incl_appr].
    + lia.
Qed.

Lemma ValidateCertificateExpiry_monotone_witness :
  incl (ValidateCertificateExpiry [Samples.soonRecord; Samples.expiredRecord] 5)
       (ValidateCertificateExpiry [Samples.soonRecord; Samples.expiredRecord] 30) /\
  (length (ValidateCertificateExpiry [Samples.soonRecord; Samples.expiredRecord] 5)
   <= length (ValidateCertificateExpiry [Samples.soonRecord; Samples.expiredRecord] 30))%nat.
Proof.
  apply (ValidateCertificateExpiry_monotone [Samples.soonRecord; Samples.expiredRecord] 5 30).
  lia.
Defined.

(** X5.  The two reports on a list of records agree:
    [ValidateCertificateExpiry] returns no warning exactly when the list
    is empty or the summary of [getExpiryStatusSummary] starts with
    "VALID (". *)
Theorem warnings_none_iff_summary_valid (certs : list CertificateInfo) (warningDays : Z) :
  ValidateCertificateExpiry certs warningDays = []
  <-> certs = [] \/
      String.prefix "VALID (" (getExpiryStatusSummary certs warningDays) = true.
Proof.
  rewrite ValidateCertificateExpiry_nil, summary_VALID, firstAlert_None.
  destruct certs as [|cert certs].
  - split; [now left | constructor].
  - split; [intros H; right; split; [discriminate | exact H] |].
    intros [H | [_ H]]; [discriminate | exact H].
Qed.

End AlertFacts.

(** ** The warnings of a map of sources *)

Module SourceWarningsFacts.
Import Utils K8s K8sWarnings HandlerCore.

Lemma tagged_fold sourceName (warnings allWarnings : list string) :
  fold_left (fun allWarnings warning => allWarnings ++ [tagged sourceName warning])
            warnings allWarnings
  = allWarnings ++ map (tagged sourceName) warnings.
Proof.
  revert allWarnings. induction warnings as [|w warnings IH]; intros acc; simpl.
  - now rewrite app_nil_r.
  - rewrite IH, <- app_assoc. reflexivity.
Qed.

(** The test on the number of certificates changes nothing: a source
    without certificates has no warnings. *)
Lemma GetCertificateExpiryWarnings_flat_map certSources warningDays :
  GetCertificateExpiryWarnings certSources warningDays
  = flat_map (fun entry => map (tagged (fst entry))
                             (ValidateCertificateExpiry (Certificates (snd entry)) warningDays))
             certSources.
Proof.
  unfold GetCertificateExpiryWarnings.
  set (step := fun (allWarnings : list string) (entry : string * CertificateSource) => _).
  set (g := fun entry : string * CertificateSource => _).
  assert (G : forall acc, fold_left step certSources acc = acc ++ flat_map g certSources).
  { induction certSources as [|[sourceName source] certSources IH]; intros acc; simpl.
    - now rewrite app_nil_r.
    - rewrite IH, app_assoc. f_equal. unfold step, g. cbn [fst snd].
      rewrite tagged_fold.
      destruct (Certificates source) as [|c l]; simpl; [now rewrite app_nil_r | reflexivity]. }
  apply G.
Qed.

Lemma getTotalCertificateCount_sum certSources :
  getTotalCertificateCount certSources
  = Z.of_nat (length (flat_map (fun entry => Certificates (snd entry)) certSources)).
Proof.
  unfold getTotalCertificateCount.
  assert (G : forall acc, fold_left (fun total entry =>
                 total + Z.of_nat (length (Certificates (snd entry)))) certSources acc
              = acc + Z.of_nat (length (flat_map (fun entry => Certificates (snd entry))
                                                 certSources))).
  { induction certSources as [|entry certSources IH]; intros acc; simpl; [lia |].
    rewrite IH, length_app. lia. }
  apply G.
Qed.

(** X6.  Whatever the order in which the map of sources is ranged over,
    [GetCertificateExpiryWarnings] returns the same warnings, up to their
    order. *)
Theorem GetCertificateExpiryWarnings_order
    (certSources certSources' : list (string * CertificateSource)) (warningDays : Z) :
  Permutation certSources certSources' ->
  Permutation (GetCertificateExpiryWarnings certSources warningDays)
              (GetCertificateExpiryWarnings certSources' warningDays).
Proof.
  intros H. rewrite !GetCertificateExpiryWarnings_flat_map.
  now apply Permutation_flat_map.
Qed.

Lemma GetCertificateExpiryWarnings_order_witness :
  Permutation
    (GetCertificateExpiryWarnings [SampleSources.soon; SampleSources.expired] 30)
    (GetCertificateExpiryWarnings [SampleSources.expired; SampleSources.soon] 30).
Proof.
  apply (GetCertificateExpiryWarnings_order [SampleSources.soon; SampleSources.expired]
           [SampleSources.expired; SampleSources.soon] 30).
  apply perm_swap.
Defined.

(** X7.  The warnings of a map of sources are never more than the
    certificates that [getTotalCertificateCount] counts in it, whatever
    the orders in which the two loops range over the map. *)
Theorem warnings_at_most_certificates
    (certSources certSources' : list (string * CertificateSource)) (warningDays : Z) :
  Permutation certSources certSources' ->
  Z.of_nat (length (GetCertificateExpiryWarnings certSources warningDays))
  <= getTotalCertificateCount certSources'.
Proof.
  intros Hperm.
  rewrite GetCertificateExpiryWarnings_flat_map, getTotalCertificateCount_sum.
  rewrite <- (Permutation_length
                (Permutation_flat_map (fun entry => Certificates (snd entry)) Hperm)).
  apply inj_le. clear Hperm.
  induction certSources as [|entry certSources IH]; simpl; [lia |].
  rewrite !length_app, length_map.
  pose proof (AlertFacts.ValidateCertificateExpiry_length (Certificates (snd entry)) warningDays).
  lia.
Qed.

Lemma warnings_at_most_certificates_witness :
  Z.of_nat (length (GetCertificateExpiryWarnings
                      [SampleSources.soon; SampleSources.expired] 30))
  <= getTotalCertificateCount [SampleSources.expired; SampleSources.soon].
Proof.
  apply (warnings_at_most_certificates [SampleSources.soon; SampleSources.expired]
           [SampleSources.expired; SampleSources.soon] 30).
  apply perm_swap.
Defined.

End SourceWarningsFacts.

(** ** Discovery: sources, keys and entries *)

Module SourceFacts.
Import Utils K8s DiscoverySpec.

Lemma append_inj_l (p a b : string) : p +:+ a = p +:+ b -> a = b.
Proof. induction p as [|c p IH]; simpl; [trivial |]. intros [= H]. now apply IH. Qed.

Lemma fromKey_fold key (certs allCerts : list CertificateInfo) :
  fold_left (fun acc cert => acc ++ [fromKey key cert]) certs allCerts
  = allCerts ++ map (fromKey key) certs.
Proof.
  revert allCerts. induction certs as [|c certs IH]; intros acc; simpl.
  - now rewrite app_nil_r.
  - rewrite IH, <- app_assoc. reflexivity.
Qed.

Lemma fromKey_Subject key cert :
  Subject (fromKey key cert) = Subject cert +:+ " (from " +:+ key +:+ ")".
Proof. unfold fromKey. cbn [Subject setSubject Fmt.cat]. now rewrite append_nil_r. Qed.

Lemma clusterCASubject_Subject cert :
  Subject (clusterCASubject cert) = Subject cert +:+ " (Kubernetes Cluster CA)".
Proof. unfold clusterCASubject. cbn [Subject setSubject Fmt.cat]. now rewrite append_nil_r. Qed.

Section Discovery.

Variable pemDecode : list byte -> option Block * list byte.
Variable x509ParseCertificate : list byte -> result Certificate.
Variable now : GoTime.Time.

Local Abbreviation ParseCertificate := (Utils.ParseCertificate pemDecode x509ParseCertificate now).
Local Abbreviation ParseCertificateBundle :=
  (Utils.ParseCertificateBundle pemDecode x509ParseCertificate now).
Local Abbreviation keysLoop := (K8s.keysLoop pemDecode x509ParseCertificate now).
Local Abbreviation ExtractCertificatesFromSecret :=
  (K8s.ExtractCertificatesFromSecret pemDecode x509ParseCertificate now).
Local Abbreviation ExtractCertificatesFromConfigMap :=
  (K8s.ExtractCertificatesFromConfigMap pemDecode x509ParseCertificate now).
Local Abbreviation GetClusterCACertificateInfo :=
  (K8s.GetClusterCACertificateInfo pemDecode x509ParseCertificate now).
Local Abbreviation volumeStep := (K8s.volumeStep pemDecode x509ParseCertificate now).
Local Abbreviation volumesLoop := (K8s.volumesLoop pemDecode x509ParseCertificate now).
Local Abbreviation AnalyzePodCertificates :=
  (K8s.AnalyzePodCertificates pemDecode x509ParseCertificate now).

Lemma ParseCertificateBundle_nonempty certBundle certs :
  ParseCertificateBundle certBundle = Some (Ok certs) -> certs <> [].
Proof.
  unfold Utils.ParseCertificateBundle, ParseCertificateBundleFuel.
  destruct (bundleLoop _ _ _ _ _ _) as [l|]; [| discriminate].
  unfold bundleResult. destruct l; simpl; [discriminate |].
  intros [= <-]. discriminate.
Qed.

(** The loop over the keys looks at the candidate keys only. *)
Lemma keysLoop_ext_in (lookup lookup' : string -> option string) certKeys allCerts :
  (forall key, In key certKeys -> lookup key = lookup' key) ->
  keysLoop lookup certKeys allCerts = keysLoop lookup' certKeys allCerts.
Proof.
  revert allCerts. induction certKeys as [|key certKeys IH]; intros allCerts Hext; simpl;
    [reflexivity |].
  rewrite <- (Hext key) by now left.
  assert (Hext' : forall key, In key certKeys -> lookup key = lookup' key)
    by (intros k Hk; apply Hext; now right).
  destruct (lookup key) as [certString|]; [| now apply IH].
  destruct (ParseCertificate certString); [now apply IH |].
  destruct (ParseCertificateBundle certString) as [[certs | e]|];
    [now apply IH | now apply IH | reflexivity].
Qed.

(** Every record that the loop adds carries the key it was found
    under. *)
Lemma keysLoop_annotated (lookup : string -> option string) (Q : CertificateInfo -> Prop)
    certKeys allCerts out :
  (forall key cert, In key certKeys -> is_Some (lookup key) -> Q (fromKey key cert)) ->
  Forall Q allCerts ->
  keysLoop lookup certKeys allCerts = Some out -> Forall Q out.
Proof.
  revert allCerts. induction certKeys as [|key certKeys IH]; intros allCerts HQ Hacc; simpl.
  - now intros [= <-].
  - assert (HQ' : forall key cert, In key certKeys -> is_Some (lookup key) ->
                                   Q (fromKey key cert))
      by (intros k c Hk; apply HQ; now right).
    destruct (lookup key) as [certString|] eqn:Hk; [| now apply IH].
    assert (Hhere : forall cert, Q (fromKey key cert))
      by (intros c; apply HQ; [now left | rewrite Hk; eauto]).
    destruct (ParseCertificate certString) as [cert | e].
    + apply IH; [exact HQ' |]. apply List.Forall_app. split; [exact Hacc |].
      constructor; [apply Hhere | constructor].
    + destruct (ParseCertificateBundle certString) as [[certs | e']|];
        [| now apply IH | discriminate].
      apply IH; [exact HQ' |]. rewrite fromKey_fold. apply List.Forall_app.
      split; [exact Hacc |]. apply List.Forall_forall. intros c Hc.
      apply in_map_iff in Hc as (c0 & <- & _). apply Hhere.
Qed.

(** X8.  The certificates of a secret that was fetched come from its
    candidate keys only: the subject of each ends with " (from <key>)"
    for a candidate key that the secret has. *)
Theorem ExtractCertificatesFromSecret_annotated
    (cs : Clientset) (namespace secretName : string) (source : CertificateSource) :
  ExtractCertificatesFromSecret cs namespace secretName = Some (source, None) ->
  exists secret,
    getSecret cs namespace secretName = Ok secret /\
    Forall (fun cert =>
              exists key base,
                In key secretCertKeys /\ is_Some (secretData secret !! key) /\
                Subject cert = base +:+ " (from " +:+ key +:+ ")")
           (Certificates source).
Proof.
  unfold K8s.ExtractCertificatesFromSecret.
  destruct (getSecret cs namespace secretName) as [secret | err]; [| discriminate].
  destruct (keysLoop _ _ _) as [allCerts|] eqn:E; [| discriminate].
  intros [= <-]. exists secret. split; [reflexivity |]. cbn [Certificates].
  refine (keysLoop_annotated _ _ _ _ _ _ _ E); [| constructor].
  intros key cert Hin Hsome. exists key, (Subject cert).
  split; [exact Hin |]. split; [| apply fromKey_Subject].
  unfold secretLookup in Hsome. destruct (secretData secret !! key); [eauto |].
  now destruct Hsome.
Qed.

(** X9.  What the extraction returns for a secret depends on the
    values under the fourteen candidate keys only: two secrets that agree
    on these give the same source, whatever else they hold. *)
Theorem ExtractCertificatesFromSecret_candidates
    (cs cs' : Clientset) (namespace secretName : string) (secret secret' : Secret) :
  getSecret cs namespace secretName = Ok secret ->
  getSecret cs' namespace secretName = Ok secret' ->
  (forall key, In key secretCertKeys -> secretData secret' !! key = secretData secret !! key) ->
  ExtractCertificatesFromSecret cs' namespace secretName
  = ExtractCertificatesFromSecret cs namespace secretName.
Proof.
  intros Hget Hget' Hsame. unfold K8s.ExtractCertificatesFromSecret. rewrite Hget, Hget'.
  rewrite (keysLoop_ext_in (secretLookup secret') (secretLookup secret)); [reflexivity |].
  intros key Hin. unfold secretLookup. now rewrite (Hsame key Hin).
Qed.

(** Keys that are absent are passed over. *)
Lemma keysLoop_absent (lookup : string -> option string) certKeys rest allCerts :
  (forall key, In key certKeys -> lookup key = None) ->
  keysLoop lookup (certKeys ++ rest) allCerts = keysLoop lookup rest allCerts.
Proof.
  induction certKeys as [|key certKeys IH]; intros Habsent; [reflexivity |].
  cbn [app K8s.keysLoop]. rewrite (Habsent key) by now left.
  apply IH. intros k Hk. apply Habsent. now right.
Qed.

Lemma secretCertKeys_NoDup : List.NoDup secretCertKeys.
Proof. apply NoDup_ListNoDup, (bool_decide_unpack _). vm_compute. exact I. Qed.

(** X30.  A chain under one key gives its first certificate only: when
    a secret has exactly one of the candidate keys and the value under it
    starts with a certificate that parses, the source holds exactly the
    record of this certificate, whatever follows it in the value. *)
Theorem ExtractCertificatesFromSecret_first_only
    (cs : Clientset) (namespace secretName : string) (secret : Secret)
    (key : string) (certData : list byte) (info : CertificateInfo) :
  getSecret cs namespace secretName = Ok secret ->
  In key secretCertKeys ->
  secretData secret !! key = Some certData ->
  (forall other, In other secretCertKeys -> other <> key -> secretData secret !! other = None) ->
  ParseCertificate (string_of_list_byte certData) = Ok info ->
  ExtractCertificatesFromSecret cs namespace secretName
  = Some ({| Type' := "secret"; Name := secretName; Namespace := namespace; Key := "";
             Certificates := [fromKey key info]; Error := "" |}, None).
Proof.
  intros Hget Hin Hkey Hothers Hparse. unfold K8s.ExtractCertificatesFromSecret.
  rewrite Hget. pose proof secretCertKeys_NoDup as Hnd.
  destruct (in_split _ _ Hin) as (before & after & Hkeys).
  rewrite Hkeys in Hnd, Hothers |- *.
  apply NoDup_remove_2 in Hnd.
  assert (Habsent : forall k, In k (before ++ after) -> secretLookup secret k = None).
  { intros k Hk. unfold secretLookup. rewrite Hothers; [reflexivity | |].
    - apply in_app_iff in Hk as [Hk | Hk]; apply in_app_iff; [now left | right; now right].
    - intros ->. contradiction. }
  rewrite keysLoop_absent by (intros k Hk; apply Habsent, in_app_iff; now left).
  cbn [K8s.keysLoop]. unfold secretLookup at 1. rewrite Hkey, Hparse.
  rewrite <- (app_nil_r after).
  rewrite keysLoop_absent by (intros k Hk; apply Habsent, in_app_iff; now right).
  reflexivity.
Qed.

(** A source that comes without an error holds a certificate. *)
Lemma GetClusterCACertificateInfo_nonempty (clusterCA : string) (source : CertificateSource) :
  GetClusterCACertificateInfo clusterCA = Some (source, None) -> Certificates source <> [].
Proof.
  unfold K8s.GetClusterCACertificateInfo.
  destruct (String.eqb clusterCA ""); [discriminate |].
  destruct (ParseCertificate clusterCA) as [cert | e]; [intros [= <-]; discriminate |].
  destruct (ParseCertificateBundle clusterCA) as [[certs | e']|] eqn:E; try discriminate.
  intros [= <-]. apply ParseCertificateBundle_nonempty in E. cbn.
  intros H. apply map_eq_nil in H. contradiction.
Qed.

(** X10.  [GetClusterCACertificateInfo] returns no error exactly when
    its source has at least one certificate, and exactly when the source
    has no error text; every subject of the source ends with
    " (Kubernetes Cluster CA)". *)
Theorem GetClusterCACertificateInfo_source
    (clusterCA : string) (source : CertificateSource) (err : option string) :
  GetClusterCACertificateInfo clusterCA = Some (source, err) ->
  Type' source = "cluster-ca" /\ Name source = "kubernetes-cluster-ca" /\
  (err = None <-> Certificates source <> []) /\
  (err = None <-> Error source = "") /\
  Forall (fun cert => exists base, Subject cert = base +:+ " (Kubernetes Cluster CA)")
         (Certificates source).
Proof.
  unfold K8s.GetClusterCACertificateInfo.
  destruct (String.eqb clusterCA "").
  { intros [= <- <-]. cbn. repeat split; try discriminate; try constructor.
    intros H; now elim H. }
  destruct (ParseCertificate clusterCA) as [cert | e].
  { intros [= <- <-]. cbn. repeat split; try discriminate.
    constructor; [| constructor]. eexists. apply clusterCASubject_Subject. }
  destruct (ParseCertificateBundle clusterCA) as [[certs | e']|] eqn:E; [| | discriminate].
  - intros [= <- <-]. cbn. apply ParseCertificateBundle_nonempty in E.
    repeat split; try discriminate.
    + intros _ H. apply map_eq_nil in H. contradiction.
    + apply List.Forall_forall. intros c Hc. apply in_map_iff in Hc as (c0 & <- & _).
      eexists. apply clusterCASubject_Subject.
  - intros [= <- <-]. cbn. repeat split; try discriminate; try constructor.
    intros H; now elim H.
Qed.


End Discovery.

Import SampleCluster.

Lemma ExtractCertificatesFromSecret_annotated_witness :
  exists source,
    K8s.ExtractCertificatesFromSecret SamplePem.decode SamplePem.parse 0
      (cluster ∅) "default" "tls" = Some (source, None) /\
    exists secret,
      getSecret (cluster ∅) "default" "tls" = Ok secret /\
      Forall (fun cert =>
                exists key base,
                  In key secretCertKeys /\ is_Some (secretData secret !! key) /\
                  Subject cert = base +:+ " (from " +:+ key +:+ ")")
             (Certificates source).
Proof.
  destruct (K8s.ExtractCertificatesFromSecret SamplePem.decode SamplePem.parse 0
              (cluster ∅) "default" "tls") as [[source [err|]]|] eqn:E;
    try (vm_compute in E; discriminate).
  exists source. split; [reflexivity |].
  apply (ExtractCertificatesFromSecret_annotated SamplePem.decode SamplePem.parse 0
           (cluster ∅) "default" "tls"). exact E.
Defined.

Lemma ExtractCertificatesFromSecret_candidates_witness :
  K8s.ExtractCertificatesFromSecret SamplePem.decode SamplePem.parse 0
    SampleSources.clusterWithNotes "default" "tls"
  = K8s.ExtractCertificatesFromSecret SamplePem.decode SamplePem.parse 0
      (cluster ∅) "default" "tls".
Proof.
  apply (ExtractCertificatesFromSecret_candidates SamplePem.decode SamplePem.parse 0
           (cluster ∅) SampleSources.clusterWithNotes "default" "tls"
           tlsSecret SampleSources.tlsSecretWithNotes).
  - reflexivity.
  - reflexivity.
  - intros key Hin. unfold SampleSources.tlsSecretWithNotes. cbn [secretData].
    apply lookup_insert_ne. intros <-. simpl in Hin. intuition discriminate.
Defined.

Lemma ExtractCertificatesFromSecret_first_only_witness :
  K8s.ExtractCertificatesFromSecret SamplePem.decode SamplePem.parse 0
    SampleSources.chainCluster "default" "chain"
  = Some ({| Type' := "secret"; Name := "chain"; Namespace := "default"; Key := "";
             Certificates := [fromKey "tls.crt" (Samples.endingIn "CN=a" 864000)];
             Error := "" |}, None).
Proof.
  apply (ExtractCertificatesFromSecret_first_only SamplePem.decode SamplePem.parse 0
           SampleSources.chainCluster "default" "chain" SampleSources.chainSecret
           "tls.crt" (list_byte_of_string SamplePem.twoCerts)).
  - reflexivity.
  - simpl. now left.
  - reflexivity.
  - intros other _ Hne. apply lookup_singleton_ne. congruence.
  - vm_compute. reflexivity.
Defined.

Lemma GetClusterCACertificateInfo_source_witness :
  exists source,
    K8s.GetClusterCACertificateInfo SamplePem.decode SamplePem.parse 0 SamplePem.twoCerts
    = Some (source, None) /\
    (Type' source = "cluster-ca" /\ Name source = "kubernetes-cluster-ca" /\
     (@None string = None <-> Certificates source <> []) /\
     (@None string = None <-> Error source = "") /\
     Forall (fun cert => exists base, Subject cert = base +:+ " (Kubernetes Cluster CA)")
            (Certificates source)).
Proof.
  destruct (K8s.GetClusterCACertificateInfo SamplePem.decode SamplePem.parse 0
              SamplePem.twoCerts) as [[source [err|]]|] eqn:E;
    try (vm_compute in E; discriminate).
  exists source. split; [reflexivity |].
  apply (GetClusterCACertificateInfo_source SamplePem.decode SamplePem.parse 0
           SamplePem.twoCerts). exact E.
Defined.

End SourceFacts.

(** ** Discovery: the map of a pod *)

Module PodFacts.
Import Utils K8s DiscoverySpec.

Lemma secret_key secretName : Fmt.cat ["secret-"%string; secretName] = "secret-" +:+ secretName.
Proof. cbn [Fmt.cat]. now rewrite append_nil_r. Qed.

Lemma configmap_key configMapName :
  Fmt.cat ["configmap-"%string; configMapName] = "configmap-" +:+ configMapName.
Proof. cbn [Fmt.cat]. now rewrite append_nil_r. Qed.

Section Discovery.

Variable pemDecode : list byte -> option Block * list byte.
Variable x509ParseCertificate : list byte -> result Certificate.
Variable now : GoTime.Time.

Local Abbreviation keysLoop := (K8s.keysLoop pemDecode x509ParseCertificate now).
Local Abbreviation ExtractCertificatesFromSecret :=
  (K8s.ExtractCertificatesFromSecret pemDecode x509ParseCertificate now).
Local Abbreviation ExtractCertificatesFromConfigMap :=
  (K8s.ExtractCertificatesFromConfigMap pemDecode x509ParseCertificate now).
Local Abbreviation GetClusterCACertificateInfo :=
  (K8s.GetClusterCACertificateInfo pemDecode x509ParseCertificate now).
Local Abbreviation volumeStep := (K8s.volumeStep pemDecode x509ParseCertificate now).
Local Abbreviation volumesLoop := (K8s.volumesLoop pemDecode x509ParseCertificate now).
Local Abbreviation AnalyzePodCertificates :=
  (K8s.AnalyzePodCertificates pemDecode x509ParseCertificate now).
Local Abbreviation secretEntry := (DiscoverySpec.secretEntry pemDecode x509ParseCertificate now).
Local Abbreviation configMapEntry :=
  (DiscoverySpec.configMapEntry pemDecode x509ParseCertificate now).

(** What a step has added to the map: the entries of the volume. *)
Local Abbreviation added cs namespace volume k source :=
  ((exists secretName,
      volSecret volume = Some secretName /\ k = "secret-" +:+ secretName /\
      secretEntry cs namespace secretName source) \/
   (exists configMapName,
      volConfigMap volume = Some configMapName /\ k = "configmap-" +:+ configMapName /\
      configMapEntry cs namespace configMapName source)).

Lemma secret_recorded cs namespace secretName source err :
  ExtractCertificatesFromSecret cs namespace secretName = Some (source, err) ->
  secretEntry cs namespace secretName
    match err with
    | None => source
    | Some err => {| Type' := "secret"; Name := secretName; Namespace := namespace;
                     Key := ""; Certificates := []; Error := err |}
    end.
Proof.
  unfold K8s.ExtractCertificatesFromSecret, DiscoverySpec.secretEntry.
  destruct (getSecret cs namespace secretName) as [secret | e].
  - destruct (keysLoop _ _ _) as [allCerts|]; [| discriminate].
    intros [= <- <-]. cbn. auto.
  - intros [= <- <-]. cbn. auto.
Qed.

Lemma configMap_recorded cs namespace configMapName source err :
  ExtractCertificatesFromConfigMap cs namespace configMapName = Some (source, err) ->
  configMapEntry cs namespace configMapName
    match err with
    | None => source
    | Some err => {| Type' := "configmap"; Name := configMapName; Namespace := namespace;
                     Key := ""; Certificates := []; Error := err |}
    end.
Proof.
  unfold K8s.ExtractCertificatesFromConfigMap, DiscoverySpec.configMapEntry.
  destruct (getConfigMap cs namespace configMapName) as [configMap | e].
  - destruct (keysLoop _ _ _) as [allCerts|]; [| discriminate].
    intros [= <- <-]. cbn. auto.
  - intros [= <- <-]. cbn. auto.
Qed.

Lemma volumeStep_inv cs namespace certSources volume certSources' :
  volumeStep cs namespace certSources volume = Some certSources' ->
  (forall k source, certSources' !! k = Some source ->
     certSources !! k = Some source \/ added cs namespace volume k source) /\
  (forall k, is_Some (certSources !! k) -> is_Some (certSources' !! k)) /\
  (forall secretName, volSecret volume = Some secretName ->
     is_Some (certSources' !! ("secret-" +:+ secretName))) /\
  (forall configMapName, volConfigMap volume = Some configMapName ->
     is_Some (certSources' !! ("configmap-" +:+ configMapName))).
Proof.
  unfold K8s.volumeStep.
  (* the first half: the secret *)
  set (first := match volSecret volume with None => Some certSources | Some _ => _ end).
  assert (H1 : forall m1, first = Some m1 ->
            (forall k source, m1 !! k = Some source ->
               certSources !! k = Some source \/
               exists secretName, volSecret volume = Some secretName /\
                 k = "secret-" +:+ secretName /\ secretEntry cs namespace secretName source) /\
            (forall k, is_Some (certSources !! k) -> is_Some (m1 !! k)) /\
            (forall secretName, volSecret volume = Some secretName ->
               is_Some (m1 !! ("secret-" +:+ secretName)))).
  { subst first. intros m1. destruct (volSecret volume) as [secretName|].
    - rewrite secret_key.
      destruct (ExtractCertificatesFromSecret cs namespace secretName) as [[source err]|] eqn:E;
        [| discriminate].
      apply secret_recorded in E.
      set (entry := match err with None => source | Some _ => _ end) in E.
      intros Hm1.
      assert (Hm : m1 = <["secret-" +:+ secretName := entry]> certSources)
        by (subst entry; destruct err; now injection Hm1 as <-).
      clear Hm1. subst m1. repeat split.
      + intros k src Hk. destruct (decide (k = "secret-" +:+ secretName)) as [-> | Hne].
        * rewrite lookup_insert_eq in Hk. injection Hk as <-. right. eauto.
        * rewrite lookup_insert_ne in Hk by congruence. now left.
      + intros k Hk. destruct (decide (k = "secret-" +:+ secretName)) as [-> | Hne].
        * rewrite lookup_insert_eq. eauto.
        * now rewrite lookup_insert_ne by congruence.
      + intros n [= <-]. rewrite lookup_insert_eq. eauto.
    - intros [= <-]. repeat split; [now left | trivial | discriminate]. }
  destruct first as [m1|]; [| discriminate].
  destruct (H1 m1 eq_refl) as (A1 & P1 & S1). clear H1.
  destruct (volConfigMap volume) as [configMapName|].
  - rewrite configmap_key.
    destruct (ExtractCertificatesFromConfigMap cs namespace configMapName)
      as [[source err]|] eqn:E; [| discriminate].
    apply configMap_recorded in E.
    set (entry := match err with None => source | Some _ => _ end) in E.
    intros Hm'.
    assert (Hm : certSources' = <["configmap-" +:+ configMapName := entry]> m1)
      by (subst entry; destruct err; now injection Hm' as <-).
    clear Hm'. subst certSources'. repeat split.
    + intros k src Hk. destruct (decide (k = "configmap-" +:+ configMapName)) as [-> | Hne].
      * rewrite lookup_insert_eq in Hk. injection Hk as <-. right. right. eauto.
      * rewrite lookup_insert_ne in Hk by congruence.
        destruct (A1 k src Hk) as [? | ?]; [now left | right; now left].
    + intros k Hk. apply P1 in Hk.
      destruct (decide (k = "configmap-" +:+ configMapName)) as [-> | Hne].
      * rewrite lookup_insert_eq. eauto.
      * now rewrite lookup_insert_ne by congruence.
    + intros n Hn. specialize (S1 n Hn).
      rewrite lookup_insert_ne; [exact S1 | simpl; discriminate].
    + intros n [= <-]. rewrite lookup_insert_eq. eauto.
  - intros [= <-]. repeat split.
    + intros k src Hk. destruct (A1 k src Hk) as [? | ?]; [now left | right; now left].
    + exact P1.
    + exact S1.
    + discriminate.
Qed.

Lemma volumesLoop_inv cs namespace volumes certSources certSources' :
  volumesLoop cs namespace volumes certSources = Some certSources' ->
  (forall k source, certSources' !! k = Some source ->
     certSources !! k = Some source \/
     exists volume, In volume volumes /\ added cs namespace volume k source) /\
  (forall k, is_Some (certSources !! k) -> is_Some (certSources' !! k)) /\
  (forall volume secretName, In volume volumes -> volSecret volume = Some secretName ->
     is_Some (certSources' !! ("secret-" +:+ secretName))) /\
  (forall volume configMapName, In volume volumes ->
     volConfigMap volume = Some configMapName ->
     is_Some (certSources' !! ("configmap-" +:+ configMapName))).
Proof.
  revert certSources. induction volumes as [|volume volumes IH]; intros certSources; simpl.
  - intros [= <-]. repeat split; [now left | trivial | contradiction | contradiction].
  - destruct (volumeStep cs namespace certSources volume) as [m1|] eqn:E; [| discriminate].
    intros Hloop. apply volumeStep_inv in E as (A1 & P1 & S1 & C1).
    apply IH in Hloop as (A2 & P2 & S2 & C2). repeat split.
    + intros k src Hk. destruct (A2 k src Hk) as [Hm1 | (v & Hv & Hadd)].
      * destruct (A1 k src Hm1) as [? | Hadd]; [now left |].
        right. exists volume. split; [now left | exact Hadd].
      * right. exists v. split; [now right | exact Hadd].
    + intros k Hk. now apply P2, P1.
    + intros v n [<- | Hv] Hn; [apply P2, (S1 n Hn) | now apply (S2 v)].
    + intros v n [<- | Hv] Hn; [apply P2, (C1 n Hn) | now apply (C2 v)].
Qed.

(** The map before the loop holds the trust anchor or nothing. *)
Lemma initial_sources (clusterCAInfo : CertificateSource) (err : option string) k source :
  (match err with
   | None => <["cluster-ca" := clusterCAInfo]> (∅ : gmap string CertificateSource)
   | Some _ => ∅
   end) !! k = Some source -> k = "cluster-ca".
Proof.
  destruct err; [now rewrite lookup_empty |].
  destruct (decide (k = "cluster-ca")) as [-> | Hne]; [reflexivity |].
  rewrite lookup_insert_ne by congruence. now rewrite lookup_empty.
Qed.

Lemma AnalyzePodCertificates_loop client namespace podName pod certSources :
  getPod (clientset client) namespace podName = Ok pod ->
  AnalyzePodCertificates client namespace podName = Some (Ok certSources) ->
  exists clusterCAInfo err,
    volumesLoop (clientset client) namespace (Volumes pod)
      match err : option string with
      | None => <["cluster-ca" := clusterCAInfo]> (∅ : gmap string CertificateSource)
      | Some _ => ∅
      end
    = Some certSources.
Proof.
  unfold K8s.AnalyzePodCertificates. intros ->.
  destruct (GetClusterCACertificateInfo _) as [[clusterCAInfo err]|]; [| discriminate].
  destruct (volumesLoop _ _ _ _) as [m|] eqn:E; [| discriminate].
  intros [= <-]. exists clusterCAInfo, err. exact E.
Qed.

(** X11.  Every key of the map of [AnalyzePodCertificates] is
    "cluster-ca", or "secret-<name>" for a secret that a volume of the
    pod mounts, or "configmap-<name>" for a config map that a volume
    mounts, and the entry under a key of a volume is the entry of this
    secret or config map. *)
Theorem AnalyzePodCertificates_keys
    (client : Client) (namespace podName : string) (pod : Pod)
    (certSources : gmap string CertificateSource) (k : string) (source : CertificateSource) :
  getPod (clientset client) namespace podName = Ok pod ->
  AnalyzePodCertificates client namespace podName = Some (Ok certSources) ->
  certSources !! k = Some source ->
  k = "cluster-ca" \/
  exists volume,
    In volume (Volumes pod) /\
    ((exists secretName,
        volSecret volume = Some secretName /\ k = "secret-" +:+ secretName /\
        secretEntry (clientset client) namespace secretName source) \/
     (exists configMapName,
        volConfigMap volume = Some configMapName /\ k = "configmap-" +:+ configMapName /\
        configMapEntry (clientset client) namespace configMapName source)).
Proof.
  intros Hpod Hrun Hk.
  destruct (AnalyzePodCertificates_loop _ _ _ _ _ Hpod Hrun) as (info & err & Hloop).
  apply volumesLoop_inv in Hloop as (A & _).
  destruct (A k source Hk) as [H0 | H]; [left | now right].
  now apply (initial_sources info err k source).
Qed.

(** X12.  A failed fetch does not end the discovery: for every volume
    of the pod that mounts a secret the map has an entry under
    "secret-<name>", of type "secret", with the name and the namespace,
    and with the error of the fetch and no certificate when the fetch
    failed; the same holds for config maps under "configmap-<name>". *)
Theorem AnalyzePodCertificates_entries
    (client : Client) (namespace podName : string) (pod : Pod)
    (certSources : gmap string CertificateSource) (volume : Volume) :
  getPod (clientset client) namespace podName = Ok pod ->
  AnalyzePodCertificates client namespace podName = Some (Ok certSources) ->
  In volume (Volumes pod) ->
  (forall secretName, volSecret volume = Some secretName ->
     exists source,
       certSources !! ("secret-" +:+ secretName) = Some source /\
       secretEntry (clientset client) namespace secretName source) /\
  (forall configMapName, volConfigMap volume = Some configMapName ->
     exists source,
       certSources !! ("configmap-" +:+ configMapName) = Some source /\
       configMapEntry (clientset client) namespace configMapName source).
Proof.
  intros Hpod Hrun Hin.
  destruct (AnalyzePodCertificates_loop _ _ _ _ _ Hpod Hrun) as (info & err & Hloop).
  apply volumesLoop_inv in Hloop as (A & _ & S & C). split.
  - intros n Hn. destruct (S volume n Hin Hn) as [source Hk]. exists source.
    split; [exact Hk |].
    destruct (A _ source Hk) as [H0 | (v & _ & [(n' & _ & Heq & He) | (n' & _ & Heq & _)])].
    + apply (initial_sources info err) in H0. simpl in H0. discriminate.
    + apply SourceFacts.append_inj_l in Heq. now subst n'.
    + simpl in Heq. discriminate.
  - intros n Hn. destruct (C volume n Hin Hn) as [source Hk]. exists source.
    split; [exact Hk |].
    destruct (A _ source Hk) as [H0 | (v & _ & [(n' & _ & Heq & _) | (n' & _ & Heq & He)])].
    + apply (initial_sources info err) in H0. simpl in H0. discriminate.
    + simpl in Heq. discriminate.
    + apply SourceFacts.append_inj_l in Heq. now subst n'.
Qed.

Section Shrinking.

(** [pem.Decode] returns, with a block, a rest that is shorter than its
    input. *)
Hypothesis pemDecode_rest :
  forall data b rest, pemDecode data = (Some b, rest) -> (length rest < length data)%nat.

Lemma ParseCertificateBundle_ends certBundle :
  exists r, Utils.ParseCertificateBundle pemDecode x509ParseCertificate now certBundle = Some r.
Proof.
  destruct (ParserFacts.Scan_exists pemDecode pemDecode_rest
              (list_byte_of_string (Strings.TrimSpace certBundle))) as [blocks Hs].
  eexists. exact (ParserFacts.ParseCertificateBundle_Scan _ _ _ pemDecode_rest _ _ Hs).
Qed.

Lemma keysLoop_ends lookup certKeys allCerts :
  exists out, keysLoop lookup certKeys allCerts = Some out.
Proof.
  revert allCerts. induction certKeys as [|key certKeys IH]; intros allCerts; simpl; [eauto |].
  destruct (lookup key) as [certString|]; [| apply IH].
  destruct (Utils.ParseCertificate _ _ _ certString); [apply IH |].
  destruct (ParseCertificateBundle_ends certString) as [[certs | e] ->]; apply IH.
Qed.

Lemma volumeStep_ends cs namespace certSources volume :
  exists certSources', volumeStep cs namespace certSources volume = Some certSources'.
Proof.
  unfold K8s.volumeStep, K8s.ExtractCertificatesFromSecret,
    K8s.ExtractCertificatesFromConfigMap.
  destruct (volSecret volume) as [secretName|];
    [destruct (getSecret cs namespace secretName) as [secret | e];
     [destruct (keysLoop_ends (secretLookup secret) secretCertKeys []) as [out ->] |] |];
    (destruct (volConfigMap volume) as [configMapName|];
     [destruct (getConfigMap cs namespace configMapName) as [configMap | e'];
      [destruct (keysLoop_ends (configMapLookup configMap) configMapCertKeys [])
         as [out' ->] |] |]);
    eauto.
Qed.

Lemma volumesLoop_ends cs namespace volumes certSources :
  exists certSources', volumesLoop cs namespace volumes certSources = Some certSources'.
Proof.
  revert certSources. induction volumes as [|volume volumes IH]; intros certSources; simpl;
    [eauto |].
  destruct (volumeStep_ends cs namespace certSources volume) as [m ->]. apply IH.
Qed.

Lemma GetClusterCACertificateInfo_ends clusterCA :
  exists r, GetClusterCACertificateInfo clusterCA = Some r.
Proof.
  unfold K8s.GetClusterCACertificateInfo.
  destruct (String.eqb clusterCA ""); [eauto |].
  destruct (Utils.ParseCertificate _ _ _ clusterCA); [eauto |].
  destruct (ParseCertificateBundle_ends clusterCA) as [[certs | e] ->]; eauto.
Qed.

(** X13.  [AnalyzePodCertificates] ends; it fails exactly when the
    fetch of the pod fails, with the error of the fetch after "failed to
    get pod <name>: ", and returns a map in every other case, whatever
    the secrets and config maps of the pod are. *)
Theorem AnalyzePodCertificates_ends (client : Client) (namespace podName : string) :
  match getPod (clientset client) namespace podName with
  | Err err =>
      AnalyzePodCertificates client namespace podName
      = Some (Err ("failed to get pod " +:+ podName +:+ ": " +:+ err))
  | Ok pod =>
      exists certSources,
        AnalyzePodCertificates client namespace podName = Some (Ok certSources)
  end.
Proof.
  unfold K8s.AnalyzePodCertificates.
  destruct (getPod (clientset client) namespace podName) as [pod | err].
  - destruct (GetClusterCACertificateInfo_ends (ClusterCA (eksDetails client)))
      as [[info e] ->].
    destruct (volumesLoop_ends (clientset client) namespace (Volumes pod)
                match e with
                | None => <["cluster-ca" := info]> (∅ : gmap string CertificateSource)
                | Some _ => ∅
                end) as [m ->].
    eauto.
  - cbn [Fmt.cat]. now rewrite append_nil_r.
Qed.

End Shrinking.

End Discovery.

Import SampleSources.

(** The run on the sample pod ends with a map that has the entry of the
    config map. *)
Lemma job_sources :
  exists certSources source,
    K8s.AnalyzePodCertificates SamplePem.decode SamplePem.parse 0 jobClient "default" "job"
    = Some (Ok certSources) /\
    certSources !! "configmap-gone" = Some source.
Proof.
  destruct (volumesLoop_ends SamplePem.decode SamplePem.parse 0 SamplePemFacts.decode_shrinks
              jobCluster "default" (Volumes job) ∅) as [m Hloop].
  assert (E : K8s.AnalyzePodCertificates SamplePem.decode SamplePem.parse 0
                jobClient "default" "job" = Some (Ok m)).
  { unfold K8s.AnalyzePodCertificates.
    change (getPod (clientset jobClient) "default" "job") with (Ok job).
    change (K8s.GetClusterCACertificateInfo SamplePem.decode SamplePem.parse 0
              (ClusterCA (eksDetails jobClient)))
      with (Some (clusterCASource [] "No cluster CA certificate available",
                  Some "no cluster CA certificate"%string)).
    cbv beta iota zeta. change (clientset jobClient) with jobCluster. now rewrite Hloop. }
  apply volumesLoop_inv in Hloop as (_ & _ & _ & C).
  destruct (C jobVolume "gone"%string (or_introl eq_refl) eq_refl) as [source Hk].
  now exists m, source.
Qed.

Lemma AnalyzePodCertificates_keys_witness :
  exists certSources source,
    K8s.AnalyzePodCertificates SamplePem.decode SamplePem.parse 0 jobClient "default" "job"
    = Some (Ok certSources) /\
    certSources !! "configmap-gone" = Some source /\
    ("configmap-gone" = "cluster-ca" \/
     exists volume,
       In volume (Volumes job) /\
       ((exists secretName,
           volSecret volume = Some secretName /\
           "configmap-gone" = "secret-" +:+ secretName /\
           DiscoverySpec.secretEntry SamplePem.decode SamplePem.parse 0
             jobCluster "default" secretName source) \/
        (exists configMapName,
           volConfigMap volume = Some configMapName /\
           "configmap-gone" = "configmap-" +:+ configMapName /\
           DiscoverySpec.configMapEntry SamplePem.decode SamplePem.parse 0
             jobCluster "default" configMapName source))).
Proof.
  destruct job_sources as (m & source & E & Hk).
  exists m, source. split; [exact E |]. split; [exact Hk |].
  apply (AnalyzePodCertificates_keys SamplePem.decode SamplePem.parse 0
           jobClient "default" "job" job m "configmap-gone" source).
  - reflexivity.
  - exact E.
  - exact Hk.
Defined.

Lemma AnalyzePodCertificates_entries_witness :
  exists certSources,
    K8s.AnalyzePodCertificates SamplePem.decode SamplePem.parse 0 jobClient "default" "job"
    = Some (Ok certSources) /\
    (forall secretName, volSecret jobVolume = Some secretName ->
       exists source,
         certSources !! ("secret-" +:+ secretName) = Some source /\
         DiscoverySpec.secretEntry SamplePem.decode SamplePem.parse 0
           jobCluster "default" secretName source) /\
    (forall configMapName, volConfigMap jobVolume = Some configMapName ->
       exists source,
         certSources !! ("configmap-" +:+ configMapName) = Some source /\
         DiscoverySpec.configMapEntry SamplePem.decode SamplePem.parse 0
           jobCluster "default" configMapName source).
Proof.
  destruct job_sources as (m & _ & E & _).
  exists m. split; [exact E |].
  apply (AnalyzePodCertificates_entries SamplePem.decode SamplePem.parse 0
           jobClient "default" "job" job m jobVolume).
  - reflexivity.
  - exact E.
  - simpl. now left.
Defined.

Lemma AnalyzePodCertificates_ends_witness :
  exists certSources,
    K8s.AnalyzePodCertificates SamplePem.decode SamplePem.parse 0 jobClient "default" "job"
    = Some (Ok certSources).
Proof.
  exact (AnalyzePodCertificates_ends SamplePem.decode SamplePem.parse 0
           SamplePemFacts.decode_shrinks jobClient "default" "job").
Defined.

End PodFacts.

(** ** A single certificate and the bundle that starts with it *)

Module FallbackFacts.
Import Utils BundleSpec.

Section Parsers.

Variable pemDecode : list byte -> option Block * list byte.
Variable x509ParseCertificate : list byte -> result Certificate.
Variable now : GoTime.Time.

Hypothesis pemDecode_rest :
  forall data b rest, pemDecode data = (Some b, rest) -> (length rest < length data)%nat.

(** X14.  Where [ParseCertificate] succeeds, [ParseCertificateBundle]
    succeeds on the same input and its first record is the record of
    [ParseCertificate]; what the bundle parser finds after the first block
    is in its result only. *)
Theorem ParseCertificate_then_bundle (certPEM : string) (info : CertificateInfo) :
  Utils.ParseCertificate pemDecode x509ParseCertificate now certPEM = Ok info ->
  exists more,
    Utils.ParseCertificateBundle pemDecode x509ParseCertificate now certPEM
    = Some (Ok (info :: more)).
Proof.
  unfold Utils.ParseCertificate.
  destruct (pemDecode (list_byte_of_string (Strings.TrimSpace certPEM)))
    as [[b|] rest] eqn:Hd; [| discriminate].
  destruct (String.eqb (Type_ b) "CERTIFICATE") eqn:Ht; [| discriminate].
  cbn [negb]. destruct (x509ParseCertificate (Bytes b)) as [cert | e] eqn:Hx; [| discriminate].
  intros [= <-].
  destruct (ParserFacts.Scan_exists pemDecode pemDecode_rest rest) as [blocks Hs].
  exists (goodRecords x509ParseCertificate now blocks).
  rewrite (ParserFacts.ParseCertificateBundle_Scan _ _ _ pemDecode_rest certPEM (b :: blocks)).
  - unfold goodRecords. cbn [flat_map]. unfold recordOf at 1. now rewrite Ht, Hx.
  - now apply Scan_block with rest.
Qed.

End Parsers.

Lemma ParseCertificate_then_bundle_witness :
  exists more,
    Utils.ParseCertificateBundle SamplePem.decode SamplePem.parse 0 SamplePem.twoCerts
    = Some (Ok (Samples.endingIn "CN=a" 864000 :: more)).
Proof.
  apply (ParseCertificate_then_bundle SamplePem.decode SamplePem.parse 0
           SamplePemFacts.decode_shrinks SamplePem.twoCerts).
  vm_compute. reflexivity.
Defined.

End FallbackFacts.

(** ** The kubeconfig reader *)

Module KubeconfigFacts.
Import K8s Kubeconfig GoStrings.

Lemma Split_nonempty s sep : Split s sep <> [].
Proof.
  destruct s as [|c s]; simpl; [discriminate |].
  destruct (Ascii.eqb c sep); [discriminate |]. destruct (Split s sep); discriminate.
Qed.

(** Splitting at a separator splits the two sides. *)
Lemma Split_app s t sep : Split (s +:+ String sep t) sep = Split s sep ++ Split t sep.
Proof.
  induction s as [|c s IH]; simpl.
  - now rewrite Ascii.eqb_refl.
  - destruct (Ascii.eqb c sep); [now rewrite IH |].
    rewrite IH. pose proof (Split_nonempty s sep).
    destruct (Split s sep); [contradiction | reflexivity].
Qed.

Lemma regionLoop_first (before : list string) (next : string) (after : list string) :
  existsb (String.eqb "eks") before = false ->
  regionLoop (before ++ "eks"%string :: next :: after) = next.
Proof.
  induction before as [|part before IH]; cbn [app regionLoop existsb].
  - intros _. now rewrite String.eqb_refl.
  - intros H. apply orb_false_iff in H as [Hpart Hbefore].
    destruct (before ++ "eks"%string :: next :: after) eqn:E;
      [now apply app_eq_nil in E as [_ E] |].
    rewrite String.eqb_sym, Hpart. now apply IH.
Qed.

Local Abbreviation isRoleFlag :=
  (fun arg : string => String.eqb arg "--role-arn" || String.eqb arg "-r").

Lemma roleLoop_first (before : list string) (flag value : string) (after : list string) :
  existsb isRoleFlag before = false -> isRoleFlag flag = true ->
  roleLoop (before ++ flag :: value :: after) = value.
Proof.
  intros Hbefore Hflag. induction before as [|arg before IH]; cbn [app roleLoop].
  - cbv beta in Hflag. now rewrite Hflag.
  - cbn [existsb] in Hbefore. apply orb_false_iff in Hbefore as [Harg Hbefore].
    destruct (before ++ flag :: value :: after) eqn:E;
      [now apply app_eq_nil in E as [_ E] |].
    cbv beta in Harg. rewrite Harg. now apply IH.
Qed.

Lemma roleLoop_none (args : list string) :
  existsb isRoleFlag args = false -> roleLoop args = "".
Proof.
  induction args as [|arg args IH]; cbn [roleLoop existsb]; [reflexivity |].
  intros H. apply orb_false_iff in H as [Harg Hargs].
  destruct args as [|next args]; [reflexivity |].
  cbv beta in Harg. rewrite Harg. now apply IH.
Qed.

Section Files.

Variable LoadFromFile : string -> result Config.
Variable ReadFile : string -> result (list byte).

(** What a result of [parseKubeConfigForEKS] was read from. *)
Lemma parseKubeConfigForEKS_Ok kubeconfigPath details :
  parseKubeConfigForEKS LoadFromFile ReadFile kubeconfigPath = Ok details ->
  exists config context cluster,
    LoadFromFile kubeconfigPath = Ok config /\
    Contexts config !! CurrentContext config = Some context /\
    Clusters config !! ctxCluster context = Some cluster /\
    ClusterName details = ctxCluster context /\
    ClusterEndpoint details = Server cluster /\
    Region details
    = (if Strings.Contains (Server cluster) ".eks."
       then regionLoop (Split (Server cluster) ".") else "") /\
    RoleARN details
    = match AuthInfos config !! ctxAuthInfo context with
      | Some user => match Exec user with Some exec => roleLoop (Args exec) | None => "" end
      | None => ""
      end.
Proof.
  unfold parseKubeConfigForEKS.
  destruct (String.eqb kubeconfigPath ""); [discriminate |].
  destruct (LoadFromFile kubeconfigPath) as [config | e]; [| discriminate].
  cbv zeta. destruct (String.eqb (CurrentContext config) ""); [discriminate |].
  destruct (Contexts config !! CurrentContext config) as [context|] eqn:Hc; [| discriminate].
  destruct (Clusters config !! ctxCluster context) as [cluster|] eqn:Hk; [| discriminate].
  destruct (match CertificateAuthorityData cluster with Some _ => _ | None => _ end)
    as [clusterCA | msg]; [| discriminate].
  intros [= <-]. exists config, context, cluster. cbn.
  repeat split; try assumption. now destruct (Strings.Contains (Server cluster) ".eks.").
Qed.

(** X15.  The region that [parseKubeConfigForEKS] returns is the piece
    of the server address, cut at the dots, that follows the first piece
    "eks": for an address "<before>.eks.<tail>" whose part before has no
    piece "eks", the text of [tail] up to its first dot. *)
Theorem parseKubeConfigForEKS_region
    (kubeconfigPath : string) (details : KubeConfigEKSDetails) (before tail : string) :
  parseKubeConfigForEKS LoadFromFile ReadFile kubeconfigPath = Ok details ->
  ClusterEndpoint details = before +:+ ".eks." +:+ tail ->
  existsb (String.eqb "eks") (Split before ".") = false ->
  Region details = hd ""%string (Split tail ".").
Proof.
  intros Hparse Hserver Hbefore.
  apply parseKubeConfigForEKS_Ok in Hparse
    as (config & context & cluster & _ & _ & _ & _ & Hend & -> & _).
  rewrite <- Hend, Hserver.
  rewrite (TokenFacts.Contains_append_l before (".eks." +:+ tail) ".eks.")
    by apply TokenFacts.Contains_prefix.
  change (before +:+ ".eks." +:+ tail) with (before +:+ String "." ("eks" +:+ String "." tail)).
  rewrite !Split_app. change (Split "eks" ".") with ["eks"%string].
  pose proof (Split_nonempty tail ".").
  destruct (Split tail ".") as [|next after]; [contradiction |].
  now apply regionLoop_first.
Qed.

(** X16.  The role that [parseKubeConfigForEKS] returns is the argument
    of the exec plugin of the current user that follows the first
    "--role-arn" or "-r"; without such an argument it is empty. *)
Theorem parseKubeConfigForEKS_role
    (kubeconfigPath : string) (details : KubeConfigEKSDetails) (config : Config)
    (context : Context) (user : AuthInfo) (exec : ExecConfig) :
  parseKubeConfigForEKS LoadFromFile ReadFile kubeconfigPath = Ok details ->
  LoadFromFile kubeconfigPath = Ok config ->
  Contexts config !! CurrentContext config = Some context ->
  AuthInfos config !! ctxAuthInfo context = Some user ->
  Exec user = Some exec ->
  (forall before flag value after,
     Args exec = before ++ flag :: value :: after ->
     existsb isRoleFlag before = false -> isRoleFlag flag = true ->
     RoleARN details = value) /\
  (existsb isRoleFlag (Args exec) = false -> RoleARN details = "").
Proof.
  intros Hparse Hload Hcontext Huser Hexec.
  apply parseKubeConfigForEKS_Ok in Hparse
    as (config' & context' & cluster & Hload' & Hcontext' & _ & _ & _ & _ & ->).
  rewrite Hload in Hload'. injection Hload' as <-.
  rewrite Hcontext in Hcontext'. injection Hcontext' as <-.
  rewrite Huser, Hexec. split.
  - intros before flag value after ->. apply roleLoop_first.
  - apply roleLoop_none.
Qed.

End Files.

(** X17.  Certificate data that the kubeconfig holds inline is the trust
    anchor that [GetClusterCA] returns, and with it the file that the
    cluster entry names is not read: the result of
    [parseKubeConfigForEKS] is the same whatever reading a file gives. *)
Theorem parseKubeConfigForEKS_inline_ca
    (LoadFromFile : string -> result Config) (ReadFile ReadFile' : string -> result (list byte))
    (kubeconfigPath : string) (config : Config) (context : Context) (cluster : Cluster)
    (data : list byte) :
  kubeconfigPath <> "" ->
  LoadFromFile kubeconfigPath = Ok config ->
  CurrentContext config <> "" ->
  Contexts config !! CurrentContext config = Some context ->
  Clusters config !! ctxCluster context = Some cluster ->
  CertificateAuthorityData cluster = Some data ->
  parseKubeConfigForEKS LoadFromFile ReadFile' kubeconfigPath
  = parseKubeConfigForEKS LoadFromFile ReadFile kubeconfigPath /\
  GetClusterCA LoadFromFile ReadFile kubeconfigPath = Ok (string_of_list_byte data).
Proof.
  intros Hpath Hload Hcurrent Hcontext Hcluster Hdata.
  unfold GetClusterCA, parseKubeConfigForEKS.
  apply String.eqb_neq in Hpath, Hcurrent.
  rewrite Hpath, Hload. cbv zeta. rewrite Hcurrent, Hcontext, Hcluster, Hdata.
  split; reflexivity.
Qed.

Import SampleKubeconfig.

Lemma parseKubeConfigForEKS_region_witness :
  exists details,
    parseKubeConfigForEKS (load (Some [])) unreadable path = Ok details /\
    Region details = hd ""%string (Split "amazonaws.com" ".").
Proof.
  destruct (parseKubeConfigForEKS (load (Some [])) unreadable path) as [details | e] eqn:E;
    [| vm_compute in E; discriminate].
  exists details. split; [reflexivity |].
  apply (parseKubeConfigForEKS_region (load (Some [])) unreadable path details
           "https://0123ABCD.gr7.us-east-1" "amazonaws.com").
  - exact E.
  - vm_compute in E. injection E as <-. reflexivity.
  - reflexivity.
Defined.

Lemma parseKubeConfigForEKS_role_witness :
  exists details,
    parseKubeConfigForEKS (load (Some [])) unreadable path = Ok details /\
    RoleARN details = "arn:aws:iam::1:role/demo".
Proof.
  destruct (parseKubeConfigForEKS (load (Some [])) unreadable path) as [details | e] eqn:E;
    [| vm_compute in E; discriminate].
  exists details. split; [reflexivity |].
  apply (parseKubeConfigForEKS_role (load (Some [])) unreadable path details
           (config (Some [])) {| ctxCluster := "demo-cluster"; ctxAuthInfo := "demo-user" |}
           {| Exec := Some {| Args := roleArgs |} |} {| Args := roleArgs |}
           E eq_refl eq_refl eq_refl eq_refl)
    with (before := ["token"; "-i"; "demo-cluster"]%string) (flag := "--role-arn"%string)
         (after := @nil string); reflexivity.
Defined.

Lemma parseKubeConfigForEKS_inline_ca_witness :
  parseKubeConfigForEKS (load (Some (list_byte_of_string "inline"))) unreadable path
  = parseKubeConfigForEKS (load (Some (list_byte_of_string "inline"))) readable path /\
  GetClusterCA (load (Some (list_byte_of_string "inline"))) readable path
  = Ok (string_of_list_byte (list_byte_of_string "inline")).
Proof.
  apply (parseKubeConfigForEKS_inline_ca (load (Some (list_byte_of_string "inline")))
           readable unreadable path (config (Some (list_byte_of_string "inline")))
           {| ctxCluster := "demo-cluster"; ctxAuthInfo := "demo-user" |}
           {| Server := server; CertificateAuthority := "/etc/ca.pem";
              CertificateAuthorityData := Some (list_byte_of_string "inline") |});
    try reflexivity; discriminate.
Defined.

End KubeconfigFacts.

(** ** The client and the kubeconfig *)

Module ClientFacts.
Import K8s Kubeconfig NewClient.

Section Constructor.

Variable clientsetT : Type.
Variable LoadFromFile : string -> result Config.
Variable ReadFile : string -> result (list byte).
Variable Getenv : string -> string.
Variable UserHomeDir : result string.
Variable filepathJoin : list string -> string.
Variable helper fallback : string -> string -> result string.
Variable NewForConfig : RestConfig -> result clientsetT.

Local Abbreviation kubeconfig :=
  (parseKubeConfigForEKS LoadFromFile ReadFile
     (getKubeconfigPath Getenv UserHomeDir filepathJoin)).

(** X18.  Without the variable KUBECONFIG and without a home directory
    [NewClient] fails on the empty kubeconfig path, and calls neither
    token strategy. *)
Theorem NewClient_without_path (tr : list Call) :
  Getenv "KUBECONFIG" = "" -> is_ok UserHomeDir = false ->
  NewClient clientsetT kubeconfig helper fallback NewForConfig tr
  = (Err "failed to parse kubeconfig for EKS details: kubeconfig path is empty", tr).
Proof.
  intros Henv Hhome. unfold getKubeconfigPath. rewrite Henv. cbn [String.eqb negb].
  destruct UserHomeDir as [homeDir | e]; [discriminate |]. reflexivity.
Qed.

(** X19.  A client that [NewClient] returns is set up from the
    kubeconfig alone: its host is the server address and its trust anchor
    the certificate data of the current cluster, and its bearer token is
    the one of the helper when the helper succeeded, empty or not, and
    the one of [GenerateToken] otherwise. *)
Theorem NewClient_config (tr tr' : list Call) (client : Client clientsetT) :
  NewClient clientsetT kubeconfig helper fallback NewForConfig tr = (Ok client, tr') ->
  exists eks,
    kubeconfig = Ok eks /\ eksDetails _ client = eks /\
    Host (config _ client) = ClusterEndpoint eks /\
    CAData (config _ client) = list_byte_of_string (ClusterCA eks) /\
    NewForConfig (config _ client) = Ok (clientset _ client) /\
    match helper (ClusterName eks) (RoleARN eks) with
    | Ok token => BearerToken (config _ client) = token
    | Err _ => fallback (ClusterName eks) (RoleARN eks) = Ok (BearerToken (config _ client))
    end.
Proof.
  unfold NewClient. destruct kubeconfig as [eks | e]; [| discriminate].
  unfold generateEKSToken, bind, call, ret.
  destruct (helper (ClusterName eks) (RoleARN eks)) as [token | e1] eqn:Hh.
  - destruct (NewForConfig _) as [cs | e2] eqn:Hcs; cbv beta; [| discriminate].
    intros [= <- _]. exists eks. cbn. rewrite Hh. repeat split; trivial.
  - destruct (fallback (ClusterName eks) (RoleARN eks)) as [token | e2] eqn:Hf;
      cbv beta; [| discriminate].
    destruct (NewForConfig _) as [cs | e3] eqn:Hcs; cbv beta; [| discriminate].
    intros [= <- _]. exists eks. cbn. rewrite Hh. repeat split; trivial.
Qed.

End Constructor.

Import SampleKubeconfig SampleRequests.

Lemma NewClient_without_path_witness :
  NewClient unit
    (parseKubeConfigForEKS (load None) unreadable
       (getKubeconfigPath noEnvironment (Err "$HOME is not defined") join))
    helper fallback newForConfig []
  = (Err "failed to parse kubeconfig for EKS details: kubeconfig path is empty", []).
Proof.
  apply (NewClient_without_path unit (load None) unreadable noEnvironment
           (Err "$HOME is not defined") join helper fallback newForConfig []);
    reflexivity.
Defined.

Lemma NewClient_config_witness :
  exists tr' client,
    NewClient unit
      (parseKubeConfigForEKS (load (Some [])) unreadable
         (getKubeconfigPath environment (Err "$HOME is not defined") join))
      helper fallback newForConfig [] = (Ok client, tr') /\
    exists eks,
      parseKubeConfigForEKS (load (Some [])) unreadable
        (getKubeconfigPath environment (Err "$HOME is not defined") join) = Ok eks /\
      eksDetails _ client = eks /\
      Host (NewClient.config _ client) = ClusterEndpoint eks /\
      CAData (NewClient.config _ client) = list_byte_of_string (ClusterCA eks) /\
      newForConfig (NewClient.config _ client) = Ok (clientset _ client) /\
      match helper (ClusterName eks) (RoleARN eks) with
      | Ok token => BearerToken (NewClient.config _ client) = token
      | Err _ =>
          fallback (ClusterName eks) (RoleARN eks)
          = Ok (BearerToken (NewClient.config _ client))
      end.
Proof.
  destruct (NewClient unit
              (parseKubeConfigForEKS (load (Some [])) unreadable
                 (getKubeconfigPath environment (Err "$HOME is not defined") join))
              helper fallback newForConfig []) as [[client | e] tr'] eqn:E;
    [| vm_compute in E; discriminate].
  exists tr', client. split; [reflexivity |].
  exact (NewClient_config unit (load (Some [])) unreadable environment
           (Err "$HOME is not defined") join helper fallback newForConfig [] tr' client E).
Defined.

Example NewClient_sample :
  NewClient unit
    (parseKubeConfigForEKS (load (Some [])) unreadable
       (getKubeconfigPath environment (Err "$HOME is not defined") join))
    helper fallback newForConfig []
  = (Ok {| clientset := tt;
           NewClient.config := {| Host := server; BearerToken := "k8s-aws-v1.c2FtcGxl";
                                  CAData := [] |};
           eksDetails := {| ClusterName := "demo-cluster"; ClusterEndpoint := server;
                            ClusterCA := ""; Region := "amazonaws";
                            RoleARN := "arn:aws:iam::1:role/demo" |} |},
     [CallAuthenticator "demo-cluster" "arn:aws:iam::1:role/demo";
      CallGenerateToken "demo-cluster" "arn:aws:iam::1:role/demo"]).
Proof. vm_compute. reflexivity. Qed.

End ClientFacts.

(** ** The token generator and the credentials of the configuration *)

Module CredentialFacts.
Import Auth.

Lemma eqb_empty (s : string) : String.eqb s "" = true <-> s = "".
Proof. apply String.eqb_eq. Qed.

(** X20.  [ValidateAWSConfig] accepts a configuration exactly when the
    access key and the secret are both present or both absent. *)
Theorem ValidateAWSConfig_pair (c : AppConfig.Config) :
  AppConfig.ValidateAWSConfig c = None
  <-> (AccessKeyID (AppConfig.AWS c) = "" <-> SecretAccessKey (AppConfig.AWS c) = "").
Proof.
  unfold AppConfig.ValidateAWSConfig.
  destruct (String.eqb_spec (AccessKeyID (AppConfig.AWS c)) "") as [-> | Hk],
           (String.eqb_spec (SecretAccessKey (AppConfig.AWS c)) "") as [-> | Hs]; cbn.
  - tauto.
  - split; [discriminate |]. intros [H _]. now elim Hs; apply H.
  - split; [discriminate |]. intros [_ H]. now elim Hk; apply H.
  - tauto.
Qed.

Section Sdk.

Variable awsConfig : Type.
Variable LoadDefaultConfig : option StaticCredentials -> string -> result awsConfig.
Variable GetCallerIdentity : awsConfig -> result unit.
Variable PresignGetCallerIdentity : awsConfig -> result string.

(** X21.  A configuration that [ValidateAWSConfig] rejects, with one
    half of the static credentials, is not rejected by [GenerateToken]:
    the half is dropped and the token is the one of the default
    credential chain. *)
Theorem GenerateToken_partial_credentials
    (withCredentials : awsConfig -> StaticCredentials -> awsConfig)
    (AssumeRole : awsConfig -> string -> string -> result StaticCredentials)
    (c : AppConfig.Config) (clusterName roleARNToAssume : string) :
  AppConfig.ValidateAWSConfig c <> None ->
  GenerateToken awsConfig LoadDefaultConfig withCredentials AssumeRole GetCallerIdentity
    PresignGetCallerIdentity (AppConfig.AWS c) clusterName roleARNToAssume
  = GenerateToken awsConfig LoadDefaultConfig withCredentials AssumeRole GetCallerIdentity
      PresignGetCallerIdentity
      {| AccessKeyID := ""; SecretAccessKey := ""; Region := Region (AppConfig.AWS c) |}
      clusterName roleARNToAssume.
Proof.
  unfold AppConfig.ValidateAWSConfig, GenerateToken. cbn [AccessKeyID SecretAccessKey Region].
  destruct (String.eqb (AccessKeyID (AppConfig.AWS c)) ""),
           (String.eqb (SecretAccessKey (AppConfig.AWS c)) ""); cbn;
    intros H; try reflexivity; now elim H.
Qed.

(** X22.  The annotation of the presigned URL is applied once: a URL
    that went through [withClusterID] is left as it is by a second pass,
    for any cluster name. *)
Theorem withClusterID_idempotent (urlStr clusterName clusterName' : string) :
  withClusterID (withClusterID urlStr clusterName) clusterName'
  = withClusterID urlStr clusterName.
Proof.
  unfold withClusterID at 1.
  now rewrite TokenFacts.withClusterID_has_key.
Qed.

End Sdk.

Lemma GenerateToken_partial_credentials_witness :
  GenerateToken unit (fun _ _ => Ok tt) (fun c _ => c)
    (fun _ _ _ => Ok ("ASIAEXAMPLE", "secret", "session")%string)
    (fun _ => Ok tt) (fun _ => Ok SampleAws.plainURL)
    {| AccessKeyID := "AKIAEXAMPLE"; SecretAccessKey := ""; Region := "us-east-1" |} "demo" ""
  = GenerateToken unit (fun _ _ => Ok tt) (fun c _ => c)
      (fun _ _ _ => Ok ("ASIAEXAMPLE", "secret", "session")%string)
      (fun _ => Ok tt) (fun _ => Ok SampleAws.plainURL)
      {| AccessKeyID := ""; SecretAccessKey := ""; Region := "us-east-1" |} "demo" "".
Proof.
  apply (GenerateToken_partial_credentials unit (fun _ _ => Ok tt) (fun _ => Ok tt)
           (fun _ => Ok SampleAws.plainURL) (fun c _ => c)
           (fun _ _ _ => Ok ("ASIAEXAMPLE", "secret", "session")%string)
           {| AppConfig.AWS := {| AccessKeyID := "AKIAEXAMPLE"; SecretAccessKey := "";
                                  Region := "us-east-1" |};
              AppConfig.Kubernetes := AppConfig.Kubernetes AppConfig.zero;
              AppConfig.Server := AppConfig.Server AppConfig.zero |} "demo" "").
  discriminate.
Defined.

End CredentialFacts.

(** ** Loading the configuration *)

Module ConfigFacts.
Import AppConfig.

(** X23.  After the defaults of [main] the port, the host and the
    default namespace of a loaded configuration are never empty, whatever
    the file and the environment hold. *)
Theorem Load_defaults (file : ConfigFile) (Getenv : string -> string) :
  match Load file Getenv with
  | Ok cfg =>
      Port (Server (mainDefaults cfg)) <> "" /\
      Host (Server (mainDefaults cfg)) <> "" /\
      DefaultNamespace (Kubernetes (mainDefaults cfg)) <> ""
  | Err _ => True
  end.
Proof.
  assert (D : forall s d : string, d <> "" -> (if String.eqb s "" then d else s) <> "").
  { intros s d Hd. now destruct (String.eqb_spec s ""). }
  unfold Load. destruct file as [| e | e | config]; cbn -[String.eqb override];
    try exact I;
    (split; [apply D; discriminate |]); (split; apply D; discriminate).
Qed.

End ConfigFacts.

(** ** What the handlers read and report *)

Module HandlerFacts.
Import Utils K8s K8sWarnings Handlers HandlerCore GoStrings.

(** *** Mount paths *)

Lemma existsb_weaken {A} (f g : A -> bool) (l : list A) :
  (forall x, f x = true -> g x = true) -> existsb f l = true -> existsb g l = true.
Proof.
  intros H. induction l as [|x l IH]; simpl; [trivial |].
  intros E. apply orb_true_iff in E as [E | E]; apply orb_true_iff; [left | right]; auto.
Qed.

(** X24.  Every path below a certificate mount is a certificate mount:
    [isCertificateMount] stays true when the path is extended. *)
Theorem isCertificateMount_below (mountPath more : string) :
  isCertificateMount mountPath = true -> isCertificateMount (mountPath +:+ more) = true.
Proof.
  unfold isCertificateMount.
  destruct (existsb _ certPaths) eqn:E1.
  - intros _.
    erewrite existsb_weaken; [reflexivity | | exact E1].
    intros certPath. unfold HasPrefix. apply TokenFacts.prefix_append_r.
  - destruct (existsb _ certExtensions) eqn:E2; [| discriminate].
    intros _.
    destruct (existsb (fun certPath => HasPrefix (mountPath +:+ more) certPath) certPaths);
      [reflexivity |].
    erewrite existsb_weaken; [reflexivity | | exact E2].
    intros ext. apply TokenFacts.Contains_append_r.
Qed.

Lemma isCertificateMount_below_witness :
  isCertificateMount ("/etc/ssl" +:+ "/certs/ca-bundle.crt") = true.
Proof. apply (isCertificateMount_below "/etc/ssl" "/certs/ca-bundle.crt"). reflexivity. Defined.

(** *** The pod name in the request path *)

Lemma prefix_empty (s : string) : String.prefix "" s = true.
Proof. now destruct s. Qed.

Lemma Contains_char (c sep : ascii) (s : string) :
  Strings.Contains (String c s) (String sep "")
  = Ascii.eqb c sep || Strings.Contains s (String sep "").
Proof.
  cbn [Strings.Contains String.prefix]. f_equal.
  destruct (ascii_dec sep c) as [<- | Hne].
  - now rewrite prefix_empty, Ascii.eqb_refl.
  - symmetry. apply Ascii.eqb_neq. congruence.
Qed.

Lemma Split_without (s : string) (sep : ascii) :
  Strings.Contains s (String sep "") = false -> Split s sep = [s].
Proof.
  induction s as [|c s IH]; [reflexivity |].
  rewrite Contains_char. intros H. apply orb_false_iff in H as [Hc Hs].
  cbn [Split]. now rewrite Hc, (IH Hs).
Qed.

Lemma trimRight_without (s : string) (sep : ascii) :
  Strings.Contains s (String sep "") = false -> trimRight s sep = s.
Proof.
  induction s as [|c s IH]; [reflexivity |].
  rewrite Contains_char. intros H. apply orb_false_iff in H as [Hc Hs].
  cbn [trimRight]. rewrite (IH Hs), Hc. now destruct s.
Qed.

Lemma trimRight_app (s t : string) (sep : ascii) :
  trimRight t sep <> "" -> trimRight (s +:+ t) sep = s +:+ trimRight t sep.
Proof.
  intros Ht. induction s as [|c s IH]; [reflexivity |].
  cbn [String.append trimRight]. rewrite IH.
  destruct (s +:+ trimRight t sep) eqn:E; [| reflexivity].
  destruct s; [now elim Ht | discriminate].
Qed.

Lemma trimRight_cons (c : ascii) (s : string) (sep : ascii) :
  trimRight s sep <> "" -> trimRight (String c s) sep = String c (trimRight s sep).
Proof. intros H. cbn [trimRight]. now destruct (trimRight s sep). Qed.

Lemma trimLeft_start (c : ascii) (s : string) (sep : ascii) :
  Ascii.eqb c sep = false -> trimLeft (String c s) sep = String c s.
Proof. intros H. cbn [trimLeft]. now rewrite H. Qed.

(** X25.  The path "/pod-certificates/<name>" that the service documents
    for the analysis of one pod never gives a pod name: it has two
    pieces, the handler asks for three, and it answers with the error
    text. *)
Theorem podNameOfPath_documented (name : string) :
  Strings.Contains name "/" = false ->
  podNameOfPath ("/pod-certificates/" +:+ name)
  = Err "Pod name is required in URL path: /pod-certificates/{pod-name}".
Proof.
  intros Hname. unfold podNameOfPath, Trim.
  change ("/pod-certificates/" +:+ name) with (String "/" ("pod-certificates/" +:+ name)).
  cbn [trimLeft]. rewrite Ascii.eqb_refl.
  change ("pod-certificates/" +:+ name) with (String "p" ("od-certificates/" +:+ name)).
  rewrite trimLeft_start by reflexivity.
  change (String "p" ("od-certificates/" +:+ name))
    with ("pod-certificates" +:+ String "/" name).
  destruct (String.eqb_spec name "") as [-> | Hne]; [reflexivity |].
  assert (Ht : trimRight name "/" <> "") by now rewrite trimRight_without.
  rewrite trimRight_app; rewrite (trimRight_cons _ _ _ Ht); [| discriminate].
  rewrite (trimRight_without _ _ Hname), KubeconfigFacts.Split_app, (Split_without _ _ Hname). reflexivity.
Qed.

Lemma podNameOfPath_documented_witness :
  podNameOfPath ("/pod-certificates/" +:+ "example-pod")
  = Err "Pod name is required in URL path: /pod-certificates/{pod-name}".
Proof. apply (podNameOfPath_documented "example-pod"). reflexivity. Defined.

(** X26.  The pod name is the third piece of the path: for
    "/<a>/<b>/<c>" with pieces without a slash, [a] and [c] not empty, it
    is [c]. *)
Theorem podNameOfPath_third (a b c : string) :
  Strings.Contains a "/" = false -> Strings.Contains b "/" = false ->
  Strings.Contains c "/" = false -> a <> "" -> c <> "" ->
  podNameOfPath ("/" +:+ a +:+ "/" +:+ b +:+ "/" +:+ c) = Ok c.
Proof.
  intros Ha Hb Hc Ha0 Hc0. unfold podNameOfPath, Trim.
  change ("/" +:+ a +:+ "/" +:+ b +:+ "/" +:+ c)
    with (String "/" (a +:+ String "/" (b +:+ String "/" c))).
  cbn [trimLeft]. rewrite Ascii.eqb_refl.
  destruct a as [|x a]; [now elim Ha0 |].
  rewrite Contains_char in Ha. apply orb_false_iff in Ha as [Hx Ha].
  cbn [String.append]. rewrite trimLeft_start by exact Hx.
  change (String x (a +:+ String "/" (b +:+ String "/" c)))
    with (String x a +:+ String "/" (b +:+ String "/" c)).
  assert (Hxa : Strings.Contains (String x a) "/" = false)
    by (rewrite Contains_char, Hx, Ha; reflexivity).
  assert (Hc1 : trimRight c "/" <> "") by now rewrite trimRight_without.
  assert (Hbc : trimRight (b +:+ String "/" c) "/" = b +:+ String "/" c).
  { rewrite trimRight_app; rewrite (trimRight_cons _ _ _ Hc1); [| discriminate].
    now rewrite (trimRight_without _ _ Hc). }
  assert (Hsbc : trimRight (String "/" (b +:+ String "/" c)) "/"
                 = String "/" (b +:+ String "/" c))
    by (rewrite trimRight_cons; rewrite Hbc; [reflexivity | now destruct b]).
  rewrite trimRight_app; rewrite Hsbc; [| discriminate].
  rewrite !KubeconfigFacts.Split_app, (Split_without _ _ Hxa), (Split_without _ _ Hb), (Split_without _ _ Hc).
  cbn [app length Nat.ltb Nat.leb nth orb].
  destruct (String.eqb_spec c ""); [contradiction | reflexivity].
Qed.

Lemma podNameOfPath_third_witness :
  podNameOfPath ("/" +:+ "pod-certificates" +:+ "/" +:+ "details" +:+ "/" +:+ "web")
  = Ok "web"%string.
Proof.
  apply (podNameOfPath_third "pod-certificates" "details" "web");
    try reflexivity; discriminate.
Defined.

(** *** The threshold *)

Section Requests.

Variable Atoi : string -> result Z.

Lemma warningDaysOf_pos (warningDaysStr : string) : 0 < warningDaysOf Atoi warningDaysStr.
Proof.
  unfold warningDaysOf. destruct (negb _); [| lia].
  destruct (Atoi warningDaysStr) as [days | e]; [| lia].
  destruct (Z.ltb_spec 0 days); lia.
Qed.

(** X27.  The threshold that a handler uses is positive whatever the
    query holds.  It is the number that [strconv.Atoi] reads from a query
    value that is not empty, when that number is positive; it is 30 in
    every other case: an empty value, a value that [Atoi] refuses, and a
    number that is zero or negative. *)
Theorem warningDaysOf_positive (warningDaysStr : string) :
  let w := warningDaysOf Atoi warningDaysStr in
  0 < w /\
  (forall days, warningDaysStr <> "" -> Atoi warningDaysStr = Ok days -> 0 < days ->
                w = days) /\
  (warningDaysStr = "" -> w = 30) /\
  (forall e, Atoi warningDaysStr = Err e -> w = 30) /\
  (forall days, Atoi warningDaysStr = Ok days -> days <= 0 -> w = 30).
Proof.
  cbv zeta. unfold warningDaysOf.
  destruct (String.eqb_spec warningDaysStr "") as [Hempty | Hvalue]; cbn [negb].
  - split; [lia |]. split; [intros days H; contradiction |].
    split; [reflexivity |]. split; reflexivity.
  - destruct (Atoi warningDaysStr) as [days | e].
    + destruct (Z.ltb_spec 0 days) as [Hpos | Hnot].
      * split; [exact Hpos |]. split; [intros days' _ [= <-] _; reflexivity |].
        split; [intros H; contradiction |]. split; [discriminate |].
        intros days' [= <-] H. lia.
      * split; [lia |]. split; [intros days' _ [= <-] H; lia |].
        split; [reflexivity |]. split; reflexivity.
    + split; [lia |]. split; [discriminate |].
      split; [reflexivity |]. split; reflexivity.
Qed.

Variable pemDecode : list byte -> option Block * list byte.
Variable x509ParseCertificate : list byte -> result Certificate.

(** X28.  A response of [HandleClusterCACertificateExpiry] with status
    200 reports at least one certificate, never the summary "No
    certificates found", and carries the enhanced information; its
    threshold is positive; its warnings are not more than its
    certificates, each starts with "[cluster-ca] ", and there is none
    exactly when the summary starts with "VALID (". *)
Theorem HandleClusterCACertificateExpiry_success
    (warningDaysStr kubeconfigPath : string) (GetClusterCA : string -> result string)
    (parsedAt now : GoTime.Time) (warning_days : Z) (source : CertificateSource)
    (warnings : list string) (enhanced_info : option EnhancedInfo) (summary : Summary) :
  HandleClusterCACertificateExpiry Atoi pemDecode x509ParseCertificate warningDaysStr
    kubeconfigPath GetClusterCA parsedAt now
  = Some (Success warning_days source warnings enhanced_info summary) ->
  0 < warning_days /\ expires_within_days summary = warning_days /\
  1 <= certificates_analyzed summary /\
  warnings_found summary = Z.of_nat (length warnings) /\
  warnings_found summary <= certificates_analyzed summary /\
  enhanced_info <> None /\
  status_summary summary <> "No certificates found" /\
  (warnings_found summary = 0
   <-> String.prefix "VALID (" (status_summary summary) = true) /\
  Forall (fun warning => String.prefix "[cluster-ca] " warning = true) warnings.
Proof.
  unfold HandleClusterCACertificateExpiry.
  destruct (String.eqb kubeconfigPath ""); [discriminate |].
  destruct (GetClusterCA kubeconfigPath) as [clusterCA | e]; [| discriminate].
  destruct (GetClusterCACertificateInfo _ _ _ clusterCA) as [[certSource [err|]]|] eqn:E;
    try discriminate.
  apply SourceFacts.GetClusterCACertificateInfo_nonempty in E as Hne.
  cbv zeta. intros [= <- <- <- <- <-]. cbn [certificates_analyzed warnings_found
    expires_within_days status_summary].
  rewrite SourceWarningsFacts.GetCertificateExpiryWarnings_flat_map.
  cbn [flat_map fst snd]. rewrite app_nil_r, length_map.
  set (w := warningDaysOf Atoi warningDaysStr).
  pose proof (AlertFacts.ValidateCertificateExpiry_length (Certificates certSource) w) as Hlen.
  destruct (Certificates certSource) as [|cert certs] eqn:Hcerts; [now elim Hne |].
  split; [apply warningDaysOf_pos |]. split; [reflexivity |].
  split; [cbn [length]; lia |]. split; [reflexivity |]. split; [lia |].
  split; [discriminate |]. split.
  { unfold getExpiryStatusSummary.
    destruct (firstAlert (cert :: certs) w) as [label|] eqn:Ef; [| discriminate].
    apply AlertFacts.firstAlert_label in Ef as [rest ->]. discriminate. }
  split.
  - rewrite AlertFacts.summary_VALID, AlertFacts.firstAlert_None,
      <- AlertFacts.ValidateCertificateExpiry_nil.
    destruct (ValidateCertificateExpiry (cert :: certs) w); simpl.
    + split; [intros _; split; [discriminate | reflexivity] | reflexivity].
    + split; [lia | intros [_ H]; discriminate].
  - apply List.Forall_forall. intros text Hin. apply in_map_iff in Hin as (x & <- & _).
    unfold tagged. cbn [Fmt.cat]. apply (TokenFacts.prefix_append "[cluster-ca] ").
Qed.

End Requests.

(** The threshold for some query values, read as decimal numerals. *)
Example warningDaysOf_samples :
  warningDaysOf SampleRequests.atoi "90" = 90 /\
  warningDaysOf SampleRequests.atoi "" = 30 /\
  warningDaysOf SampleRequests.atoi "0" = 30 /\
  warningDaysOf SampleRequests.atoi "soon" = 30.
Proof. repeat split; vm_compute; reflexivity. Qed.

Lemma HandleClusterCACertificateExpiry_success_witness :
  exists warning_days source warnings enhanced_info summary,
    HandleClusterCACertificateExpiry SampleRequests.atoi SamplePem.decode SamplePem.parse
      "10" SampleKubeconfig.path (fun _ => Ok SamplePem.oneCert) 0 0
    = Some (Success warning_days source warnings enhanced_info summary) /\
    0 < warning_days /\ expires_within_days summary = warning_days /\
    1 <= certificates_analyzed summary /\
    warnings_found summary = Z.of_nat (length warnings) /\
    warnings_found summary <= certificates_analyzed summary /\
    enhanced_info <> None /\
    status_summary summary <> "No certificates found" /\
    (warnings_found summary = 0
     <-> String.prefix "VALID (" (status_summary summary) = true) /\
    Forall (fun warning => String.prefix "[cluster-ca] " warning = true) warnings.
Proof.
  destruct (HandleClusterCACertificateExpiry SampleRequests.atoi SamplePem.decode
              SamplePem.parse "10" SampleKubeconfig.path (fun _ => Ok SamplePem.oneCert) 0 0)
    as [[e | warning_days source warnings enhanced_info summary]|] eqn:E;
    try (vm_compute in E; discriminate).
  exists warning_days, source, warnings, enhanced_info, summary. split; [reflexivity |].
  exact (HandleClusterCACertificateExpiry_success SampleRequests.atoi SamplePem.decode
           SamplePem.parse "10" SampleKubeconfig.path (fun _ => Ok SamplePem.oneCert) 0 0
           warning_days source warnings enhanced_info summary E).
Defined.

Example HandleClusterCACertificateExpiry_sample :
  match HandleClusterCACertificateExpiry SampleRequests.atoi SamplePem.decode SamplePem.parse
          "10" SampleKubeconfig.path (fun _ => Ok SamplePem.oneCert) 0 0 with
  | Some (Success warning_days source warnings (Some info) summary) =>
      warning_days = 10 /\
      warnings = ["[cluster-ca] Certificate 'CN=a (Kubernetes Cluster CA)' expires in 10 days (1970-01-11)"%string] /\
      status_summary summary = "EXPIRES SOON (10 days)"%string /\
      time_remaining info = "10 days"%string /\ weeks_until_expiry info = 1
  | _ => False
  end.
Proof. vm_compute. repeat split; reflexivity. Qed.

End HandlerFacts.

(** ** The remaining time below a month *)

Module FormatExactFacts.
Import Float64 Float64Facts GoTime HoursFacts Handlers.

(** Below 4096 hours the whole hours of a duration are exact. *)
Lemma to_int_Hours_small (d : Duration) :
  0 <= d < 4096 * Hour -> to_int (Hours d) = d / Hour.
Proof.
  intros Hd.
  assert (Hd' : 0 <= d <= 2 ^ 63) by (unfold Hour, Second in Hd; lia).
  destruct (Hours_bounds d Hd') as (Hlow & _ & _).
  pose proof (Hours_small d Hd) as Hup.
  rewrite to_int_nonneg by now apply Hours_nonneg.
  now apply Qfloor_unique.
Qed.

(** X29.  For a duration from zero to less than 31 days the text of
    [formatDuration] is that of its whole hours, computed without
    rounding: "<h> hours" below 24 hours, and "<h/24> days" with
    ", <h mod 24> hours" unless that is zero from there on. *)
Theorem formatDuration_hours_days (d : Duration) :
  0 <= d < 31 * 24 * Hour ->
  formatDuration d
  = (let h := d / Hour in
     if h <? 24 then Fmt.d h +:+ " hours"
     else Fmt.d (h / 24) +:+ " days"
            +:+ (if h mod 24 =? 0 then "" else ", " +:+ Fmt.d (h mod 24) +:+ " hours")).
Proof.
  intros Hd. unfold formatDuration.
  destruct (Z.ltb_spec d 0) as [Hneg | _]; [lia |]. cbv zeta.
  assert (Hs : 0 <= d < 4096 * Hour) by (unfold Hour, Second in *; lia).
  rewrite days_exact_small by lia. rewrite (to_int_Hours_small d Hs).
  assert (Hh : 0 <= d / Hour < 31 * 24).
  { split; [apply Z.div_pos; unfold Hour, Second in *; lia |].
    apply Z.div_lt_upper_bound; unfold Hour, Second in *; lia. }
  rewrite (Z.quot_div_nonneg d Hour) by (unfold Hour, Second in *; lia).
  set (h := d / Hour) in *.
  rewrite (Z.quot_div_nonneg h 24), (Z.rem_mod_nonneg h 24) by lia.
  assert (Hq : 0 <= h / 24 <= 30).
  { split; [apply Z.div_pos; lia |].
    assert (h / 24 < 31) by (apply Z.div_lt_upper_bound; lia). lia. }
  assert (Hm : 0 <= h mod 24 < 24) by (apply Z.mod_pos_bound; lia).
  destruct (Z.ltb_spec 365 (h / 24)); [lia |].
  destruct (Z.ltb_spec 30 (h / 24)); [lia |].
  destruct (Z.ltb_spec 0 (h / 24)) as [Hday | Hday].
  - destruct (Z.ltb_spec h 24) as [Hlt | _].
    { assert (h / 24 = 0) by (apply Z.div_small; lia). lia. }
    destruct (Z.ltb_spec 0 (h mod 24)), (Z.eqb_spec (h mod 24) 0); try lia;
      cbn [Fmt.cat]; rewrite !append_nil_r; [| reflexivity].
    reflexivity.
  - assert (Hz : h / 24 = 0) by lia.
    destruct (Z.ltb_spec h 24) as [_ | Hge].
    + rewrite (Z.mod_small h 24) by lia. cbn [Fmt.cat]. now rewrite append_nil_r.
    + assert (1 <= h / 24) by (apply Z.div_le_lower_bound; lia). lia.
Qed.

Lemma formatDuration_hours_days_witness :
  formatDuration (123 * Hour + 1)
  = (let h := (123 * Hour + 1) / Hour in
     if h <? 24 then Fmt.d h +:+ " hours"
     else Fmt.d (h / 24) +:+ " days"
            +:+ (if h mod 24 =? 0 then "" else ", " +:+ Fmt.d (h mod 24) +:+ " hours")).
Proof. apply formatDuration_hours_days. unfold Hour, Second. lia. Defined.

End FormatExactFacts.
